(** * The System: assessment and progression engine

    A shallow embedding of the rules engine of the curriculum platform:

    - [QuizEngine]   lib/quiz-engine.ts  (grading, grade table, GPA, retries)
    - [WeakAreas]    lib/weak-areas.ts   (the weak-concept ledger)
    - [Progression]  lib/progression.ts  (term and year gates)
    - [Dashboard]    components/DashboardView.tsx (the review list)
    - [LessonProgression]  lib/progression.ts  (lesson and module gates)
    - [QuizRoutes]   app/api/quiz  (the submit and the evaluate route)
    - [Double]       the rounding of a real number to a binary64 value
    - [QuizEngine64] lib/quiz-engine.ts with every operation on a score
                     rounded to a double, and with the range of [Date]
    - [Progression64]  the year gate with its average on doubles

    Conventions of the embedding.

    - A JavaScript [number] that carries a score, a weight or an average is
      a rational ([Q]), and the code is read in two ways.  In [QuizEngine]
      and [Progression] the arithmetic on it is exact; these definitions
      carry the properties that the rounding of doubles does not touch:
      counts, feedback, thresholds, bounds, the ledger, the lookups of the
      gates.  In [QuizEngine64] and [Progression64] a score is the double
      nearest to its decimal and every operation is followed by
      [Double.fl], the rounding to the nearest double with ties to the even
      significand, as IEEE 754 and ECMAScript define [+], [*] and [/];
      these definitions carry the properties that speak of a rounded value
      or compare an average with a threshold.  Overflow and subnormal
      numbers are outside [Double.fl]; scores lie between 0 and 100.
      Counters and [order] columns are integers ([Z]).
    - An ISO timestamp string is represented by the epoch milliseconds that
      [new Date(s).getTime()] reads from it; [Date.now()] is a parameter
      [now] of the function that calls it.  In [QuizEngine]
      [new Date(ms).toISOString()] is the instant [ms]; in [QuizEngine64]
      it throws a [RangeError] when [ms] is further than 8.64e15
      milliseconds from the epoch.
    - A [Map<string, T>] is a [gmap string T].
    - A Supabase table is the list of its rows; a query is a [filter] on
      that list, [.single()] yields a row only when exactly one row
      matches, and every query is answered (no transport failure).
    - The tables of the one database are kept in two records: [Database]
      for the institutional side and [Content] for the lesson side.  A
      query sees every row that matches it: the curriculum tables are
      readable by everyone and a user reads their own rows.
    - [.order(column)] is a merge sort on the column; where a theorem
      depends on the order of rows with equal keys, it assumes the keys
      distinct.
    - A thrown [TypeError] or [RangeError] is the result [None] of a
      function returning an [option]. *)

From Stdlib Require Import ZArith QArith Qround Qabs Qpower String List Lia
  Lqa.
From Stdlib Require Import DecimalString Floats.
From stdpp Require Import base decidable option list gmap strings infinite
  sorting.

Local Open Scope Z_scope.

(** ** JavaScript helpers *)

Module JS.

(** [Math.round(x)]: the nearest integer, halves going up. *)
Definition Math_round (x : Q) : Z := Qfloor (x + (1 # 2))%Q.

(** Truthiness of a string: only the empty string is falsy. *)
Definition truthy_string (s : string) : bool :=
  match s with
  | EmptyString => false
  | String _ _ => true
  end.

(** Truthiness of a [string | null]. *)
Definition truthy (s : option string) : bool :=
  match s with
  | None => false
  | Some s => truthy_string s
  end.

(** [x ?? d] *)
Definition nullish {A} (x : option A) (d : A) : A :=
  match x with
  | Some v => v
  | None => d
  end.

(** [arr.reduce(f, init)] *)
Definition reduce {A B} (f : B -> A -> B) (arr : list A) (init : B) : B :=
  fold_left f arr init.

(** [[...new Set(arr)]]: the distinct elements in order of first
    occurrence. *)
Fixpoint Set_of {A} `{EqDecision A} (arr : list A) : list A :=
  match arr with
  | [] => []
  | x :: rest => x :: filter (fun y => y <> x) (Set_of rest)
  end.

(** [set.add(x)] on a set kept in insertion order. *)
Definition Set_add {A} `{EqDecision A} (s : list A) (x : A) : list A :=
  if decide (x ∈ s) then s else s ++ [x].

(** [`${n}`] for an integer [n]. *)
Definition string_of_Z (n : Z) : string :=
  NilZero.string_of_int (Z.to_int n).

(** [a < b] on numbers. *)
Definition Qlt_bool (a b : Q) : bool := negb (Qle_bool b a).

(** [arr.join(sep)] *)
Definition join (sep : string) (arr : list string) : string :=
  String.concat sep arr.

(** [arr.findIndex(p)]: the index of the first element that satisfies [p],
    -1 when there is none. *)
Definition findIndex {A} (P : A -> Prop) `{!forall x, Decision (P x)}
    (arr : list A) : Z :=
  match list_find P arr with
  | Some (i, _) => Z.of_nat i
  | None => -1
  end.

(** [arr[i]], [undefined] out of range. *)
Definition at_index {A} (arr : list A) (i : Z) : option A :=
  if i <? 0 then None else arr !! Z.to_nat i.

End JS.

(** ** lib/types.ts *)

Module Types.

Inductive AssessmentType : Set :=
| lesson_check
| module_exam
| term_exam
| cumulative_review.

Inductive GradeLetter : Set :=
| grade_A
| grade_B
| grade_C
| grade_D
| grade_F.

Global Instance AssessmentType_eq_dec : EqDecision AssessmentType.
Proof. solve_decision. Defined.

Global Instance GradeLetter_eq_dec : EqDecision GradeLetter.
Proof. solve_decision. Defined.

(** [Question] and [AssessmentQuestion]: the fields the engine reads. *)
Record Question : Set := mkQuestion {
  question_id : string;
  question_concept_tag : option string;
}.

(** [Answer] and [AssessmentAnswer]. *)
Record Answer : Set := mkAnswer {
  answer_id : string;
  answer_question_id : string;
  answer_is_correct : bool;
  answer_explanation : option string;
}.

(** One element of [submission.answers]. *)
Record SubmittedAnswer : Set := mkSubmittedAnswer {
  sub_question_id : string;
  sub_answer_id : string;
}.

(** [QuizSubmission] and [AssessmentSubmission]. *)
Record Submission : Set := mkSubmission {
  submission_target_id : string;
  answers : list SubmittedAnswer;
}.

Record QuestionFeedback : Set := mkFeedback {
  fb_question_id : string;
  fb_correct : bool;
  fb_selected_answer_id : string;
  fb_correct_answer_id : string;
  fb_explanation : option string;
  fb_concept_tag : option string;
}.

Record QuizResult : Type := mkQuizResult {
  qr_score : Q;
  qr_passed : bool;
  qr_total_questions : Z;
  qr_correct_count : Z;
  qr_feedback : list QuestionFeedback;
}.

Record AssessmentResult : Type := mkAssessmentResult {
  ar_score : Q;
  ar_grade : GradeLetter;
  ar_passed : bool;
  ar_total_questions : Z;
  ar_correct_count : Z;
  ar_feedback : list QuestionFeedback;
  ar_weak_concepts : list string;
  ar_can_retry : bool;
  ar_next_retry_available_at : option Z;
}.

(** [AssessmentAttempt]; [created_at] in epoch milliseconds. *)
Record AssessmentAttempt : Type := mkAttempt {
  attempt_id : string;
  attempt_user_id : string;
  attempt_assessment_id : string;
  attempt_score : Q;
  attempt_passed : bool;
  attempt_number : Z;
  attempt_created_at : Z;
}.

Record Year : Set := mkYear {
  year_id : string;
  year_order : Z;
}.

Record Term : Set := mkTerm {
  term_id : string;
  term_year_id : string;
  term_order : Z;
}.

Record Assessment : Set := mkAssessment {
  assessment_id : string;
  assessment_type : AssessmentType;
  assessment_module_id : option string;
  assessment_term_id : option string;
  assessment_year_id : option string;
}.

Record TranscriptEntry : Type := mkTranscriptEntry {
  te_user_id : string;
  te_assessment_type : AssessmentType;
  te_year_id : option string;
  te_score : Q;
  te_passed : bool;
}.

(** One miss handed to the ledger: [{ concept_tag, question_id }]. *)
Record IncorrectConcept : Set := mkIncorrectConcept {
  ic_concept_tag : string;
  ic_question_id : string;
}.

Record WeakArea : Set := mkWeakArea {
  wa_id : string;
  wa_user_id : string;
  wa_concept_tag : string;
  wa_error_count : Z;
  wa_last_tested_at : Z;
  wa_created_at : Z;
}.

Inductive SubscriptionStatus : Set :=
| status_active
| status_canceled
| status_past_due
| status_unpaid
| status_trialing
| status_incomplete.

Global Instance SubscriptionStatus_eq_dec : EqDecision SubscriptionStatus.
Proof. solve_decision. Defined.

(** [Subscription]; [current_period_end] in epoch milliseconds. *)
Record Subscription : Set := mkSubscription {
  subscription_user_id : string;
  subscription_status : SubscriptionStatus;
  subscription_current_period_end : option Z;
}.

Record Level : Set := mkLevel {
  level_id : string;
  level_order : Z;
}.

(** [Module] *)
Record ModuleRow : Set := mkModule {
  module_id : string;
  module_level_id : string;
  module_term_id : option string;
  module_order : Z;
}.

Record Lesson : Set := mkLesson {
  lesson_id : string;
  lesson_module_id : string;
  lesson_order : Z;
}.

Record Quiz : Set := mkQuiz {
  quiz_id : string;
  quiz_lesson_id : string;
}.

(** A row of the [questions] table: the [Question] the engine reads, with
    the quiz it belongs to and its place in the quiz. *)
Record QuestionRow : Set := mkQuestionRow {
  row_question : Question;
  row_quiz_id : string;
  row_order : Z;
}.

Record AnswerGiven : Set := mkAnswerGiven {
  ag_question_id : string;
  ag_answer_id : string;
  ag_correct : bool;
}.

(** [QuizAttempt]; [created_at] in epoch milliseconds. *)
Record QuizAttempt : Type := mkQuizAttempt {
  qa_id : string;
  qa_user_id : string;
  qa_quiz_id : string;
  qa_score : Q;
  qa_passed : bool;
  qa_answers_given : list AnswerGiven;
  qa_created_at : Z;
}.

(** [Progress]; [updated_at] in epoch milliseconds. *)
Record Progress : Type := mkProgress {
  progress_id : string;
  progress_user_id : string;
  progress_lesson_id : string;
  progress_completed : bool;
  progress_last_score : option Q;
  progress_updated_at : Z;
}.

End Types.

(** ** lib/quiz-engine.ts *)

Module QuizEngine.
Import JS Types.

Definition PASS_THRESHOLD : Q := 80.

Definition ASSESSMENT_THRESHOLDS (t : AssessmentType) : Q :=
  match t with
  | lesson_check => 80
  | module_exam => 75
  | term_exam => 70
  | cumulative_review => 70
  end.

Definition COOLDOWN_HOURS (t : AssessmentType) : Z :=
  match t with
  | lesson_check => 0
  | module_exam => 24
  | term_exam => 48
  | cumulative_review => 24
  end.

Record AttemptLimit : Set := mkLimit {
  count : Z;
  period_days : Z;
}.

Definition MAX_ATTEMPTS (t : AssessmentType) : AttemptLimit :=
  match t with
  | lesson_check => mkLimit 3 1
  | module_exam => mkLimit 3 7
  | term_exam => mkLimit 2 14
  | cumulative_review => mkLimit 3 7
  end.

Definition calculateGrade (score : Q) : GradeLetter :=
  if Qle_bool 90 score then grade_A
  else if Qle_bool 80 score then grade_B
  else if Qle_bool 70 score then grade_C
  else if Qle_bool 60 score then grade_D
  else grade_F.

Definition getPassThreshold (t : AssessmentType) : Q :=
  ASSESSMENT_THRESHOLDS t.

Record GradeEntry : Type := mkGradeEntry {
  ge_assessment_type : AssessmentType;
  ge_score : Q;
}.

(** The [weights] table local to [computeGPA]. *)
Definition weights (t : AssessmentType) : Q :=
  match t with
  | lesson_check => 0
  | module_exam => 1
  | term_exam => 2
  | cumulative_review => 1 # 2
  end.

(** One turn of the [for] loop of [computeGPA] on the pair
    [(weightedSum, totalWeight)]. *)
Definition gpa_step (acc : Q * Q) (entry : GradeEntry) : Q * Q :=
  let w := weights (ge_assessment_type entry) in
  if Qeq_bool w 0 then acc
  else ((fst acc + ge_score entry * w)%Q, (snd acc + w)%Q).

Definition computeGPA (entries : list GradeEntry) : option Q :=
  let acc := fold_left gpa_step entries (0%Q, 0%Q) in
  let weightedSum := fst acc in
  let totalWeight := snd acc in
  if Qeq_bool totalWeight 0 then None
  else Some (inject_Z (Math_round (weightedSum / totalWeight * 100)) / 100)%Q.

(** [userAnswer?.answer_id ?? ""], where [userAnswer] is the first submitted
    answer for the question. *)
Definition selected_answer_id (submission : Submission) (question : Question)
  : string :=
  let userAnswer :=
    find (fun a => String.eqb (sub_question_id a) (question_id question))
         (answers submission) in
  nullish (option_map sub_answer_id userAnswer) "".

(** The explanation of a feedback entry: that of the selected answer, when
    the selection is wrong and not empty. *)
Definition explanation_for (allAnswers : gmap string Answer)
    (isCorrect : bool) (selectedAnswerId : string) : option string :=
  if negb isCorrect && truthy_string selectedAnswerId then
    match allAnswers !! selectedAnswerId with
    | Some selectedAnswer => answer_explanation selectedAnswer
    | None => None
    end
  else None.

(** One turn of the [for] loop of [evaluateQuiz] on the pair
    [(correctCount, feedback)]. *)
Definition quiz_step (submission : Submission)
    (correctAnswers allAnswers : gmap string Answer)
    (st : Z * list QuestionFeedback) (question : Question)
  : Z * list QuestionFeedback :=
  match correctAnswers !! question_id question with
  | None => st
  | Some correct =>
      let selectedAnswerId := selected_answer_id submission question in
      let isCorrect := String.eqb selectedAnswerId (answer_id correct) in
      let correctCount := if isCorrect then fst st + 1 else fst st in
      let explanation := explanation_for allAnswers isCorrect selectedAnswerId in
      (correctCount,
       snd st ++ [mkFeedback (question_id question) isCorrect selectedAnswerId
                             (answer_id correct) explanation
                             (question_concept_tag question)])
  end.

(** [Math.round((correctCount / totalQuestions) * 10000) / 100], or 0. *)
Definition percentage (correctCount totalQuestions : Z) : Q :=
  if 0 <? totalQuestions then
    (inject_Z (Math_round
                 (inject_Z correctCount / inject_Z totalQuestions * 10000))
     / 100)%Q
  else 0%Q.

Definition evaluateQuiz (submission : Submission) (questions : list Question)
    (correctAnswers allAnswers : gmap string Answer) : QuizResult :=
  let totalQuestions := Z.of_nat (length questions) in
  let st := fold_left (quiz_step submission correctAnswers allAnswers)
                      questions (0, []) in
  let correctCount := fst st in
  let feedback := snd st in
  let score := percentage correctCount totalQuestions in
  mkQuizResult score (Qle_bool PASS_THRESHOLD score) totalQuestions
               correctCount feedback.

Record RetryEligibility : Set := mkRetry {
  canRetry : bool;
  nextRetryAt : option Z;
}.

(** [new Date(a.created_at).getTime()] *)
Definition getTime (a : AssessmentAttempt) : Z := attempt_created_at a.

(** [None] is the [TypeError] of reading [created_at] on [undefined]. *)
Definition checkRetryEligibility (now : Z) (assessmentType : AssessmentType)
    (previousAttempts : list AssessmentAttempt) : option RetryEligibility :=
  let limits := MAX_ATTEMPTS assessmentType in
  let cooldownMs := COOLDOWN_HOURS assessmentType * 60 * 60 * 1000 in
  let periodStart := now - period_days limits * 24 * 60 * 60 * 1000 in
  let recentAttempts :=
    filter (fun a => periodStart <= getTime a) previousAttempts in
  if count limits <=? Z.of_nat (length recentAttempts) then
    match head recentAttempts with
    | None => None
    | Some first =>
        let oldestInPeriod :=
          reduce (fun oldest a =>
                    if getTime a <? getTime oldest then a else oldest)
                 recentAttempts first in
        let periodEndMs :=
          getTime oldestInPeriod + period_days limits * 24 * 60 * 60 * 1000 in
        Some (mkRetry false (Some periodEndMs))
    end
  else
    if (0 <? Z.of_nat (length previousAttempts)) && (0 <? cooldownMs) then
      match head previousAttempts with
      | None => None
      | Some first =>
          let mostRecent :=
            reduce (fun latest a =>
                      if getTime latest <? getTime a then a else latest)
                   previousAttempts first in
          let cooldownEnd := getTime mostRecent + cooldownMs in
          if now <? cooldownEnd then Some (mkRetry false (Some cooldownEnd))
          else Some (mkRetry true None)
      end
    else Some (mkRetry true None).

(** One turn of the [for] loop of [evaluateAssessment] on
    [(correctCount, feedback, incorrectConcepts)]. *)
Definition assessment_step (submission : Submission)
    (correctAnswers allAnswers : gmap string Answer)
    (st : Z * list QuestionFeedback * list string) (question : Question)
  : Z * list QuestionFeedback * list string :=
  match correctAnswers !! question_id question with
  | None => st
  | Some correct =>
      let '(correctCount0, feedback0, incorrectConcepts0) := st in
      let selectedAnswerId := selected_answer_id submission question in
      let isCorrect := String.eqb selectedAnswerId (answer_id correct) in
      let correctCount := if isCorrect then correctCount0 + 1 else correctCount0 in
      let incorrectConcepts :=
        if isCorrect then incorrectConcepts0
        else if truthy (question_concept_tag question)
             then Set_add incorrectConcepts0
                          (nullish (question_concept_tag question) "")
             else incorrectConcepts0 in
      let explanation := explanation_for allAnswers isCorrect selectedAnswerId in
      (correctCount,
       feedback0 ++ [mkFeedback (question_id question) isCorrect
                                selectedAnswerId (answer_id correct)
                                explanation (question_concept_tag question)],
       incorrectConcepts)
  end.

Definition evaluateAssessment (now : Z) (submission : Submission)
    (assessmentType : AssessmentType) (questions : list Question)
    (correctAnswers allAnswers : gmap string Answer)
    (previousAttempts : list AssessmentAttempt) : option AssessmentResult :=
  let totalQuestions := Z.of_nat (length questions) in
  let st := fold_left (assessment_step submission correctAnswers allAnswers)
                      questions (0, [], []) in
  let '(correctCount, feedback, incorrectConcepts) := st in
  let score := percentage correctCount totalQuestions in
  let threshold := getPassThreshold assessmentType in
  let grade := calculateGrade score in
  let passed := Qle_bool threshold score in
  match checkRetryEligibility now assessmentType previousAttempts with
  | None => None
  | Some retry =>
      Some (mkAssessmentResult score grade passed totalQuestions correctCount
              feedback incorrectConcepts
              (negb passed && canRetry retry) (nextRetryAt retry))
  end.

(** [extractIncorrectConcepts(result)], on [result.feedback]. *)
Definition extractIncorrectConcepts (feedback : list QuestionFeedback)
  : list IncorrectConcept :=
  map (fun f => mkIncorrectConcept (nullish (fb_concept_tag f) "")
                                   (fb_question_id f))
      (filter (fun f => negb (fb_correct f) && truthy (fb_concept_tag f) = true)
              feedback).

End QuizEngine.

(** ** The Supabase client: tables and query results *)

Module Supabase.
Import Types.

Record Database : Type := mkDatabase {
  years : list Year;
  terms : list Term;
  assessments : list Assessment;
  assessment_attempts : list AssessmentAttempt;
  transcript_entries : list TranscriptEntry;
  weak_areas : list WeakArea;
}.

(** [.single()]: the row when exactly one row matches, [null] otherwise. *)
Definition single {A} (rows : list A) : option A :=
  match rows with
  | [row] => Some row
  | _ => None
  end.

(** [.limit(n)] *)
Definition limit {A} (n : nat) (rows : list A) : list A := take n rows.

(** [uuid_generate_v4()]: an id no row of the table carries. *)
Definition uuid_generate_v4 (used : list string) : string := fresh used.

Definition set_weak_areas (db : Database) (rows : list WeakArea) : Database :=
  mkDatabase (years db) (terms db) (assessments db) (assessment_attempts db)
             (transcript_entries db) rows.

(** The tables of the lesson side of the same database. *)
Record Content : Type := mkContent {
  subscriptions : list Subscription;
  levels : list Level;
  modules : list ModuleRow;
  lessons : list Lesson;
  quizzes : list Quiz;
  questions : list QuestionRow;
  answer_rows : list Answer;
  quiz_attempts : list QuizAttempt;
  progress_rows : list Progress;
}.

(** The order of [.order(column, { ascending: true })] on an integer
    column. *)
Definition ascending {A} (column : A -> Z) (a b : A) : Prop :=
  column a <= column b.

(** The order of [.order(column, { ascending: false })]. *)
Definition descending {A} (column : A -> Z) (a b : A) : Prop :=
  column b <= column a.

Global Instance ascending_dec {A} (column : A -> Z) (a b : A) :
  Decision (ascending column a b).
Proof. unfold ascending. apply _. Defined.

Global Instance descending_dec {A} (column : A -> Z) (a b : A) :
  Decision (descending column a b).
Proof. unfold descending. apply _. Defined.

Definition order_by {A} (column : A -> Z) (rows : list A) : list A :=
  merge_sort (ascending column) rows.

Definition order_by_desc {A} (column : A -> Z) (rows : list A) : list A :=
  merge_sort (descending column) rows.

Definition set_quiz_attempts (c : Content) (rows : list QuizAttempt)
  : Content :=
  mkContent (subscriptions c) (levels c) (modules c) (lessons c) (quizzes c)
            (questions c) (answer_rows c) rows (progress_rows c).

Definition set_progress_rows (c : Content) (rows : list Progress) : Content :=
  mkContent (subscriptions c) (levels c) (modules c) (lessons c) (quizzes c)
            (questions c) (answer_rows c) (quiz_attempts c) rows.

End Supabase.

(** ** lib/weak-areas.ts *)

Module WeakAreas.
Import JS Types Supabase.

Definition REVIEW_THRESHOLD : Z := 3.

(** [.update({ error_count, last_tested_at }).eq("id", id)] *)
Definition update_by_id (id : string) (errorCount lastTestedAt : Z)
    (rows : list WeakArea) : list WeakArea :=
  map (fun row =>
         if String.eqb (wa_id row) id
         then mkWeakArea (wa_id row) (wa_user_id row) (wa_concept_tag row)
                         errorCount lastTestedAt (wa_created_at row)
         else row)
      rows.

(** [.insert({ user_id, concept_tag, error_count, last_tested_at })]: the
    table is [UNIQUE (user_id, concept_tag)], so the insert of a second
    row for a pair is rejected; the caller does not read the error. *)
Definition insert_row (userId tag : string) (errorCount now : Z)
    (rows : list WeakArea) : list WeakArea :=
  if decide (Exists (fun row => wa_user_id row = userId /\
                                wa_concept_tag row = tag) rows)
  then rows
  else rows ++ [mkWeakArea (uuid_generate_v4 (map wa_id rows)) userId tag
                           errorCount now now].

(** The body of the [for] loop of [updateWeakAreas] for one tag. *)
Definition touch (now : Z) (userId : string)
    (incorrectConcepts : list IncorrectConcept)
    (rows : list WeakArea) (tag : string) : list WeakArea :=
  let errorCount :=
    Z.of_nat (length (filter (fun c => ic_concept_tag c = tag)
                             incorrectConcepts)) in
  match single (filter (fun row => wa_user_id row = userId /\
                                   wa_concept_tag row = tag) rows) with
  | Some existing =>
      update_by_id (wa_id existing) (wa_error_count existing + errorCount)
                   now rows
  | None => insert_row userId tag errorCount now rows
  end.

Definition updateWeakAreas (now : Z) (db : Database) (userId : string)
    (incorrectConcepts : list IncorrectConcept) : Database :=
  if (length incorrectConcepts =? 0)%nat then db
  else
    let uniqueTags := Set_of (map ic_concept_tag incorrectConcepts) in
    set_weak_areas db
      (fold_left (touch now userId incorrectConcepts) uniqueTags
                 (weak_areas db)).

Definition getRequiredReviews (db : Database) (userId : string)
  : list string :=
  map wa_concept_tag
      (filter (fun row => wa_user_id row = userId /\
                          REVIEW_THRESHOLD <= wa_error_count row)
              (weak_areas db)).

(** [.order("error_count", { ascending: false })] *)
Definition by_error_count_desc (a b : WeakArea) : Prop :=
  wa_error_count b <= wa_error_count a.

Global Instance by_error_count_desc_dec (a b : WeakArea) :
  Decision (by_error_count_desc a b).
Proof. unfold by_error_count_desc. apply _. Defined.

(** [getWeakAreas]: the rows of the user, highest error count first. *)
Definition getWeakAreas (db : Database) (userId : string) : list WeakArea :=
  merge_sort by_error_count_desc
             (filter (fun row => wa_user_id row = userId) (weak_areas db)).

End WeakAreas.

(** ** components/DashboardView.tsx *)

Module Dashboard.
Import Types.

(** [const requiredReviews = weakAreas.filter(...)] *)
Definition requiredReviews (weakAreas : list WeakArea) : list WeakArea :=
  filter (fun w => 3 <= wa_error_count w) weakAreas.

(** One [<li>] of the "Required Reviews" section: the tag, and whether the
    "blocks progression" mark is rendered next to it. *)
Record ReviewItem : Set := mkReviewItem {
  item_concept_tag : string;
  item_blocks_progression : bool;
}.

Definition required_reviews_section (weakAreas : list WeakArea)
  : list ReviewItem :=
  map (fun area => mkReviewItem (wa_concept_tag area)
                                (5 <=? wa_error_count area))
      (requiredReviews weakAreas).

End Dashboard.

(** ** lib/progression.ts *)

Module Progression.
Import JS Types Supabase.

(** [{ accessible: boolean; reason?: string }] *)
Record AccessResult : Set := mkAccess {
  accessible : bool;
  reason : option string;
}.

Definition allow : AccessResult := mkAccess true None.
Definition deny (why : string) : AccessResult := mkAccess false (Some why).

(** The query for one passing attempt of [userId] at an assessment:
    [.eq("user_id", _).eq("assessment_id", _).eq("passed", true)
     .limit(1).single()]. *)
Definition passingAttempt (db : Database) (userId assessmentId : string)
  : option AssessmentAttempt :=
  single (limit 1
    (filter (fun a => attempt_user_id a = userId /\
                      attempt_assessment_id a = assessmentId /\
                      attempt_passed a = true)
            (assessment_attempts db))).

(** [.from("assessments").eq("term_id", _).eq("type", "term_exam").single()] *)
Definition termExamOf (db : Database) (termId : string) : option Assessment :=
  single (filter (fun a => assessment_term_id a = Some termId /\
                           assessment_type a = term_exam)
                 (assessments db)).

(** [.from("assessments").eq("year_id", _).eq("type", "cumulative_review")
     .single()] *)
Definition cumulativeReviewOf (db : Database) (yearId : string)
  : option Assessment :=
  single (filter (fun a => assessment_year_id a = Some yearId /\
                           assessment_type a = cumulative_review)
                 (assessments db)).

Definition term_exam_message : string :=
  "You must pass the previous term's final examination before proceeding to this term.".

Definition weak_area_message (concepts : string) : string :=
  "The following concepts require targeted review before progression: "
  +:+ concepts +:+ ".".

Definition canAccessTerm (db : Database) (userId termId : string)
  : AccessResult :=
  match single (filter (fun t => term_id t = termId) (terms db)) with
  | None => deny "Term not found."
  | Some term =>
      if term_order term =? 1 then allow
      else
        match single (filter (fun t => term_order t = term_order term - 1)
                             (terms db)) with
        | None => allow
        | Some prevTerm =>
            let examMissed :=
              match termExamOf db (term_id prevTerm) with
              | Some termExam =>
                  match passingAttempt db userId (assessment_id termExam) with
                  | None => true
                  | Some _ => false
                  end
              | None => false
              end in
            if examMissed then deny term_exam_message
            else
              let weakAreas :=
                filter (fun w => wa_user_id w = userId) (weak_areas db) in
              let blockingAreas :=
                filter (fun w => 3 <= wa_error_count w) weakAreas in
              if (0 <? length blockingAreas)%nat then
                let concepts := join ", " (map wa_concept_tag blockingAreas) in
                deny (weak_area_message concepts)
              else allow
        end
  end.

Definition year_exams_message : string :=
  "All term examinations in the previous year must be passed before advancing.".

Definition cumulative_review_message : string :=
  "The cumulative review for the previous year must be passed before advancing.".

Definition gpa_message (yearGPA : Q) : string :=
  "Your GPA for the previous year (" +:+ string_of_Z (Math_round yearGPA)
  +:+ ") is below the required minimum of 70.".

(** The [for] loop over [prevTerms]: [Some r] when the loop returns [r],
    [None] when it runs to its end. *)
Fixpoint term_exams_loop (db : Database) (userId : string)
    (prevTerms : list Term) : option AccessResult :=
  match prevTerms with
  | [] => None
  | prevTerm :: rest =>
      match termExamOf db (term_id prevTerm) with
      | Some termExam =>
          match passingAttempt db userId (assessment_id termExam) with
          | None => Some (deny year_exams_message)
          | Some _ => term_exams_loop db userId rest
          end
      | None => term_exams_loop db userId rest
      end
  end.

(** One turn of the GPA loop on [(weightedSum, totalWeight)]. *)
Definition year_gpa_step (acc : Q * Q) (entry : TranscriptEntry) : Q * Q :=
  let weight : Q :=
    (if decide (te_assessment_type entry = term_exam) then 2 else 1)%Q in
  ((fst acc + te_score entry * weight)%Q, (snd acc + weight)%Q).

(** The GPA check that closes [canAccessYear]. *)
Definition gpa_check (db : Database) (userId prevYearId : string)
  : AccessResult :=
  let transcriptEntries :=
    filter (fun e => te_user_id e = userId /\
                     te_year_id e = Some prevYearId /\
                     te_passed e = true /\
                     te_assessment_type e ∈ [module_exam; term_exam])
           (transcript_entries db) in
  if (0 <? length transcriptEntries)%nat then
    let acc := fold_left year_gpa_step transcriptEntries (0%Q, 0%Q) in
    let weightedSum := fst acc in
    let totalWeight := snd acc in
    let yearGPA :=
      if Qlt_bool 0 totalWeight then (weightedSum / totalWeight)%Q else 0%Q in
    if Qlt_bool yearGPA 70 then deny (gpa_message yearGPA) else allow
  else allow.

Definition canAccessYear (db : Database) (userId yearId : string)
  : AccessResult :=
  match single (filter (fun y => year_id y = yearId) (years db)) with
  | None => deny "Year not found."
  | Some year =>
      if year_order year =? 1 then allow
      else
        match single (filter (fun y => year_order y = year_order year - 1)
                             (years db)) with
        | None => allow
        | Some prevYear =>
            let prevTerms :=
              filter (fun t => term_year_id t = year_id prevYear) (terms db) in
            if (length prevTerms =? 0)%nat then allow
            else
              match term_exams_loop db userId prevTerms with
              | Some denied => denied
              | None =>
                  let reviewMissed :=
                    match cumulativeReviewOf db (year_id prevYear) with
                    | Some cumulativeReview =>
                        match passingAttempt db userId
                                (assessment_id cumulativeReview) with
                        | None => true
                        | Some _ => false
                        end
                    | None => false
                    end in
                  if reviewMissed then deny cumulative_review_message
                  else gpa_check db userId (year_id prevYear)
              end
        end
  end.

(** [getAssessmentAttemptCount]: [count ?? 0] of the user's attempts at the
    assessment. *)
Definition getAssessmentAttemptCount (db : Database)
    (userId assessmentId : string) : Z :=
  Z.of_nat (length (filter (fun a => attempt_user_id a = userId /\
                                     attempt_assessment_id a = assessmentId)
                           (assessment_attempts db))).

(** The [type] tag of a [RetryAction]. *)
Inductive RetryActionType : Set :=
| action_retry
| action_revisit_lesson
| action_review_required.

Record RetryAction : Set := mkRetryAction {
  ra_type : RetryActionType;
  ra_message : string;
}.

Definition getRetryAction (attemptNumber : Z) : RetryAction :=
  if attemptNumber <=? 1 then
    mkRetryAction action_retry
      "Your score was below 80%. Review the corrective feedback and retry."
  else if attemptNumber =? 2 then
    mkRetryAction action_revisit_lesson
      "You have not passed after two attempts. Revisit the lesson content before your next attempt."
  else
    mkRetryAction action_review_required
      "This lesson and its prerequisites have been flagged for review. A targeted review is required before progression.".

(** The tiers [getInstitutionalRetryAction] accepts:
    ["module_exam" | "term_exam" | "cumulative_review"]. *)
Inductive InstitutionalTier : Set :=
| tier_module_exam
| tier_term_exam
| tier_cumulative_review.

Definition tier_type (t : InstitutionalTier) : AssessmentType :=
  match t with
  | tier_module_exam => module_exam
  | tier_term_exam => term_exam
  | tier_cumulative_review => cumulative_review
  end.

(** [InstitutionalRetryAction], a union tagged by [type]. *)
Inductive InstitutionalRetryAction : Set :=
| inst_retry (message : string) (cooldown_hours : Z)
| inst_module_review (message : string) (modules_to_review : list string)
| inst_term_review (message : string)
| inst_blocked (message : string) (next_retry_at : string).

Definition getInstitutionalRetryAction (assessmentType : InstitutionalTier)
    (attemptNumber : Z) (weakConcepts : list string)
  : InstitutionalRetryAction :=
  match assessmentType with
  | tier_module_exam =>
      if attemptNumber <=? 2 then
        inst_retry
          "Your score was below 75%. Review the corrective feedback. A minimum 24-hour interval is required before your next attempt."
          24
      else
        inst_module_review
          "You have not passed after three attempts within the allowed period. All module lessons have been flagged for review."
          weakConcepts
  | tier_term_exam =>
      if attemptNumber <=? 1 then
        inst_retry
          "Your score was below 70%. A full term review is required. A minimum 48-hour interval is required before your next attempt."
          48
      else
        inst_term_review
          "You have not passed after two attempts within the allowed period. A mandatory review cycle has been initiated. Specific module weaknesses have been identified for targeted review."
  | tier_cumulative_review =>
      inst_module_review
        "The cumulative review has identified concepts requiring re-study. Targeted review assignments have been generated."
        weakConcepts
  end.

End Progression.

(** ** lib/progression.ts: the lesson gate and the module gate *)

Module LessonProgression.
Import JS Types QuizEngine Supabase Progression.

(** The [lessons] rows with the given id, each joined with its module and
    the module's level: [modules!inner (..., levels!inner (...))]. *)
Definition lesson_with_module_and_level (c : Content) (lessonId : string)
  : list (Lesson * ModuleRow * Level) :=
  lesson ← filter (fun l => lesson_id l = lessonId) (lessons c);
  module ← filter (fun m => module_id m = lesson_module_id lesson) (modules c);
  level ← filter (fun lv => level_id lv = module_level_id module) (levels c);
  [(lesson, module, level)].

(** [.from("levels").eq("order", levelOrder).single()] *)
Definition levelOf (c : Content) (levelOrder : Z) : option Level :=
  single (filter (fun lv => level_order lv = levelOrder) (levels c)).

(** [.from("lessons").eq("module_id", _).order("order", { ascending: false })
     .limit(1).single()] *)
Definition lastLessonOf (c : Content) (moduleId : string) : option Lesson :=
  single (limit 1
    (order_by_desc lesson_order
       (filter (fun l => lesson_module_id l = moduleId) (lessons c)))).

(** [getPreviousLesson].  In the first branch the ids handed to [.eq] are
    [data?.id]: a lookup that found no row hands over [undefined], which
    matches no row. *)
Definition getPreviousLesson (c : Content)
    (levelOrder moduleOrder lessonOrder : Z) : option Lesson :=
  if 1 <? lessonOrder then
    let levelId := option_map level_id (levelOf c levelOrder) in
    let moduleId :=
      option_map module_id
        (single (filter (fun m => Some (module_level_id m) = levelId /\
                                  module_order m = moduleOrder)
                        (modules c))) in
    single (filter (fun l => Some (lesson_module_id l) = moduleId /\
                             lesson_order l = lessonOrder - 1)
                   (lessons c))
  else if 1 <? moduleOrder then
    match levelOf c levelOrder with
    | None => None
    | Some level =>
        match single (filter (fun m => module_level_id m = level_id level /\
                                       module_order m = moduleOrder - 1)
                             (modules c)) with
        | None => None
        | Some prevModule => lastLessonOf c (module_id prevModule)
        end
    end
  else if 0 <? levelOrder then
    match levelOf c (levelOrder - 1) with
    | None => None
    | Some prevLevel =>
        match single (limit 1
                (order_by_desc module_order
                   (filter (fun m => module_level_id m = level_id prevLevel)
                           (modules c)))) with
        | None => None
        | Some lastModule => lastLessonOf c (module_id lastModule)
        end
    end
  else None.

(** The subscription check for levels 1 and up: [Some] refusal, or [None]
    when the check lets the request through. *)
Definition subscription_check (now : Z) (c : Content) (userId : string)
  : option AccessResult :=
  match single (filter (fun s => subscription_user_id s = userId /\
                                 subscription_status s = status_active)
                       (subscriptions c)) with
  | None =>
      Some (deny "An active subscription is required to access this level.")
  | Some subscription =>
      match subscription_current_period_end subscription with
      | Some periodEnd =>
          if periodEnd <? now
          then Some (deny "Your subscription has expired.")
          else None
      | None => None
      end
  end.

(** The query for one passing attempt of [userId] at a quiz. *)
Definition passingQuizAttempt (c : Content) (userId quizId : string)
  : option QuizAttempt :=
  single (limit 1
    (filter (fun a => qa_user_id a = userId /\ qa_quiz_id a = quizId /\
                      qa_passed a = true)
            (quiz_attempts c))).

Definition previous_quiz_message : string :=
  "You must pass the previous lesson's quiz before accessing this lesson.".

Definition canAccessLesson (now : Z) (c : Content) (userId lessonId : string)
  : AccessResult :=
  match single (lesson_with_module_and_level c lessonId) with
  | None => deny "Lesson not found."
  | Some (lesson, module, level) =>
      let levelOrder := level_order level in
      let moduleOrder := module_order module in
      let lessonOrder := lesson_order lesson in
      if (levelOrder =? 0) && (moduleOrder =? 1) && (lessonOrder =? 1)
      then allow
      else
        match (if 0 <? levelOrder then subscription_check now c userId
               else None) with
        | Some refusal => refusal
        | None =>
            match getPreviousLesson c levelOrder moduleOrder lessonOrder with
            | None => allow
            | Some previousLesson =>
                match single (filter (fun q => quiz_lesson_id q
                                               = lesson_id previousLesson)
                                     (quizzes c)) with
                | None => allow
                | Some quiz =>
                    match passingQuizAttempt c userId (quiz_id quiz) with
                    | None => deny previous_quiz_message
                    | Some _ => allow
                    end
                end
            end
        end
  end.

(** [getAttemptCount]: [count ?? 0] of the user's attempts at the quiz. *)
Definition getAttemptCount (c : Content) (userId quizId : string) : Z :=
  Z.of_nat (length (filter (fun a => qa_user_id a = userId /\
                                     qa_quiz_id a = quizId)
                           (quiz_attempts c))).

Definition previous_lessons_message : string :=
  "All lessons in the previous module must be completed before proceeding.".

Definition previous_module_exam_message : string :=
  "You must pass the previous module's examination before proceeding.".

(** [canAccessModule]; [None] is the [TypeError] of reading [id] on
    [termModules[moduleIndex - 1]] when that is [undefined]. *)
Definition canAccessModule (db : Database) (c : Content)
    (userId moduleId : string) : option AccessResult :=
  match single (filter (fun m => module_id m = moduleId) (modules c)) with
  | None => Some (deny "Module not found.")
  | Some module =>
      match module_term_id module with
      | None => Some allow
      | Some termId =>
          let termModules :=
            order_by module_order
              (filter (fun m => module_term_id m = Some termId) (modules c)) in
          match termModules with
          | [] => Some (deny "No modules found for this term.")
          | first :: _ =>
              if String.eqb (module_id first) moduleId then Some allow
              else
                let moduleIndex :=
                  findIndex (fun m => module_id m = moduleId) termModules in
                if moduleIndex <=? 0 then Some allow
                else
                  match at_index termModules (moduleIndex - 1) with
                  | None => None
                  | Some prevModule =>
                      let prevModuleId := module_id prevModule in
                      let prevLessons :=
                        filter (fun l => lesson_module_id l = prevModuleId)
                               (lessons c) in
                      let lessonsMissing :=
                        if (0 <? length prevLessons)%nat then
                          let completedCount :=
                            Z.of_nat (length
                              (filter (fun p =>
                                         progress_user_id p = userId /\
                                         progress_lesson_id p
                                           ∈ map lesson_id prevLessons /\
                                         progress_completed p = true)
                                      (progress_rows c))) in
                          completedCount <? Z.of_nat (length prevLessons)
                        else false in
                      if lessonsMissing
                      then Some (deny previous_lessons_message)
                      else
                        let examMissed :=
                          match single
                                  (filter (fun a =>
                                             assessment_module_id a
                                               = Some prevModuleId /\
                                             assessment_type a = module_exam)
                                          (assessments db)) with
                          | Some moduleExam =>
                              match passingAttempt db userId
                                      (assessment_id moduleExam) with
                              | None => true
                              | Some _ => false
                              end
                          | None => false
                          end in
                        if examMissed
                        then Some (deny previous_module_exam_message)
                        else Some allow
                  end
          end
      end
  end.

End LessonProgression.

(** ** app/api/quiz: the submit route and the evaluate route *)

Module QuizRoutes.
Import JS Types QuizEngine Supabase WeakAreas Progression LessonProgression.

(** One turn of the loop that builds the lookup maps, on the pair
    [(correctAnswers, allAnswers)]. *)
Definition lookup_step (maps : gmap string Answer * gmap string Answer)
    (answer : Answer) : gmap string Answer * gmap string Answer :=
  let correctAnswers := fst maps in
  let allAnswers := <[answer_id answer := answer]> (snd maps) in
  if answer_is_correct answer
  then (<[answer_question_id answer := answer]> correctAnswers, allAnswers)
  else (correctAnswers, allAnswers).

Definition build_lookups (allAnswersRaw : list Answer)
  : gmap string Answer * gmap string Answer :=
  fold_left lookup_step allAnswersRaw (∅, ∅).

(** [.from("questions").eq("quiz_id", quiz_id).order("order")] *)
Definition fetch_questions (c : Content) (quizId : string)
  : list QuestionRow :=
  order_by row_order (filter (fun q => row_quiz_id q = quizId) (questions c)).

(** [.from("answers").in("question_id", questionIds)] *)
Definition fetch_answers (c : Content) (questionIds : list string)
  : list Answer :=
  filter (fun a => answer_question_id a ∈ questionIds) (answer_rows c).

(** The grading both routes share, from the fetched question rows on. *)
Definition grade (c : Content) (body : Submission)
    (questions : list QuestionRow) : QuizResult * gmap string Answer :=
  let questionIds := map (fun q => question_id (row_question q)) questions in
  let allAnswersRaw := fetch_answers c questionIds in
  let maps := build_lookups allAnswersRaw in
  let correctAnswers := fst maps in
  let allAnswers := snd maps in
  (evaluateQuiz body (map row_question questions) correctAnswers allAnswers,
   correctAnswers).

(** The JSON bodies the routes answer with. *)
Inductive Response : Type :=
| json_error (error : string) (status : Z)
| json_submitted (result : QuizResult) (retry_action : option RetryAction)
                 (attempt_number : Z)
| json_evaluated (result : QuizResult).

(** [submittedAnswers.map(...)]: what is stored in [answers_given]. *)
Definition answersGiven (correctAnswers : gmap string Answer)
    (submittedAnswers : list SubmittedAnswer) : list AnswerGiven :=
  map (fun a =>
         mkAnswerGiven (sub_question_id a) (sub_answer_id a)
           match correctAnswers !! sub_question_id a with
           | Some correct => String.eqb (sub_answer_id a) (answer_id correct)
           | None => false
           end)
      submittedAnswers.

(** [.from("quiz_attempts").insert({...})] *)
Definition insert_quiz_attempt (now : Z) (userId quizId : string) (score : Q)
    (passed : bool) (given : list AnswerGiven) (rows : list QuizAttempt)
  : list QuizAttempt :=
  rows ++ [mkQuizAttempt (uuid_generate_v4 (map qa_id rows)) userId quizId
                         score passed given now].

(** [.from("progress").upsert({...}, { onConflict: "user_id,lesson_id" })] *)
Definition upsert_progress (now : Z) (userId lessonId : string)
    (completed : bool) (lastScore : Q) (rows : list Progress)
  : list Progress :=
  if decide (Exists (fun row => progress_user_id row = userId /\
                                progress_lesson_id row = lessonId) rows)
  then
    map (fun row =>
           if decide (progress_user_id row = userId /\
                      progress_lesson_id row = lessonId)
           then mkProgress (progress_id row) userId lessonId completed
                           (Some lastScore) now
           else row)
        rows
  else
    rows ++ [mkProgress (uuid_generate_v4 (map progress_id rows)) userId
                        lessonId completed (Some lastScore) now].

(** [POST] of the submit route: the response and the tables afterwards.
    [user] is the signed-in user, [body] the parsed request. *)
Definition submit_POST (now : Z) (db : Database) (c : Content)
    (user : option string) (body : Submission)
  : Response * Database * Content :=
  match user with
  | None => (json_error "Authentication required" 401, db, c)
  | Some userId =>
      let quizId := submission_target_id body in
      let submittedAnswers := answers body in
      if negb (truthy_string quizId) || (length submittedAnswers =? 0)%nat
      then (json_error "quiz_id and answers are required" 400, db, c)
      else
        match single (filter (fun q => quiz_id q = quizId) (quizzes c)) with
        | None => (json_error "Quiz not found" 404, db, c)
        | Some quiz =>
            let questions := fetch_questions c quizId in
            if (length questions =? 0)%nat
            then (json_error "No questions found for this quiz" 404, db, c)
            else
              let graded := grade c body questions in
              let result := fst graded in
              let correctAnswers := snd graded in
              let attemptCount := getAttemptCount c userId quizId in
              let retryAction :=
                if qr_passed result then None
                else Some (getRetryAction (attemptCount + 1)) in
              let given := answersGiven correctAnswers submittedAnswers in
              let c1 :=
                set_quiz_attempts c
                  (insert_quiz_attempt now userId quizId (qr_score result)
                     (qr_passed result) given (quiz_attempts c)) in
              let c2 :=
                set_progress_rows c1
                  (upsert_progress now userId (quiz_lesson_id quiz)
                     (qr_passed result) (qr_score result)
                     (progress_rows c1)) in
              let incorrectConcepts :=
                extractIncorrectConcepts (qr_feedback result) in
              let db' :=
                if (0 <? length incorrectConcepts)%nat
                then updateWeakAreas now db userId incorrectConcepts
                else db in
              (json_submitted result retryAction (attemptCount + 1), db', c2)
        end
  end.

(** [POST] of the evaluate route, which writes nothing. *)
Definition evaluate_POST (c : Content) (user : option string)
    (body : Submission) : Response :=
  match user with
  | None => json_error "Authentication required" 401
  | Some _ =>
      let quizId := submission_target_id body in
      if negb (truthy_string quizId)
      then json_error "quiz_id and answers are required" 400
      else
        let questions := fetch_questions c quizId in
        if (length questions =? 0)%nat
        then json_error "No questions found" 404
        else json_evaluated (fst (grade c body questions))
  end.

End QuizRoutes.

(** ** JavaScript numbers: binary64 arithmetic *)

Module Double.

(** The nearest integer, a half going to the even neighbour. *)
Definition round_half_even (y : Q) : Z :=
  let f := Qfloor y in
  match Qcompare (y - inject_Z f) (1 # 2) with
  | Lt => f
  | Gt => f + 1
  | Eq => if Z.even f then f else f + 1
  end.

(** [floor (log2 x)] for a positive [x]. *)
Definition ilog2 (x : Q) : Z :=
  let g := Z.log2 (Qnum x) - Z.log2 (Zpos (Qden x)) in
  if Qle_bool (2 ^ g) x then g else g - 1.

(** The double nearest to the real number [x] (a tie goes to the even
    significand): [x] is scaled to a significand of 53 bits, which is
    rounded to an integer.  Overflow to infinity and the subnormal range
    are not modelled; the numbers of this system stay far from both. *)
Definition fl (x : Q) : Q :=
  if Qeq_bool x 0 then 0%Q
  else
    let a := Qabs x in
    let e := ilog2 a - 52 in
    let m := round_half_even (a / 2 ^ e) in
    ((if Qle_bool 0 x then 1 else -1) * (inject_Z m * 2 ^ e))%Q.

(** The unit roundoff of binary64, [2^-53]. *)
Definition u : Q := 1 # 9007199254740992.

(** The rational value of a finite primitive float of Rocq, whose
    arithmetic is the binary64 arithmetic of the machine; [fl] is compared
    with it below. *)
Definition float_value (f : PrimFloat.float) : option Q :=
  match Prim2SF f with
  | S754_zero _ => Some 0%Q
  | S754_finite s m e =>
      Some ((if s then -1 else 1) * (inject_Z (Z.pos m) * 2 ^ e))%Q
  | _ => None
  end.

(** The primitive float [f] has the value [q]. *)
Definition same_value (f : PrimFloat.float) (q : Q) : bool :=
  match float_value f with
  | Some v => Qeq_bool v q
  | None => false
  end.

End Double.

(** ** lib/quiz-engine.ts on binary64 numbers and dated timestamps *)

Module QuizEngine64.
Import JS Types QuizEngine Double.



(** The largest time value of a [Date]: 8.64e15 milliseconds either side of
    the epoch. *)
Definition MAX_TIME : Z := 8640000000000000.

(** [new Date(ms).toISOString()]: the instant, or [None] for the
    [RangeError] thrown when [ms] is outside the range of [Date]. *)
Definition toISOString (ms : Z) : option Z :=
  if Z.abs ms <=? MAX_TIME then Some ms else None.

(** [checkRetryEligibility] with the two calls of [toISOString]: [None] is
    a thrown [TypeError] or [RangeError]. *)
Definition checkRetryEligibility64 (now : Z) (assessmentType : AssessmentType)
    (previousAttempts : list AssessmentAttempt) : option RetryEligibility :=
  let limits := MAX_ATTEMPTS assessmentType in
  let cooldownMs := COOLDOWN_HOURS assessmentType * 60 * 60 * 1000 in
  let periodStart := now - period_days limits * 24 * 60 * 60 * 1000 in
  let recentAttempts :=
    filter (fun a => periodStart <= getTime a) previousAttempts in
  if count limits <=? Z.of_nat (length recentAttempts) then
    match head recentAttempts with
    | None => None
    | Some first =>
        let oldestInPeriod :=
          reduce (fun oldest a =>
                    if getTime a <? getTime oldest then a else oldest)
                 recentAttempts first in
        let periodEndMs :=
          getTime oldestInPeriod + period_days limits * 24 * 60 * 60 * 1000 in
        match toISOString periodEndMs with
        | None => None
        | Some iso => Some (mkRetry false (Some iso))
        end
    end
  else
    if (0 <? Z.of_nat (length previousAttempts)) && (0 <? cooldownMs) then
      match head previousAttempts with
      | None => None
      | Some first =>
          let mostRecent :=
            reduce (fun latest a =>
                      if getTime latest <? getTime a then a else latest)
                   previousAttempts first in
          let cooldownEnd := getTime mostRecent + cooldownMs in
          if now <? cooldownEnd then
            match toISOString cooldownEnd with
            | None => None
            | Some iso => Some (mkRetry false (Some iso))
            end
          else Some (mkRetry true None)
      end
    else Some (mkRetry true None).


(** One turn of the [for] loop of [computeGPA] on doubles:
    [weightedSum += entry.score * w; totalWeight += w].  The score is the
    double read for the entry; the weights are doubles as they stand. *)
Definition gpa_step64 (acc : Q * Q) (entry : GradeEntry) : Q * Q :=
  let w := weights (ge_assessment_type entry) in
  if Qeq_bool w 0 then acc
  else (fl (fst acc + fl (fl (ge_score entry) * w)), fl (snd acc + w)).

(** [computeGPA] in double arithmetic. *)
Definition computeGPA64 (entries : list GradeEntry) : option Q :=
  let acc := fold_left gpa_step64 entries (0%Q, 0%Q) in
  let weightedSum := fst acc in
  let totalWeight := snd acc in
  if Qeq_bool totalWeight 0 then None
  else Some (fl (inject_Z (Math_round (fl (fl (weightedSum / totalWeight) * 100)))
                 / 100)).

End QuizEngine64.

(** ** Running sums on doubles *)

Module Sums64.
Import Double.

(** One turn of a loop that adds [score * weight] to a running sum and
    [weight] to a running weight, on doubles; [sw] is the pair of the score
    and the weight. *)
Definition weighted_step64 (acc : Q * Q) (sw : Q * Q) : Q * Q :=
  (fl (fst acc + fl (fl (fst sw) * snd sw)), fl (snd acc + snd sw)).

(** The exact sums of the same pairs. *)
Definition exact_sum (l : list (Q * Q)) : Q :=
  fold_right Qplus 0%Q (map (fun sw => fst sw * snd sw)%Q l).
Definition exact_weight (l : list (Q * Q)) : Q :=
  fold_right Qplus 0%Q (map snd l).


End Sums64.

(** ** lib/progression.ts: the year gate on binary64 numbers *)

Module Progression64.
Import JS Types Supabase Progression Double.

(** One turn of the GPA loop on [(weightedSum, totalWeight)]:
    [weightedSum += entry.score * weight; totalWeight += weight], on
    doubles. *)
Definition year_gpa_step64 (acc : Q * Q) (entry : TranscriptEntry) : Q * Q :=
  let weight : Q :=
    (if decide (te_assessment_type entry = term_exam) then 2 else 1)%Q in
  (fl (fst acc + fl (fl (te_score entry) * weight)), fl (snd acc + weight)).

(** The GPA check that closes [canAccessYear], in double arithmetic. *)
Definition gpa_check64 (db : Database) (userId prevYearId : string)
  : AccessResult :=
  let transcriptEntries :=
    filter (fun e => te_user_id e = userId /\
                     te_year_id e = Some prevYearId /\
                     te_passed e = true /\
                     te_assessment_type e ∈ [module_exam; term_exam])
           (transcript_entries db) in
  if (0 <? length transcriptEntries)%nat then
    let acc := fold_left year_gpa_step64 transcriptEntries (0%Q, 0%Q) in
    let weightedSum := fst acc in
    let totalWeight := snd acc in
    let yearGPA :=
      if Qlt_bool 0 totalWeight then fl (weightedSum / totalWeight) else 0%Q in
    if Qlt_bool yearGPA 70 then deny (gpa_message yearGPA) else allow
  else allow.

(** [canAccessYear] with the GPA check in double arithmetic. *)
Definition canAccessYear64 (db : Database) (userId yearId : string)
  : AccessResult :=
  match single (filter (fun y => year_id y = yearId) (years db)) with
  | None => deny "Year not found."
  | Some year =>
      if year_order year =? 1 then allow
      else
        match single (filter (fun y => year_order y = year_order year - 1)
                             (years db)) with
        | None => allow
        | Some prevYear =>
            let prevTerms :=
              filter (fun t => term_year_id t = year_id prevYear) (terms db) in
            if (length prevTerms =? 0)%nat then allow
            else
              match term_exams_loop db userId prevTerms with
              | Some denied => denied
              | None =>
                  let reviewMissed :=
                    match cumulativeReviewOf db (year_id prevYear) with
                    | Some cumulativeReview =>
                        match passingAttempt db userId
                                (assessment_id cumulativeReview) with
                        | None => true
                        | Some _ => false
                        end
                    | None => false
                    end in
                  if reviewMissed then deny cumulative_review_message
                  else gpa_check64 db userId (year_id prevYear)
              end
        end
  end.

End Progression64.

(** ** The specification's vocabulary *)

Module Spec.
Import Types Supabase.

(** GPA credit weights as the specification lists them. *)
Definition gpa_weight (t : AssessmentType) : Q :=
  match t with
  | module_exam => 1
  | term_exam => 2
  | cumulative_review => 1 # 2
  | lesson_check => 0
  end.

Definition Qsum (l : list Q) : Q := fold_right Qplus 0%Q l.

(** The entries that count toward the GPA: every tier but lesson checks. *)
Definition counted (entries : list QuizEngine.GradeEntry)
  : list QuizEngine.GradeEntry :=
  filter (fun e => QuizEngine.ge_assessment_type e <> lesson_check) entries.

(** Σ(score × weight) over the counted entries. *)
Definition weighted_sum (entries : list QuizEngine.GradeEntry) : Q :=
  Qsum (map (fun e => QuizEngine.ge_score e *
                      gpa_weight (QuizEngine.ge_assessment_type e))%Q
            (counted entries)).

(** Σ(weight) over the counted entries. *)
Definition total_weight (entries : list QuizEngine.GradeEntry) : Q :=
  Qsum (map (fun e => gpa_weight (QuizEngine.ge_assessment_type e))
            (counted entries)).


(** What "skipped from scoring entirely" says of a question [q] of the
    list [qs1 ++ q :: qs2]: grading gives the counts, the score and the
    feedback it gives without [q]. *)
Definition skipped_from_scoring (sub : Submission)
    (ca aa : gmap string Answer) (qs1 : list Question) (q : Question)
    (qs2 : list Question) : Prop :=
  let r := QuizEngine.evaluateQuiz sub (qs1 ++ q :: qs2) ca aa in
  let r' := QuizEngine.evaluateQuiz sub (qs1 ++ qs2) ca aa in
  qr_correct_count r = qr_correct_count r' /\
  qr_total_questions r = qr_total_questions r' /\
  (qr_score r == qr_score r')%Q /\
  qr_feedback r = qr_feedback r'.

(** What the grading functions do with such a question: it adds nothing to
    the correct count, the feedback or the weak concepts, no feedback
    entry carries its id, and it is one more question in the total that
    divides the score. *)
Definition skipped_but_counted (now : Z) (ty : AssessmentType)
    (prev : list AssessmentAttempt) (sub : Submission)
    (ca aa : gmap string Answer) (qs1 : list Question) (q : Question)
    (qs2 : list Question) : Prop :=
  (let r := QuizEngine.evaluateQuiz sub (qs1 ++ q :: qs2) ca aa in
   let r' := QuizEngine.evaluateQuiz sub (qs1 ++ qs2) ca aa in
   qr_correct_count r = qr_correct_count r' /\
   qr_feedback r = qr_feedback r' /\
   Forall (fun f => fb_question_id f <> question_id q) (qr_feedback r) /\
   qr_total_questions r = qr_total_questions r' + 1 /\
   qr_score r = QuizEngine.percentage (qr_correct_count r')
                                      (qr_total_questions r' + 1)) /\
  (exists r r',
     QuizEngine.evaluateAssessment now sub ty (qs1 ++ q :: qs2) ca aa prev
       = Some r /\
     QuizEngine.evaluateAssessment now sub ty (qs1 ++ qs2) ca aa prev
       = Some r' /\
     ar_correct_count r = ar_correct_count r' /\
     ar_feedback r = ar_feedback r' /\
     ar_weak_concepts r = ar_weak_concepts r' /\
     Forall (fun f => fb_question_id f <> question_id q) (ar_feedback r) /\
     ar_total_questions r = ar_total_questions r' + 1 /\
     ar_score r = QuizEngine.percentage (ar_correct_count r')
                                        (ar_total_questions r' + 1)).

(** The retry policy of a tier: at most [max_attempts] attempts per
    [period] days, [cooldown] hours between attempts. *)
Record RetryPolicy : Set := mkPolicy {
  max_attempts : Z;
  period : Z;
  cooldown : Z;
}.

Definition retry_policy (t : AssessmentType) : RetryPolicy :=
  match t with
  | lesson_check => mkPolicy 3 1 0
  | module_exam => mkPolicy 3 7 24
  | term_exam => mkPolicy 2 14 48
  | cumulative_review => mkPolicy 3 7 24
  end.

(** Lengths of time in milliseconds. *)
Definition days (n : Z) : Z := n * 86400000.
Definition hours (n : Z) : Z := n * 3600000.

(** The earliest and the latest of a non-empty list of timestamps. *)
Definition earliest (stamps : list Z) : Z :=
  fold_right Z.min (hd 0 stamps) stamps.
Definition latest (stamps : list Z) : Z :=
  fold_right Z.max (hd 0 stamps) stamps.

(** The retry algorithm, step by step as the specification words it. *)
Definition retry_as_specified (now : Z) (tier : AssessmentType)
    (attempts : list AssessmentAttempt) : QuizEngine.RetryEligibility :=
  let p := retry_policy tier in
  let stamps := map attempt_created_at attempts in
  let recent := filter (fun t => now - days (period p) <= t) stamps in
  if decide (max_attempts p <= Z.of_nat (length recent)) then
    QuizEngine.mkRetry false (Some (earliest recent + days (period p)))
  else if decide (0 < cooldown p /\ attempts <> [] /\
                  now < latest stamps + hours (cooldown p)) then
    QuizEngine.mkRetry false (Some (latest stamps + hours (cooldown p)))
  else QuizEngine.mkRetry true None.

(** The number of misses of [tag] within one attempt. *)
Definition misses_of (tag : string) (misses : list IncorrectConcept) : Z :=
  Z.of_nat (length (filter (fun c => ic_concept_tag c = tag) misses)).

(** The ledger row of a (user, concept tag) pair, if there is one. *)
Definition ledger_row (rows : list WeakArea) (user tag : string)
  : option WeakArea :=
  head (filter (fun row => wa_user_id row = user /\ wa_concept_tag row = tag)
               rows).

(** The key of a ledger row. *)
Definition row_key (row : WeakArea) : string * string :=
  (wa_user_id row, wa_concept_tag row).

(** The constraints of the [weak_areas] table: [id] is the primary key and
    [(user_id, concept_tag)] is unique. *)
Definition ledger_ok (rows : list WeakArea) : Prop :=
  NoDup (map wa_id rows) /\ NoDup (map row_key rows).

(** [after] is the row of [(user, tag)] once [n] misses are recorded on
    top of [before]: refreshed, and incremented or created with [n]. *)
Definition row_touched (now : Z) (user tag : string) (n : Z)
    (before : option WeakArea) (after : WeakArea) : Prop :=
  wa_user_id after = user /\ wa_concept_tag after = tag /\
  wa_last_tested_at after = now /\
  match before with
  | Some row =>
      wa_id after = wa_id row /\ wa_created_at after = wa_created_at row /\
      wa_error_count after = wa_error_count row + n
  | None => wa_error_count after = n
  end.

(** The effect of one turn of the loop on the row of a pair [(u, t)]. *)
Definition touch_effect (now : Z) (userId : string)
    (misses : list IncorrectConcept) (tag : string)
    (rows rows' : list WeakArea) : Prop :=
  ledger_ok rows' /\
  forall u t,
    if decide (u = userId /\ t = tag) then
      exists after,
        ledger_row rows' u t = Some after /\
        row_touched now userId tag (misses_of tag misses)
                    (ledger_row rows u t) after
    else ledger_row rows' u t = ledger_row rows u t.

(** The effect of one update call with the misses of one attempt: the
    constraints still hold; the row of each missed tag of the user is
    touched once with the number of its misses and every other row is as
    before; no count decreases; the loop visits each missed tag once; the
    other tables are as before. *)
Definition ledger_updated (now : Z) (userId : string)
    (misses : list IncorrectConcept) (db db' : Database) : Prop :=
  ledger_ok (weak_areas db') /\
  (forall u t,
     if decide (u = userId /\ 0 < misses_of t misses) then
       exists after,
         ledger_row (weak_areas db') u t = Some after /\
         row_touched now userId t (misses_of t misses)
                     (ledger_row (weak_areas db) u t) after
     else ledger_row (weak_areas db') u t = ledger_row (weak_areas db) u t)
  /\
  (forall row, row ∈ weak_areas db ->
     exists row', row' ∈ weak_areas db' /\ wa_id row' = wa_id row /\
                  row_key row' = row_key row /\
                  wa_error_count row <= wa_error_count row') /\
  (let uniqueTags := JS.Set_of (map ic_concept_tag misses) in
   NoDup uniqueTags /\ forall t, t ∈ uniqueTags <-> 0 < misses_of t misses) /\
  years db' = years db /\ terms db' = terms db /\
  assessments db' = assessments db /\
  assessment_attempts db' = assessment_attempts db /\
  transcript_entries db' = transcript_entries db.

(** The user has a passing attempt at the assessment. *)
Definition has_passing_attempt (db : Database)
    (user assessmentId : string) : Prop :=
  exists a, a ∈ assessment_attempts db /\ attempt_user_id a = user /\
            attempt_assessment_id a = assessmentId /\ attempt_passed a = true.

(** The exam requirement of the previous term: its term exam, if the
    term has one, is passed. *)
Definition exam_requirement_met (db : Database) (user : string)
    (prevTerm : Term) : Prop :=
  forall exam, Progression.termExamOf db (term_id prevTerm) = Some exam ->
               has_passing_attempt db user (assessment_id exam).

(** The weak-area rows of the user with [error_count >= 3]. *)
Definition offending_rows (db : Database) (user : string)
  : list WeakArea :=
  filter (fun row => wa_user_id row = user /\ 3 <= wa_error_count row)
         (weak_areas db).

(** The text [text] names [tag]. *)
Definition names (text tag : string) : Prop :=
  exists before after, text = before +:+ tag +:+ after.

(** The weak-area block: access exactly when no row offends; otherwise a
    refusal whose reason names the tag of every offending row. *)
Definition weak_area_gate (db : Database) (user : string)
    (result : Progression.AccessResult) : Prop :=
  if decide (offending_rows db user = []) then
    Progression.accessible result = true
  else
    Progression.accessible result = false /\
    exists why, Progression.reason result = Some why /\
                forall row, row ∈ offending_rows db user ->
                            names why (wa_concept_tag row).

(** Every term of the previous year that has a term exam has a passing
    attempt of the user at it. *)
Definition term_exams_passed (db : Database) (user : string)
    (prevYear : Year) : Prop :=
  forall t exam,
    t ∈ terms db -> term_year_id t = year_id prevYear ->
    Progression.termExamOf db (term_id t) = Some exam ->
    has_passing_attempt db user (assessment_id exam).

(** The cumulative review of the previous year, if defined, has a passing
    attempt of the user. *)
Definition cumulative_review_passed (db : Database) (user : string)
    (prevYear : Year) : Prop :=
  forall review,
    Progression.cumulativeReviewOf db (year_id prevYear) = Some review ->
    has_passing_attempt db user (assessment_id review).

(** The user's passed module-exam and term-exam transcript entries of the
    previous year. *)
Definition year_transcript (db : Database) (user : string) (prevYear : Year)
  : list TranscriptEntry :=
  filter (fun e => te_user_id e = user /\
                   te_year_id e = Some (year_id prevYear) /\
                   te_passed e = true /\
                   (te_assessment_type e = module_exam \/
                    te_assessment_type e = term_exam))
         (transcript_entries db).

(** The GPA of a year: the weighted average of its entries, undefined
    (null) without entries. *)
Definition year_gpa (entries : list TranscriptEntry) : option Q :=
  match entries with
  | [] => None
  | _ =>
      Some (Qsum (map (fun e => te_score e * gpa_weight (te_assessment_type e))%Q
                      entries)
            / Qsum (map (fun e => gpa_weight (te_assessment_type e)) entries))%Q
  end.


(** An entry of the year GPA: a module exam or a term exam. *)
Definition gpa_entry (e : TranscriptEntry) : Prop :=
  te_assessment_type e = module_exam \/ te_assessment_type e = term_exam.



(** The answer the submission selects for a question: that of its first
    entry for the question, the empty string without one. *)
Definition chosen (sub : Submission) (q : Question) : string :=
  match find (fun a => String.eqb (sub_question_id a) (question_id q))
             (answers sub) with
  | Some a => sub_answer_id a
  | None => ""
  end.

(** The question has a correct answer in the lookup and the submission
    selects it. *)
Definition answered_correctly (sub : Submission) (ca : gmap string Answer)
    (q : Question) : Prop :=
  exists c, ca !! question_id q = Some c /\ chosen sub q = answer_id c.


#[global] Instance answered_correctly_dec sub ca q :
  Decision (answered_correctly sub ca q).
Proof.
  unfold answered_correctly.
  destruct (ca !! question_id q) as [c |].
  - destruct (decide (chosen sub q = answer_id c)) as [H | H].
    + left. exists c. auto.
    + right. intros (c' & Hc & Heq). congruence.
  - right. intros (c & Hc & _). discriminate.
Defined.



(** Every prior attempt is dated inside the range of [Date] and at least
    14 days, the longest retry period, before its end. *)
Definition dated_in_range (prev : list AssessmentAttempt) : Prop :=
  Forall (fun a => - QuizEngine64.MAX_TIME <= attempt_created_at a /\
                   attempt_created_at a <= QuizEngine64.MAX_TIME - days 14)
         prev.











(** The weak-area block as the specification states it, for a term found
    under [termId]: with an order above 1 and the exam requirement met by
    every term of the order before, the weak-area block decides. *)
Definition term_gate_as_stated (db : Database) (user termId : string)
    (term : Term) : Prop :=
  filter (fun t => term_id t = termId) (terms db) = [term] ->
  1 < term_order term ->
  (forall prevTerm, prevTerm ∈ terms db ->
     term_order prevTerm = term_order term - 1 ->
     exam_requirement_met db user prevTerm) ->
  weak_area_gate db user (Progression.canAccessTerm db user termId).

End Spec.

(** ** Sample databases *)

Module Fixtures.
Import Types Supabase.

(** Two terms; the exam of the first is passed; "centers" was missed three
    times. *)
Definition term_gate_db : Database :=
  mkDatabase
    [mkYear "y1" 1]
    [mkTerm "t1" "y1" 1; mkTerm "t2" "y1" 2]
    [mkAssessment "e1" term_exam None (Some "t1") None]
    [mkAttempt "a1" "u" "e1" 90 true 1 1000]
    []
    [mkWeakArea "w1" "u" "centers" 3 1000 1000;
     mkWeakArea "w2" "u" "rays" 2 1000 1000].

(** Two years; the term exam and the cumulative review of the first are
    passed; the transcript is a parameter. *)
Definition year_gate_db (transcript : list TranscriptEntry) : Database :=
  mkDatabase
    [mkYear "y1" 1; mkYear "y2" 2]
    [mkTerm "t1" "y1" 1; mkTerm "t2" "y2" 2]
    [mkAssessment "e1" term_exam None (Some "t1") None;
     mkAssessment "r1" cumulative_review None None (Some "y1")]
    [mkAttempt "a1" "u" "e1" 90 true 1 1000;
     mkAttempt "a2" "u" "r1" 85 true 1 2000]
    transcript
    [].

(** A module exam at 72 and a term exam at 66: a year GPA of 68. *)
Definition transcript_68 : list TranscriptEntry :=
  [mkTranscriptEntry "u" module_exam (Some "y1") 72 true;
   mkTranscriptEntry "u" term_exam (Some "y1") 66 true].

(** One level with two modules of one term.  The first module has two
    lessons, each with a quiz of two questions; in the second quiz no
    answer of question "q3" is flagged correct.  The quiz attempts and the
    progress rows are parameters. *)
Definition course (attempts : list QuizAttempt) (progress : list Progress)
  : Content :=
  mkContent
    []
    [mkLevel "lv0" 0]
    [mkModule "m2" "lv0" (Some "t1") 2; mkModule "m1" "lv0" (Some "t1") 1]
    [mkLesson "l1" "m1" 1; mkLesson "l2" "m1" 2; mkLesson "l3" "m2" 1]
    [mkQuiz "z1" "l1"; mkQuiz "z2" "l2"]
    [mkQuestionRow (mkQuestion "q2" (Some "rays")) "z1" 2;
     mkQuestionRow (mkQuestion "q1" (Some "centers")) "z1" 1;
     mkQuestionRow (mkQuestion "q3" None) "z2" 1;
     mkQuestionRow (mkQuestion "q4" (Some "centers")) "z2" 2]
    [mkAnswer "a1" "q1" true None;
     mkAnswer "a2" "q1" false (Some "A center is not a function.");
     mkAnswer "b1" "q2" true None;
     mkAnswer "c1" "q3" false None;
     mkAnswer "d1" "q4" true None]
    attempts
    progress.

(** One passed attempt of user "u" at the first quiz, and the progress row
    that goes with it. *)
Definition passed_z1 : list QuizAttempt :=
  [mkQuizAttempt "p1" "u" "z1" 100 true [] 1].

Definition completed_l1 : list Progress :=
  [mkProgress "g1" "u" "l1" true (Some 100%Q) 1].

(** Submissions for the first quiz: both questions right, and the first
    question wrong. *)
Definition z1_all_right : Submission :=
  mkSubmission "z1" [mkSubmittedAnswer "q1" "a1"; mkSubmittedAnswer "q2" "b1"].

Definition z1_one_wrong : Submission :=
  mkSubmission "z1" [mkSubmittedAnswer "q1" "a2"; mkSubmittedAnswer "q2" "b1"].

(** A database without institutional rows. *)
Definition empty_db : Database := mkDatabase [] [] [] [] [] [].

(** Both lessons of the first module completed by user "u". *)
Definition completed_m1 : list Progress :=
  [mkProgress "g1" "u" "l1" true (Some 100%Q) 1;
   mkProgress "g2" "u" "l2" true (Some 90%Q) 2].






(** Terms of order 1 and 3 and no term of order 2; "centers" was missed
    seven times. *)
Definition term_gap_db : Database :=
  mkDatabase
    [mkYear "y1" 1]
    [mkTerm "t1" "y1" 1; mkTerm "t3" "y1" 3]
    []
    []
    []
    [mkWeakArea "w1" "u" "centers" 7 1000 1000].

End Fixtures.

(** ** What the code is observed to do *)

Module Behaviour.

Import JS Types QuizEngine Supabase WeakAreas Progression Dashboard Spec.

(** The feedback entry the grading loops build for one question, [None]
    for a question without a correct answer in the lookup. *)
Definition feedback_entry (sub : Submission) (ca aa : gmap string Answer)
    (question : Question) : option QuestionFeedback :=
  match ca !! question_id question with
  | None => None
  | Some correct =>
      let selected := selected_answer_id sub question in
      let isCorrect := String.eqb selected (answer_id correct) in
      Some (mkFeedback (question_id question) isCorrect selected
                       (answer_id correct)
                       (explanation_for aa isCorrect selected)
                       (question_concept_tag question))
  end.

(** The number of feedback entries marked correct. *)
Definition correct_entries (fb : list QuestionFeedback) : Z :=
  Z.of_nat (length (filter (fun f => fb_correct f = true) fb)).

(** The counts of a grading result agree: [correct_count] counts the
    correct feedback entries, there are at most [total_questions] entries,
    and the score lies between 0 and 100. *)
Definition counts_in_bounds (score : Q) (total correct : Z)
    (feedback : list QuestionFeedback) : Prop :=
  correct = correct_entries feedback /\
  0 <= correct /\ correct <= Z.of_nat (length feedback) /\
  Z.of_nat (length feedback) <= total /\
  (0 <= score)%Q /\ (score <= 100)%Q.

(** The concept tags [extractIncorrectConcepts] draws from a feedback
    list. *)
Definition missed_tags (feedback : list QuestionFeedback) : list string :=
  map ic_concept_tag (extractIncorrectConcepts feedback).

(** A feedback entry is sound: it shows the correct answer of its
    question; it is correct exactly when that answer was selected; it
    carries an explanation only when the selection is wrong and not empty,
    and then the explanation of the selected answer; its selection is empty
    when the question was not answered and otherwise comes from the
    submission. *)
Definition entry_sound (sub : Submission) (ca aa : gmap string Answer)
    (f : QuestionFeedback) : Prop :=
  (exists c, ca !! fb_question_id f = Some c /\
             fb_correct_answer_id f = answer_id c) /\
  (fb_correct f = true <->
   fb_selected_answer_id f = fb_correct_answer_id f) /\
  (fb_correct f = true -> fb_explanation f = None) /\
  (fb_selected_answer_id f = "" -> fb_explanation f = None) /\
  (forall e, fb_explanation f = Some e ->
             exists a, aa !! fb_selected_answer_id f = Some a /\
                       answer_explanation a = Some e) /\
  ((forall a, a ∈ answers sub -> sub_question_id a <> fb_question_id f) ->
   fb_selected_answer_id f = "") /\
  (fb_selected_answer_id f <> "" ->
   exists a, a ∈ answers sub /\ sub_question_id a = fb_question_id f /\
             sub_answer_id a = fb_selected_answer_id f).

(** The submission selects the correct answer of every question of a
    non-empty list. *)
Definition all_answered_correctly (sub : Submission)
    (ca : gmap string Answer) (qs : list Question) : Prop :=
  qs <> [] /\
  forall q, q ∈ qs ->
    exists c, ca !! question_id q = Some c /\
              selected_answer_id sub q = answer_id c.

(** A perfect result: score 100, passed, every question correct. *)
Definition perfect_result (score : Q) (passed : bool) (total correct : Z)
  : Prop :=
  (score == 100)%Q /\ passed = true /\ correct = total.

(** How far a lesson-check retry action escalates. *)
Definition severity (t : RetryActionType) : Z :=
  match t with
  | action_retry => 0
  | action_revisit_lesson => 1
  | action_review_required => 2
  end.

(** The action is a plain retry. *)
Definition is_retry (a : InstitutionalRetryAction) : Prop :=
  match a with
  | inst_retry _ _ => True
  | _ => False
  end.

(** The period and the cooldown of a tier in milliseconds, as
    [checkRetryEligibility] computes them. *)
Definition period_ms (ty : AssessmentType) : Z :=
  period_days (MAX_ATTEMPTS ty) * 24 * 60 * 60 * 1000.
Definition cooldown_ms (ty : AssessmentType) : Z :=
  COOLDOWN_HOURS ty * 60 * 60 * 1000.

(** The error count the ledger holds for a (user, concept tag) pair, 0 when
    it has no row for the pair. *)
Definition error_count_of (rows : list WeakArea) (user tag : string) : Z :=
  match ledger_row rows user tag with
  | Some row => wa_error_count row
  | None => 0
  end.

(** The misses recorded for [user] on [tag] by an update made for
    [userId]. *)
Definition recorded_misses (userId : string) (misses : list IncorrectConcept)
    (user tag : string) : Z :=
  if decide (user = userId) then misses_of tag misses else 0.

(** What [canAccessTerm] decides before it reads the ledger: [Some r] when
    it returns [r] there, [None] when it goes on to the weak-area check. *)
Definition term_gate_before_ledger (db : Database) (userId termId : string)
  : option AccessResult :=
  match single (filter (fun t => term_id t = termId) (terms db)) with
  | None => Some (deny "Term not found.")
  | Some term =>
      if term_order term =? 1 then Some allow
      else
        match single (filter (fun t => term_order t = term_order term - 1)
                             (terms db)) with
        | None => Some allow
        | Some prevTerm =>
            match termExamOf db (term_id prevTerm) with
            | Some termExam =>
                match passingAttempt db userId (assessment_id termExam) with
                | None => Some (deny term_exam_message)
                | Some _ => None
                end
            | None => None
            end
        end
  end.

(** The verdict of the weak-area check on the list of required reviews. *)
Definition review_verdict (tags : list string) : AccessResult :=
  match tags with
  | [] => allow
  | _ => deny (weak_area_message (join ", " tags))
  end.

(** [db'] is [db] with further assessment attempts recorded. *)
Definition attempts_added (db db' : Database) : Prop :=
  years db' = years db /\ terms db' = terms db /\
  assessments db' = assessments db /\
  transcript_entries db' = transcript_entries db /\
  weak_areas db' = weak_areas db /\
  forall a, a ∈ assessment_attempts db -> a ∈ assessment_attempts db'.

(** The scores [computeGPA] reads: those of the entries that are not lesson
    checks. *)
Definition counted_scores (entries : list GradeEntry) : list Q :=
  map ge_score
      (filter (fun e => ge_assessment_type e <> lesson_check) entries).

(** A gate result is well formed: a grant carries no reason, a refusal
    carries one. *)
Definition reason_iff_refused (r : AccessResult) : Prop :=
  (accessible r = true /\ reason r = None) \/
  (accessible r = false /\ exists why, reason r = Some why).

(** The (score, weight) pairs [computeGPA] adds up. *)
Definition gpa_pairs (entries : list GradeEntry) : list (Q * Q) :=
  map (fun e => (ge_score e, gpa_weight (ge_assessment_type e)))
      (counted entries).


End Behaviour.

(** ** What the lesson-side code is observed to do *)

Module LessonBehaviour.
Import JS Types QuizEngine Supabase WeakAreas Progression Spec.
Import LessonProgression QuizRoutes.

(** The rows of the [questions] table that belong to a quiz. *)
Definition quiz_questions (c : Content) (quizId : string)
  : list QuestionRow :=
  filter (fun q => row_quiz_id q = quizId) (questions c).

(** The ids of the questions a route fetches for a quiz, in the order it
    grades them. *)
Definition asked (c : Content) (quizId : string) : list string :=
  map (fun q => question_id (row_question q)) (fetch_questions c quizId).

(** Some row of the [answers] table is flagged correct for the question. *)
Definition has_correct_answer (c : Content) (questionId : string) : Prop :=
  Exists (fun a => answer_question_id a = questionId /\
                   answer_is_correct a = true)
         (answer_rows c).

Global Instance has_correct_answer_dec (c : Content) (questionId : string) :
  Decision (has_correct_answer c questionId).
Proof. unfold has_correct_answer. apply _. Defined.

(** The correct answer a feedback entry shows is a row of the [answers]
    table, flagged correct, of the entry's question. *)
Definition shows_a_correct_answer (c : Content) (f : QuestionFeedback)
  : Prop :=
  exists a, a ∈ answer_rows c /\ answer_is_correct a = true /\
            answer_question_id a = fb_question_id f /\
            answer_id a = fb_correct_answer_id f.

(** The conditions under which the submit route grades a request. *)
Definition submit_accepts (c : Content) (user : option string)
    (body : Submission) : Prop :=
  is_Some user /\
  submission_target_id body <> "" /\
  answers body <> [] /\
  (exists quiz,
     filter (fun q => quiz_id q = submission_target_id body) (quizzes c)
     = [quiz]) /\
  quiz_questions c (submission_target_id body) <> [].

(** The key of a progress row. *)
Definition progress_key (row : Progress) : string * string :=
  (progress_user_id row, progress_lesson_id row).

(** The constraints of the [progress] table: [id] is the primary key and
    [(user_id, lesson_id)] is unique. *)
Definition progress_ok (rows : list Progress) : Prop :=
  NoDup (map progress_id rows) /\ NoDup (map progress_key rows).

(** The progress row of a user for a lesson, if there is one. *)
Definition progress_of (rows : list Progress) (user lessonId : string)
  : option Progress :=
  head (filter (fun row => progress_user_id row = user /\
                           progress_lesson_id row = lessonId) rows).

(** The lesson gate computes [previousId] as the lesson before
    [lessonId]. *)
Definition follows (c : Content) (lessonId previousId : string) : Prop :=
  exists lesson module level previous,
    single (lesson_with_module_and_level c lessonId)
      = Some (lesson, module, level) /\
    getPreviousLesson c (level_order level) (module_order module)
                      (lesson_order lesson) = Some previous /\
    lesson_id previous = previousId.

(** The lesson is found and the subscription check does not stand in the
    user's way: the lesson's level has order 0 or below, or the user has
    exactly one active subscription and it has not run out. *)
Definition subscription_in_order (now : Z) (c : Content)
    (userId lessonId : string) : Prop :=
  exists lesson module level,
    single (lesson_with_module_and_level c lessonId)
      = Some (lesson, module, level) /\
    (level_order level <= 0 \/
     exists subscription,
       filter (fun s => subscription_user_id s = userId /\
                        subscription_status s = status_active)
              (subscriptions c) = [subscription] /\
       forall periodEnd,
         subscription_current_period_end subscription = Some periodEnd ->
         now <= periodEnd).

(** The row the submit route stores for a graded request: it carries the
    user, the quiz and the result, under an id no earlier row has, and it
    is marked passed exactly when its score is at least 80. *)
Definition attempt_stored (rows : list QuizAttempt) (userId quizId : string)
    (result : QuizResult) (row : QuizAttempt) : Prop :=
  qa_user_id row = userId /\ qa_quiz_id row = quizId /\
  qa_score row = qr_score result /\ qa_passed row = qr_passed result /\
  (qa_id row ∉ map qa_id rows) /\
  (qa_passed row = true <-> (80 <= qa_score row)%Q).

(** The progress row the submit route leaves for the lesson of a graded
    quiz. *)
Definition progress_recorded (now : Z) (userId lessonId : string)
    (result : QuizResult) (row : Progress) : Prop :=
  progress_user_id row = userId /\ progress_lesson_id row = lessonId /\
  progress_completed row = qr_passed result /\
  progress_last_score row = Some (qr_score result) /\
  progress_updated_at row = now.

(** The modules of a term. *)
Definition term_modules (c : Content) (termId : string) : list ModuleRow :=
  filter (fun m => module_term_id m = Some termId) (modules c).

(** [previous] is the module just before [module] in the term: both belong
    to the term, [previous] has the smaller order, and no module of the
    term lies between the two. *)
Definition previous_in_term (c : Content) (termId : string)
    (module previous : ModuleRow) : Prop :=
  module ∈ term_modules c termId /\
  previous ∈ term_modules c termId /\
  module_order previous < module_order module /\
  forall m, m ∈ term_modules c termId ->
            ~ (module_order previous < module_order m < module_order module).

(** The user has a progress row that marks the lesson completed. *)
Definition lesson_completed (c : Content) (userId : string) (lesson : Lesson)
  : Prop :=
  exists p, p ∈ progress_rows c /\ progress_user_id p = userId /\
            progress_lesson_id p = lesson_id lesson /\
            progress_completed p = true.

(** If the module has exactly one module exam, the user has passed it. *)
Definition module_exam_passed (db : Database) (userId moduleId : string)
  : Prop :=
  forall exam,
    filter (fun a => assessment_module_id a = Some moduleId /\
                     assessment_type a = module_exam)
           (assessments db) = [exam] ->
    has_passing_attempt db userId (assessment_id exam).

(** What the module gate asks of the previous module. *)
Definition previous_module_done (db : Database) (c : Content)
    (userId : string) (previous : ModuleRow) : Prop :=
  (forall lesson,
     lesson ∈ lessons c -> lesson_module_id lesson = module_id previous ->
     lesson_completed c userId lesson) /\
  module_exam_passed db userId (module_id previous).

End LessonBehaviour.

(** * Properties *)

Import JS Types QuizEngine Supabase WeakAreas Progression Dashboard Spec
  Fixtures.

(** ** Rounding *)


Lemma Qle_bool_false_lt (a b : Q) : Qle_bool a b = false <-> (b < a)%Q.
Proof.
  split.
  - intros H. apply Qnot_le_lt. intros Hle.
    apply Qle_bool_iff in Hle. congruence.
  - intros H. destruct (Qle_bool a b) eqn:E; [| reflexivity].
    apply Qle_bool_iff in E. exfalso. eapply Qlt_not_le; eauto.
Qed.

Lemma calculateGrade_partition (score : Q) :
  (calculateGrade score = grade_A <-> (90 <= score)%Q) /\
  (calculateGrade score = grade_B <-> (80 <= score)%Q /\ (score < 90)%Q) /\
  (calculateGrade score = grade_C <-> (70 <= score)%Q /\ (score < 80)%Q) /\
  (calculateGrade score = grade_D <-> (60 <= score)%Q /\ (score < 70)%Q) /\
  (calculateGrade score = grade_F <-> (score < 60)%Q).
Proof.
  unfold calculateGrade.
  destruct (Qle_bool 90 score) eqn:E90;
    [apply Qle_bool_iff in E90 | apply Qle_bool_false_lt in E90];
  (destruct (Qle_bool 80 score) eqn:E80;
    [apply Qle_bool_iff in E80 | apply Qle_bool_false_lt in E80]);
  (destruct (Qle_bool 70 score) eqn:E70;
    [apply Qle_bool_iff in E70 | apply Qle_bool_false_lt in E70]);
  (destruct (Qle_bool 60 score) eqn:E60;
    [apply Qle_bool_iff in E60 | apply Qle_bool_false_lt in E60]);
  repeat split; intros; try discriminate; try lra;
  try (exfalso; lra);
  try match goal with H : _ /\ _ |- _ => destruct H; exfalso; lra end.
Qed.

Lemma checkRetryEligibility_total now ty atts :
  exists r, checkRetryEligibility now ty atts = Some r.
Proof.
  unfold checkRetryEligibility.
  set (recent := filter _ atts).
  destruct (count (MAX_ATTEMPTS ty) <=? Z.of_nat (length recent)) eqn:Hc.
  - destruct recent as [| a0 rest] eqn:Hr.
    + exfalso. apply Z.leb_le in Hc. destruct ty; simpl in Hc; lia.
    + simpl. eauto.
  - destruct atts as [| a0 rest].
    + simpl. eauto.
    + cbn [head]. 
      destruct (_ && _); [| eauto].
      destruct (now <? _); eauto.
Qed.

Lemma Qsum_cons (x : Q) (l : list Q) : Qsum (x :: l) = (x + Qsum l)%Q.
Proof. reflexivity. Qed.

Lemma gpa_step_counted (acc : Q * Q) (e : GradeEntry) :
  gpa_step acc e =
  if decide (ge_assessment_type e <> lesson_check)
  then ((fst acc + ge_score e * gpa_weight (ge_assessment_type e))%Q,
        (snd acc + gpa_weight (ge_assessment_type e))%Q)
  else acc.
Proof. destruct e as [[] sc]; reflexivity. Qed.

Lemma gpa_loop (entries : list GradeEntry) : forall a b : Q,
  (fst (fold_left gpa_step entries (a, b)) == a + weighted_sum entries)%Q /\
  (snd (fold_left gpa_step entries (a, b)) == b + total_weight entries)%Q.
Proof.
  unfold weighted_sum, total_weight, counted.
  induction entries as [| e es IH]; intros a b.
  - rewrite filter_nil.
    cbn [fold_left map fst snd]. change (Qsum []) with 0%Q. split; ring.
  - cbn [fold_left]. rewrite gpa_step_counted, filter_cons.
    destruct (decide (ge_assessment_type e <> lesson_check)) as [Hc | Hc].
    + cbn [fst snd].
      destruct (IH (a + ge_score e * gpa_weight (ge_assessment_type e))%Q
                   (b + gpa_weight (ge_assessment_type e))%Q) as [H1 H2].
      rewrite H1, H2. cbn [map]. rewrite !Qsum_cons. split; ring.
    + apply IH.
Qed.

Lemma assessment_loop_quiz_loop sub ca aa (qs : list Question) :
  forall st : Z * list QuestionFeedback * list string,
    fst (fold_left (assessment_step sub ca aa) qs st) =
    fold_left (quiz_step sub ca aa) qs (fst st).
Proof.
  induction qs as [| q qs IH]; intros st; [reflexivity |].
  cbn [fold_left]. rewrite IH. f_equal.
  unfold assessment_step, quiz_step.
  destruct (ca !! question_id q); [| reflexivity].
  destruct st as [[c fb] ic]. reflexivity.
Qed.

(** Two of three questions answered correctly: 66.67, not passed. *)
Example quiz_two_of_three :
  let ca : gmap string Answer :=
    {[ "q1" := mkAnswer "a1" "q1" true None;
       "q2" := mkAnswer "a2" "q2" true None;
       "q3" := mkAnswer "a3" "q3" true None ]} in
  let r := evaluateQuiz
             (mkSubmission "quiz" [mkSubmittedAnswer "q1" "a1";
                                   mkSubmittedAnswer "q3" "a3"])
             [mkQuestion "q1" None; mkQuestion "q2" (Some "centers");
              mkQuestion "q3" None] ca ca in
  (qr_score r == 66.67)%Q /\ qr_passed r = false /\
  qr_correct_count r = 2 /\ qr_total_questions r = 3 /\
  extractIncorrectConcepts (qr_feedback r)
    = [mkIncorrectConcept "centers" "q2"].
Proof. cbv zeta. repeat split. Qed.

(** ** Grade table and thresholds *)

(** C8: the letter grade is A from 90, B on [80,90), C on [70,80), D on
    [60,70) and F below 60; the pass thresholds are lesson_check 80,
    module_exam 75, term_exam 70, cumulative_review 70; and a graded
    attempt is passed exactly when its score reaches the threshold of its
    tier. *)
Theorem grade_letters_and_thresholds :
  (forall score : Q,
     (calculateGrade score = grade_A <-> (90 <= score)%Q) /\
     (calculateGrade score = grade_B <-> (80 <= score)%Q /\ (score < 90)%Q) /\
     (calculateGrade score = grade_C <-> (70 <= score)%Q /\ (score < 80)%Q) /\
     (calculateGrade score = grade_D <-> (60 <= score)%Q /\ (score < 70)%Q) /\
     (calculateGrade score = grade_F <-> (score < 60)%Q)) /\
  (getPassThreshold lesson_check = 80%Q /\
   getPassThreshold module_exam = 75%Q /\
   getPassThreshold term_exam = 70%Q /\
   getPassThreshold cumulative_review = 70%Q) /\
  (forall now sub ty (qs : list Question) ca aa prev,
     exists r,
       evaluateAssessment now sub ty qs ca aa prev = Some r /\
       (ar_passed r = true <-> (getPassThreshold ty <= ar_score r)%Q) /\
       ar_grade r = calculateGrade (ar_score r)) /\
  (forall sub (qs : list Question) ca aa,
     let r := evaluateQuiz sub qs ca aa in
     qr_passed r = true <-> (getPassThreshold lesson_check <= qr_score r)%Q).
Proof.
  split; [exact calculateGrade_partition |].
  split; [repeat split |].
  split.
  - intros now sub ty qs ca aa prev. unfold evaluateAssessment.
    destruct (checkRetryEligibility_total now ty prev) as [retry ->].
    destruct (fold_left (assessment_step sub ca aa) qs (0, [], []))
      as [[c fb] ic].
    eexists. split; [reflexivity |].
    cbn [ar_passed ar_score ar_grade].
    split; [apply Qle_bool_iff | reflexivity].
  - intros sub qs ca aa r. subst r. unfold evaluateQuiz.
    cbn [qr_passed qr_score]. apply Qle_bool_iff.
Qed.

(** ** Questions without a correct answer *)

Lemma quiz_loop_skip sub ca aa (qs1 qs2 : list Question) (q : Question) st :
  ca !! question_id q = None ->
  fold_left (quiz_step sub ca aa) (qs1 ++ q :: qs2) st =
  fold_left (quiz_step sub ca aa) (qs1 ++ qs2) st.
Proof.
  intros Hq. rewrite !fold_left_app. cbn [fold_left].
  unfold quiz_step at 2. rewrite Hq. reflexivity.
Qed.

Lemma assessment_loop_skip sub ca aa (qs1 qs2 : list Question) (q : Question) st :
  ca !! question_id q = None ->
  fold_left (assessment_step sub ca aa) (qs1 ++ q :: qs2) st =
  fold_left (assessment_step sub ca aa) (qs1 ++ qs2) st.
Proof.
  intros Hq. rewrite !fold_left_app. cbn [fold_left].
  unfold assessment_step at 2. rewrite Hq. reflexivity.
Qed.

(** Every feedback entry answers a question that has a correct answer. *)
Lemma quiz_loop_feedback_known sub ca aa (qs : list Question) :
  forall st : Z * list QuestionFeedback,
    Forall (fun f => is_Some (ca !! fb_question_id f)) (snd st) ->
    Forall (fun f => is_Some (ca !! fb_question_id f))
           (snd (fold_left (quiz_step sub ca aa) qs st)).
Proof.
  induction qs as [| q qs IH]; intros st Hst; [exact Hst |].
  cbn [fold_left]. apply IH.
  unfold quiz_step. destruct (ca !! question_id q) as [correct |] eqn:Hq;
    [| exact Hst].
  cbn [snd]. apply Forall_app. split; [exact Hst |].
  constructor; [| constructor]. cbn [fb_question_id]. rewrite Hq. eauto.
Qed.

Lemma feedback_skips_unknown (ca : gmap string Answer) (q : Question)
    (fb : list QuestionFeedback) :
  ca !! question_id q = None ->
  Forall (fun f => is_Some (ca !! fb_question_id f)) fb ->
  Forall (fun f => fb_question_id f <> question_id q) fb.
Proof.
  intros Hq Hfb. eapply Forall_impl; [exact Hfb |].
  intros f [a Ha] Heq. cbn beta in *. rewrite Heq in Ha. congruence.
Qed.

Lemma length_with_skipped (qs1 qs2 : list Question) (q : Question) :
  Z.of_nat (length (qs1 ++ q :: qs2)) = Z.of_nat (length (qs1 ++ qs2)) + 1.
Proof. rewrite !length_app. cbn [length]. lia. Qed.

(** C2 (amended): a question that has no entry in the correct-answer
    lookup adds nothing to the correct count and produces no feedback
    entry, and the rest of the submission is graded as it is without that
    question; the question is still one of [total_questions], the length
    of the question list, which is the denominator of the score. *)
Theorem unknown_question_skipped_but_counted now ty
    (prev : list AssessmentAttempt) sub (ca aa : gmap string Answer)
    (qs1 : list Question) (q : Question) (qs2 : list Question) :
  ca !! question_id q = None ->
  skipped_but_counted now ty prev sub ca aa qs1 q qs2.
Proof.
  intros Hq. split.
  - unfold evaluateQuiz.
    cbn [qr_correct_count qr_feedback qr_total_questions qr_score].
    rewrite (quiz_loop_skip sub ca aa qs1 qs2 q _ Hq), length_with_skipped.
    repeat split.
    apply (feedback_skips_unknown ca); [exact Hq |].
    apply quiz_loop_feedback_known. constructor.
  - unfold evaluateAssessment.
    destruct (checkRetryEligibility_total now ty prev) as [retry ->].
    rewrite (assessment_loop_skip sub ca aa qs1 qs2 q _ Hq), length_with_skipped.
    pose proof (assessment_loop_quiz_loop sub ca aa (qs1 ++ qs2) (0, [], []))
      as Hloop.
    pose proof (quiz_loop_feedback_known sub ca aa (qs1 ++ qs2) (0, [])
                  (List.Forall_nil _)) as Hknown.
    cbn [fst] in Hloop. rewrite <- Hloop in Hknown.
    destruct (fold_left (assessment_step sub ca aa) (qs1 ++ qs2) (0, [], []))
      as [[c fb] ic].
    do 2 eexists. split; [reflexivity |]. split; [reflexivity |].
    cbn [ar_correct_count ar_feedback ar_weak_concepts ar_total_questions
         ar_score].
    repeat split.
    apply (feedback_skips_unknown ca); [exact Hq | exact Hknown].
Qed.

Lemma unknown_question_skipped_but_counted_witness :
  let q1 := mkQuestion "q1" None in
  let q2 := mkQuestion "q2" None in
  let ca : gmap string Answer := {[ "q1" := mkAnswer "a1" "q1" true None ]} in
  let sub := mkSubmission "quiz" [mkSubmittedAnswer "q1" "a1"] in
  ca !! question_id q2 = None /\
  skipped_but_counted 0 module_exam [] sub ca ca [q1] q2 [].
Proof.
  cbv zeta. split; [reflexivity |].
  apply unknown_question_skipped_but_counted. reflexivity.
Defined.

(** C2 as stated fails: with one known question answered correctly and one
    question absent from the lookup, the total is 2 and the score 50, not
    the total 1 and the score 100 of the same quiz without the unknown
    question. *)
Lemma unknown_question_counts_in_total :
  let q1 := mkQuestion "q1" None in
  let q2 := mkQuestion "q2" None in
  let ca : gmap string Answer := {[ "q1" := mkAnswer "a1" "q1" true None ]} in
  let sub := mkSubmission "quiz" [mkSubmittedAnswer "q1" "a1"] in
  ca !! question_id q2 = None /\
  qr_total_questions (evaluateQuiz sub [q1; q2] ca ca) = 2 /\
  (qr_score (evaluateQuiz sub [q1; q2] ca ca) == 50)%Q /\
  (qr_score (evaluateQuiz sub [q1] ca ca) == 100)%Q /\
  ~ skipped_from_scoring sub ca ca [q1] q2 [].
Proof.
  cbv zeta. split; [reflexivity |]. split; [reflexivity |].
  split; [reflexivity |]. split; [reflexivity |].
  intros (_ & Htotal & _). vm_compute in Htotal. discriminate.
Qed.

(** ** Retry eligibility *)

Lemma fold_right_min_init (l : list Z) (x y : Z) :
  fold_right Z.min (Z.min x y) l = Z.min y (fold_right Z.min x l).
Proof. induction l as [| a l IH]; cbn [fold_right]; [| rewrite IH]; lia. Qed.

Lemma fold_right_max_init (l : list Z) (x y : Z) :
  fold_right Z.max (Z.max x y) l = Z.max y (fold_right Z.max x l).
Proof. induction l as [| a l IH]; cbn [fold_right]; [| rewrite IH]; lia. Qed.

Lemma reduce_oldest (l : list AssessmentAttempt) : forall init,
  getTime (reduce (fun oldest a =>
                     if getTime a <? getTime oldest then a else oldest) l init) =
  fold_right Z.min (getTime init) (map getTime l).
Proof.
  unfold reduce.
  induction l as [| a l IH]; intros init; [reflexivity |].
  cbn [fold_left map fold_right]. rewrite IH.
  rewrite <- fold_right_min_init. f_equal.
  destruct (getTime a <? getTime init) eqn:E;
    [apply Z.ltb_lt in E | apply Z.ltb_ge in E]; lia.
Qed.

Lemma reduce_latest (l : list AssessmentAttempt) : forall init,
  getTime (reduce (fun latest a =>
                     if getTime latest <? getTime a then a else latest) l init) =
  fold_right Z.max (getTime init) (map getTime l).
Proof.
  unfold reduce.
  induction l as [| a l IH]; intros init; [reflexivity |].
  cbn [fold_left map fold_right]. rewrite IH.
  rewrite <- fold_right_max_init. f_equal.
  destruct (getTime init <? getTime a) eqn:E;
    [apply Z.ltb_lt in E | apply Z.ltb_ge in E]; lia.
Qed.

Lemma filter_getTime (P : Z -> Prop) `{!forall t, Decision (P t)}
    (l : list AssessmentAttempt) :
  map getTime (filter (fun a => P (getTime a)) l) = filter P (map getTime l).
Proof.
  induction l as [| a l IH]; [reflexivity |].
  cbn [map]. rewrite !filter_cons.
  destruct (decide (P (getTime a))); cbn [map]; rewrite IH; reflexivity.
Qed.

Lemma earliest_spec (stamps : list Z) :
  stamps <> [] ->
  earliest stamps ∈ stamps /\ Forall (fun t => earliest stamps <= t) stamps.
Proof.
  unfold earliest. destruct stamps as [| t0 rest]; [congruence | intros _].
  cbn [hd fold_right].
  assert (H : forall (l : list Z) (x : Z),
             (fold_right Z.min x l = x \/ fold_right Z.min x l ∈ l) /\
             fold_right Z.min x l <= x /\
             Forall (fun t => fold_right Z.min x l <= t) l).
  { induction l as [| a l IH]; intros x; cbn [fold_right].
    - split; [left; reflexivity | split; [lia | constructor]].
    - destruct (IH x) as (Hin & Hle & Hall). split; [| split].
      + destruct (Z.min_spec a (fold_right Z.min x l)) as [[_ ->] | [_ ->]].
        * right. left.
        * destruct Hin as [-> | Hin]; [left; reflexivity | right; right; exact Hin].
      + lia.
      + constructor; [lia |].
        eapply Forall_impl; [exact Hall |]. cbn. intros; lia. }
  destruct (H rest t0) as (Hin & Hle & Hall).
  split.
  - destruct (Z.min_spec t0 (fold_right Z.min t0 rest)) as [[_ ->] | [_ ->]].
    + left.
    + destruct Hin as [-> | Hin]; [left | right; exact Hin].
  - constructor; [lia |].
    eapply Forall_impl; [exact Hall |]. cbn. intros; lia.
Qed.

Lemma latest_spec (stamps : list Z) :
  stamps <> [] ->
  latest stamps ∈ stamps /\ Forall (fun t => t <= latest stamps) stamps.
Proof.
  unfold latest. destruct stamps as [| t0 rest]; [congruence | intros _].
  cbn [hd fold_right].
  assert (H : forall (l : list Z) (x : Z),
             (fold_right Z.max x l = x \/ fold_right Z.max x l ∈ l) /\
             x <= fold_right Z.max x l /\
             Forall (fun t => t <= fold_right Z.max x l) l).
  { induction l as [| a l IH]; intros x; cbn [fold_right].
    - split; [left; reflexivity | split; [lia | constructor]].
    - destruct (IH x) as (Hin & Hle & Hall). split; [| split].
      + destruct (Z.max_spec a (fold_right Z.max x l)) as [[_ ->] | [_ ->]].
        * destruct Hin as [-> | Hin]; [left; reflexivity | right; right; exact Hin].
        * right. left.
      + lia.
      + constructor; [lia |].
        eapply Forall_impl; [exact Hall |]. cbn. intros; lia. }
  destruct (H rest t0) as (Hin & Hle & Hall).
  split.
  - destruct (Z.max_spec t0 (fold_right Z.max t0 rest)) as [[_ ->] | [_ ->]].
    + destruct Hin as [-> | Hin]; [left | right; exact Hin].
    + left.
  - constructor; [lia |].
    eapply Forall_impl; [exact Hall |]. cbn. intros; lia.
Qed.


(** Three module-exam attempts within the last 7 days: no retry until the
    oldest of them is 7 days old. *)
Example retry_module_exam_three_recent :
  let now := days 30 in
  checkRetryEligibility now module_exam
    [mkAttempt "a2" "u" "m1" 60 false 2 (now - days 2);
     mkAttempt "a1" "u" "m1" 50 false 1 (now - days 3);
     mkAttempt "a3" "u" "m1" 70 false 3 (now - days 1)]
  = Some (mkRetry false (Some (now - days 3 + days 7))).
Proof. reflexivity. Qed.

(** One term-exam attempt 10 hours ago: the 48-hour cooldown still runs. *)
Example retry_term_exam_cooldown :
  let now := days 30 in
  checkRetryEligibility now term_exam
    [mkAttempt "a1" "u" "t1" 50 false 1 (now - hours 10)]
  = Some (mkRetry false (Some (now - hours 10 + hours 48))).
Proof. reflexivity. Qed.

(** ** The weak-concept ledger *)

Lemma NoDup_map_eq {A B} (f : A -> B) (l : list A) (x y : A) :
  NoDup (map f l) -> x ∈ l -> y ∈ l -> f x = f y -> x = y.
Proof.
  induction l as [| a l IH]; intros Hnd Hx Hy Hxy.
  - inversion Hx.
  - cbn [map] in Hnd. apply NoDup_cons in Hnd as [Hna Hnd].
    apply elem_of_cons in Hx as [-> | Hx];
      apply elem_of_cons in Hy as [-> | Hy]; auto.
    + exfalso. apply Hna. rewrite Hxy. apply list_elem_of_fmap_2. exact Hy.
    + exfalso. apply Hna. rewrite <- Hxy. apply list_elem_of_fmap_2. exact Hx.
Qed.

Lemma filter_key_cases (rows : list WeakArea) (u t : string) :
  NoDup (map row_key rows) ->
  filter (fun row => wa_user_id row = u /\ wa_concept_tag row = t) rows = [] \/
  exists r, filter (fun row => wa_user_id row = u /\ wa_concept_tag row = t)
                   rows = [r].
Proof.
  induction rows as [| a rows IH]; intros Hnd; [left; reflexivity |].
  cbn [map] in Hnd. apply NoDup_cons in Hnd as [Hna Hnd].
  rewrite filter_cons. destruct (decide _) as [[Hu Ht] | Hno]; [| auto].
  right. exists a. f_equal.
  destruct (filter _ rows) as [| b rest] eqn:Hf; [reflexivity |].
  exfalso. apply Hna.
  assert (Hb : b ∈ filter (fun row => wa_user_id row = u /\
                                      wa_concept_tag row = t) rows)
    by (rewrite Hf; left).
  apply list_elem_of_filter in Hb as [[Hbu Hbt] Hb].
  replace (row_key a) with (row_key b)
    by (unfold row_key; congruence).
  apply list_elem_of_fmap_2. exact Hb.
Qed.

Lemma single_filter_key (rows : list WeakArea) (u t : string) :
  NoDup (map row_key rows) ->
  single (filter (fun row => wa_user_id row = u /\ wa_concept_tag row = t) rows)
  = ledger_row rows u t.
Proof.
  intros Hnd. unfold ledger_row.
  destruct (filter_key_cases rows u t Hnd) as [-> | [r ->]]; reflexivity.
Qed.

Lemma ledger_row_Some (rows : list WeakArea) (u t : string) (r : WeakArea) :
  ledger_row rows u t = Some r ->
  r ∈ rows /\ wa_user_id r = u /\ wa_concept_tag r = t.
Proof.
  unfold ledger_row. intros H.
  assert (Hr : r ∈ filter (fun row => wa_user_id row = u /\
                                      wa_concept_tag row = t) rows).
  { destruct (filter _ rows) as [| a l]; [discriminate |].
    cbn in H. injection H as ->. left. }
  apply list_elem_of_filter in Hr as [[? ?] ?]. auto.
Qed.

Lemma ledger_row_None (rows : list WeakArea) (u t : string) :
  ledger_row rows u t = None ->
  forall r, r ∈ rows -> ~ (wa_user_id r = u /\ wa_concept_tag r = t).
Proof.
  unfold ledger_row. intros H r Hr Hk.
  assert (Hin : r ∈ filter (fun row => wa_user_id row = u /\
                                       wa_concept_tag row = t) rows)
    by (apply list_elem_of_filter; auto).
  destruct (filter _ rows); [inversion Hin | discriminate].
Qed.

Lemma ledger_row_member (rows : list WeakArea) (r : WeakArea) :
  NoDup (map row_key rows) -> r ∈ rows ->
  ledger_row rows (wa_user_id r) (wa_concept_tag r) = Some r.
Proof.
  intros Hnd Hr.
  destruct (ledger_row rows (wa_user_id r) (wa_concept_tag r)) as [r' |] eqn:E.
  - apply ledger_row_Some in E as (Hr' & Hu & Ht). f_equal.
    apply (NoDup_map_eq row_key rows); auto. unfold row_key. congruence.
  - exfalso. apply (ledger_row_None _ _ _ E r Hr). auto.
Qed.

Lemma filter_key_map (f : WeakArea -> WeakArea) (rows : list WeakArea)
    (u t : string) :
  (forall row, row_key (f row) = row_key row) ->
  filter (fun row => wa_user_id row = u /\ wa_concept_tag row = t) (map f rows)
  = map f (filter (fun row => wa_user_id row = u /\ wa_concept_tag row = t)
                  rows).
Proof.
  intros Hf. induction rows as [| a rows IH]; [reflexivity |].
  cbn [map]. rewrite !filter_cons.
  pose proof (Hf a) as Ha. unfold row_key in Ha. injection Ha as Hu Ht.
  rewrite Hu, Ht.
  destruct (decide _); cbn [map]; rewrite IH; reflexivity.
Qed.

Lemma touch_existing now userId misses tag rows existing :
  ledger_ok rows ->
  ledger_row rows userId tag = Some existing ->
  touch_effect now userId misses tag rows
    (update_by_id (wa_id existing)
                  (wa_error_count existing + misses_of tag misses) now rows).
Proof.
  intros [Hids Hkeys] Hex.
  destruct (ledger_row_Some _ _ _ _ Hex) as (Hin & Hu & Ht).
  unfold update_by_id.
  set (f := fun row : WeakArea =>
              if (wa_id row =? wa_id existing)%string then _ else row).
  assert (Hfkey : forall row, row_key (f row) = row_key row).
  { intros row. unfold f. destruct (_ =? _)%string; reflexivity. }
  assert (Hfid : forall row, wa_id (f row) = wa_id row).
  { intros row. unfold f. destruct (_ =? _)%string; reflexivity. }
  assert (Hlook : forall u t,
            ledger_row (map f rows) u t = option_map f (ledger_row rows u t)).
  { intros u t. unfold ledger_row. rewrite filter_key_map by exact Hfkey.
    destruct (filter _ rows); reflexivity. }
  split.
  - split.
    + rewrite map_map. erewrite map_ext; [exact Hids | exact Hfid].
    + rewrite map_map. erewrite map_ext; [exact Hkeys | exact Hfkey].
  - intros u t. rewrite Hlook.
    destruct (decide (u = userId /\ t = tag)) as [[-> ->] | Hne].
    + rewrite Hex. cbn [option_map]. eexists. split; [reflexivity |].
      unfold f. rewrite String.eqb_refl.
      unfold row_touched. cbn. repeat split; auto.
    + destruct (ledger_row rows u t) as [r |] eqn:Hr; [| reflexivity].
      cbn [option_map]. f_equal.
      destruct (ledger_row_Some _ _ _ _ Hr) as (Hrin & Hru & Hrt).
      unfold f. destruct (wa_id r =? wa_id existing)%string eqn:E;
        [| reflexivity].
      exfalso. apply String.eqb_eq in E.
      assert (r = existing) by (apply (NoDup_map_eq wa_id rows); auto).
      subst r. apply Hne. split; congruence.
Qed.

Lemma touch_missing now userId misses tag rows :
  ledger_ok rows ->
  ledger_row rows userId tag = None ->
  touch_effect now userId misses tag rows
    (insert_row userId tag (misses_of tag misses) now rows).
Proof.
  intros [Hids Hkeys] Hnone.
  pose proof (ledger_row_None _ _ _ Hnone) as Hno.
  unfold insert_row.
  rewrite decide_False.
  2: { intros Hex. apply Exists_exists in Hex as (r & Hr & Hk).
       exact (Hno r Hr Hk). }
  set (new := mkWeakArea _ userId tag _ now now).
  assert (Hlook : forall u t,
            ledger_row (rows ++ [new]) u t =
            match ledger_row rows u t with
            | Some r => Some r
            | None => if decide (u = userId /\ t = tag) then Some new else None
            end).
  { intros u t. unfold ledger_row. rewrite filter_app.
    destruct (filter _ rows) as [| a l]; [| reflexivity].
    cbn [app]. rewrite filter_cons, filter_nil. cbn [wa_user_id wa_concept_tag new].
    destruct (decide (userId = u /\ tag = t)) as [[-> ->] | Hne].
    - rewrite decide_True by auto. reflexivity.
    - rewrite decide_False; [reflexivity |]. intros [-> ->]. auto. }
  split.
  - split.
    + rewrite map_app. cbn [map]. apply NoDup_app. split; [exact Hids |].
      split; [| apply NoDup_singleton].
      intros x Hx Hx'. apply list_elem_of_singleton in Hx'. subst x.
      cbn [wa_id new] in Hx. unfold uuid_generate_v4 in Hx.
      exact (infinite_is_fresh _ Hx).
    + rewrite map_app. cbn [map]. apply NoDup_app. split; [exact Hkeys |].
      split; [| apply NoDup_singleton].
      intros x Hx Hx'. apply list_elem_of_singleton in Hx'. subst x.
      apply list_elem_of_fmap in Hx as (r & Hk & Hr).
      unfold row_key in Hk. cbn in Hk. injection Hk as Hu Ht.
      apply (Hno r Hr). auto.
  - intros u t. rewrite Hlook.
    destruct (decide (u = userId /\ t = tag)) as [[-> ->] | Hne].
    + rewrite Hnone. eexists. split; [reflexivity |].
      unfold row_touched. cbn. repeat split; auto.
    + destruct (ledger_row rows u t); reflexivity.
Qed.

Lemma touch_spec now userId misses tag rows :
  ledger_ok rows ->
  touch_effect now userId misses tag rows (touch now userId misses rows tag).
Proof.
  intros Hok. unfold touch.
  rewrite single_filter_key by apply Hok.
  fold (misses_of tag misses).
  destruct (ledger_row rows userId tag) as [existing |] eqn:E.
  - apply touch_existing; assumption.
  - apply touch_missing; assumption.
Qed.

Lemma elem_of_Set_of {A} `{EqDecision A} (l : list A) (x : A) :
  x ∈ Set_of l <-> x ∈ l.
Proof.
  induction l as [| a l IH]; [reflexivity |].
  cbn [Set_of]. rewrite !elem_of_cons, list_elem_of_filter, IH.
  destruct (decide (x = a)); tauto.
Qed.

Lemma NoDup_Set_of {A} `{EqDecision A} (l : list A) : NoDup (Set_of l).
Proof.
  induction l as [| a l IH]; [constructor |].
  cbn [Set_of]. apply NoDup_cons. split.
  - intros Ha. apply list_elem_of_filter in Ha as [Hne _]. congruence.
  - apply NoDup_filter. exact IH.
Qed.

Lemma misses_of_pos (t : string) (misses : list IncorrectConcept) :
  0 < misses_of t misses <-> t ∈ map ic_concept_tag misses.
Proof.
  unfold misses_of. induction misses as [| c misses IH].
  - cbn. split; [lia | intros H; inversion H].
  - rewrite filter_cons. cbn [map]. rewrite elem_of_cons.
    destruct (decide (ic_concept_tag c = t)) as [<- | Hne].
    + cbn [length]. split; [auto | lia].
    + rewrite IH. split; [auto |]. intros [-> | H]; [congruence | exact H].
Qed.

Lemma touch_loop now userId misses (tags : list string) :
  NoDup tags ->
  forall rows, ledger_ok rows ->
    let rows' := fold_left (touch now userId misses) tags rows in
    ledger_ok rows' /\
    forall u t,
      if decide (u = userId /\ t ∈ tags) then
        exists after,
          ledger_row rows' u t = Some after /\
          row_touched now userId t (misses_of t misses)
                      (ledger_row rows u t) after
      else ledger_row rows' u t = ledger_row rows u t.
Proof.
  induction tags as [| tag tags IH]; intros Hnd rows Hok.
  - cbn [fold_left]. split; [exact Hok |]. intros u t.
    rewrite decide_False; [reflexivity |]. intros [_ H]. inversion H.
  - apply NoDup_cons in Hnd as [Hfresh Hnd]. cbn [fold_left].
    destruct (touch_spec now userId misses tag rows Hok) as [Hok1 Hone].
    destruct (IH Hnd _ Hok1) as [Hok' Hrest]. cbv zeta.
    split; [exact Hok' |]. intros u t.
    specialize (Hone u t). specialize (Hrest u t).
    destruct (decide (u = userId /\ t ∈ tag :: tags)) as [[-> Hin] | Hout].
    + apply elem_of_cons in Hin as [-> | Hin].
      * rewrite decide_True in Hone by auto.
        rewrite decide_False in Hrest by (intros [_ ?]; auto).
        destruct Hone as (after & Hafter & Htouched).
        exists after. split; [congruence | exact Htouched].
      * assert (t <> tag) by congruence.
        rewrite decide_False in Hone by (intros [_ ?]; auto).
        rewrite decide_True in Hrest by auto.
        rewrite Hone in Hrest. exact Hrest.
    + rewrite decide_False in Hone.
      2: { intros [-> ->]. apply Hout. split; [reflexivity | left]. }
      rewrite decide_False in Hrest.
      2: { intros [-> ?]. apply Hout. split; [reflexivity | right; auto]. }
      congruence.
Qed.

(** C7: under the constraints of the ledger table, one call of
    [updateWeakAreas] with the misses of one attempt touches each distinct
    missed tag once, with the number of misses of that tag: the existing
    row of (user, tag) gains that amount and has [last_tested_at]
    refreshed, a tag without a row gets a new row holding that amount, and
    no row's count decreases. *)
Theorem updateWeakAreas_increments now (db : Database) (userId : string)
    (misses : list IncorrectConcept) :
  ledger_ok (weak_areas db) ->
  ledger_updated now userId misses db (updateWeakAreas now db userId misses).
Proof.
  intros Hok.
  assert (Htags : NoDup (Set_of (map ic_concept_tag misses)) /\
                  forall t, t ∈ Set_of (map ic_concept_tag misses) <->
                            0 < misses_of t misses).
  { split; [apply NoDup_Set_of |].
    intros t. rewrite elem_of_Set_of, misses_of_pos. reflexivity. }
  assert (Hrows :
    ledger_ok (weak_areas (updateWeakAreas now db userId misses)) /\
    forall u t,
      if decide (u = userId /\ 0 < misses_of t misses) then
        exists after,
          ledger_row (weak_areas (updateWeakAreas now db userId misses)) u t
            = Some after /\
          row_touched now userId t (misses_of t misses)
                      (ledger_row (weak_areas db) u t) after
      else ledger_row (weak_areas (updateWeakAreas now db userId misses)) u t
           = ledger_row (weak_areas db) u t).
  { unfold updateWeakAreas.
    destruct (length misses =? 0)%nat eqn:Hlen.
    - apply Nat.eqb_eq in Hlen. destruct misses; [| discriminate].
      split; [exact Hok |]. intros u t.
      rewrite decide_False; [reflexivity |]. intros [_ H].
      apply misses_of_pos in H. inversion H.
    - cbn [weak_areas set_weak_areas].
      destruct (touch_loop now userId misses _ (proj1 Htags) _ Hok)
        as [Hok' Heff].
      split; [exact Hok' |]. intros u t. specialize (Heff u t).
      destruct (decide (u = userId /\ 0 < misses_of t misses)) as [[-> Hp] | Hn].
      + rewrite decide_True in Heff; [exact Heff |].
        split; [reflexivity | apply Htags; exact Hp].
      + rewrite decide_False in Heff; [exact Heff |].
        intros [-> Hin]. apply Hn. split; [reflexivity | apply Htags; exact Hin]. }
  destruct Hrows as [Hok' Heff].
  split; [exact Hok' |]. split; [exact Heff |]. split; [| split; [exact Htags |]].
  - intros row Hrow.
    pose proof (ledger_row_member _ _ (proj2 Hok) Hrow) as Hlook.
    specialize (Heff (wa_user_id row) (wa_concept_tag row)).
    destruct (decide _) as [[Hu Hp] | Hn].
    + destruct Heff as (after & Hafter & Htouched). rewrite Hlook in Htouched.
      destruct Htouched as (Hau & Hat & _ & Hid & _ & Hec).
      destruct (ledger_row_Some _ _ _ _ Hafter) as (Hin & _ & _).
      exists after. repeat split; auto.
      * unfold row_key. congruence.
      * lia.
    + rewrite Hlook in Heff.
      destruct (ledger_row_Some _ _ _ _ Heff) as (Hin & _ & _).
      exists row. repeat split; auto. lia.
  - unfold updateWeakAreas. destruct (length misses =? 0)%nat; repeat split.
Qed.

Lemma updateWeakAreas_increments_witness :
  let db := mkDatabase [] [] [] [] []
              [mkWeakArea "w1" "u" "identification" 2 0 0] in
  let misses := [mkIncorrectConcept "identification" "q1";
                 mkIncorrectConcept "centers" "q2";
                 mkIncorrectConcept "identification" "q3"] in
  ledger_ok (weak_areas db) /\
  ledger_updated 5 "u" misses db (updateWeakAreas 5 db "u" misses).
Proof.
  cbv zeta.
  assert (H : ledger_ok [mkWeakArea "w1" "u" "identification" 2 0 0]).
  { split; cbn [map]; apply NoDup_singleton. }
  split; [exact H | apply updateWeakAreas_increments; exact H].
Defined.

(** A tag missed on two questions of one attempt gains 2 in one call. *)
Example ledger_two_misses_in_one_call :
  let db := mkDatabase [] [] [] [] []
              [mkWeakArea "w1" "u" "identification" 2 0 0] in
  let misses := [mkIncorrectConcept "identification" "q1";
                 mkIncorrectConcept "identification" "q3"] in
  option_map wa_error_count
    (ledger_row (weak_areas (updateWeakAreas 5 db "u" misses))
                "u" "identification") = Some 4.
Proof. reflexivity. Qed.

(** ** Required reviews *)

(** C9: the required-review list holds exactly the concept tags of the
    user's ledger rows with [error_count >= 3], and the review list of the
    dashboard shows those rows, marking a row as blocking progression
    exactly when its [error_count] is at least 5. *)
Theorem required_reviews_and_blocking :
  (forall (db : Database) (userId tag : string),
     tag ∈ getRequiredReviews db userId <->
     exists row, row ∈ weak_areas db /\ wa_user_id row = userId /\
                 wa_concept_tag row = tag /\ 3 <= wa_error_count row) /\
  (forall (weakAreas : list WeakArea) (tag : string) (blocking : bool),
     mkReviewItem tag blocking ∈ required_reviews_section weakAreas <->
     exists area, area ∈ weakAreas /\ wa_concept_tag area = tag /\
                  3 <= wa_error_count area /\
                  (blocking = true <-> 5 <= wa_error_count area)).
Proof.
  split.
  - intros db userId tag. unfold getRequiredReviews, REVIEW_THRESHOLD.
    rewrite list_elem_of_fmap. split.
    + intros (row & -> & Hrow).
      apply list_elem_of_filter in Hrow as [[Hu Hc] Hin]. eauto.
    + intros (row & Hin & Hu & Ht & Hc). exists row. split; [auto |].
      apply list_elem_of_filter. auto.
  - intros weakAreas tag blocking.
    unfold required_reviews_section, requiredReviews.
    rewrite list_elem_of_fmap. split.
    + intros (area & Heq & Harea). injection Heq as -> ->.
      apply list_elem_of_filter in Harea as [Hc Hin].
      exists area. repeat split; auto.
      * apply Z.leb_le.
      * apply Z.leb_le.
    + intros (area & Hin & Ht & Hc & Hb). exists area. split.
      * f_equal; [auto |].
        destruct blocking, (5 <=? wa_error_count area) eqn:E; auto.
        -- apply Z.leb_gt in E. pose proof (proj1 Hb eq_refl). lia.
        -- apply Z.leb_le in E. pose proof (proj2 Hb E). discriminate.
      * apply list_elem_of_filter. auto.
Qed.

(** Three attempts that each miss "identification" once: the count is 3
    after the third, and the tag is a required review. *)
Example ledger_three_attempts :
  let miss := [mkIncorrectConcept "identification" "q1"] in
  let db0 := mkDatabase [] [] [] [] [] [] in
  let db1 := updateWeakAreas 1 db0 "u" miss in
  let db2 := updateWeakAreas 2 db1 "u" miss in
  let db3 := updateWeakAreas 3 db2 "u" miss in
  getRequiredReviews db2 "u" = [] /\
  option_map wa_error_count (ledger_row (weak_areas db3) "u" "identification")
    = Some 3 /\
  getRequiredReviews db3 "u" = ["identification"].
Proof. cbv zeta. repeat split. Qed.


(** ** The term gate *)

Lemma string_app_cons (ch : Ascii.ascii) (a b : string) :
  String ch a +:+ b = String ch (a +:+ b).
Proof. reflexivity. Qed.

Lemma string_app_assoc (a b c : string) : (a +:+ b) +:+ c = a +:+ b +:+ c.
Proof.
  induction a as [| ch a IH]; [reflexivity |].
  rewrite !string_app_cons, IH. reflexivity.
Qed.

Lemma string_app_empty (a : string) : a +:+ "" = a.
Proof.
  induction a as [| ch a IH]; [reflexivity |].
  rewrite string_app_cons, IH. reflexivity.
Qed.

Lemma join_names (sep : string) (l : list string) (x : string) :
  x ∈ l -> names (join sep l) x.
Proof.
  unfold names, join. induction l as [| a l IH]; intros Hx; [inversion Hx |].
  apply elem_of_cons in Hx as [-> | Hx].
  - destruct l as [| b l].
    + exists "", "". cbn [String.concat].
      rewrite string_app_empty. reflexivity.
    + exists "", (sep +:+ String.concat sep (b :: l)). reflexivity.
  - destruct (IH Hx) as (before & after & Heq).
    destruct l as [| b l]; [inversion Hx |].
    exists (a +:+ sep +:+ before), after.
    change (String.concat sep (a :: b :: l))
      with (a +:+ sep +:+ String.concat sep (b :: l)).
    rewrite Heq, !string_app_assoc. reflexivity.
Qed.

Lemma single_Some {A} (rows : list A) (row : A) :
  single rows = Some row <-> rows = [row].
Proof.
  destruct rows as [| a [| b rows]]; cbn; split; intros H;
    try discriminate; congruence.
Qed.

Lemma passingAttempt_Some (db : Database) (user assessmentId : string) :
  is_Some (passingAttempt db user assessmentId) <->
  has_passing_attempt db user assessmentId.
Proof.
  unfold passingAttempt, has_passing_attempt, limit.
  destruct (filter _ (assessment_attempts db)) as [| a rest] eqn:Hf.
  - cbn. split; [intros [? ?]; discriminate |].
    intros (a & Hin & Hu & Ha & Hp). exfalso.
    assert (Ha' : a ∈ filter (fun a => attempt_user_id a = user /\
                    attempt_assessment_id a = assessmentId /\
                    attempt_passed a = true) (assessment_attempts db))
      by (apply list_elem_of_filter; auto).
    rewrite Hf in Ha'. inversion Ha'.
  - cbn. split; [intros _ | eauto].
    assert (Ha' : a ∈ filter (fun a => attempt_user_id a = user /\
                    attempt_assessment_id a = assessmentId /\
                    attempt_passed a = true) (assessment_attempts db))
      by (rewrite Hf; left).
    apply list_elem_of_filter in Ha' as [(? & ? & ?) ?]. exists a. auto.
Qed.

Lemma blocking_rows (db : Database) (userId : string) :
  filter (fun w => 3 <= wa_error_count w)
         (filter (fun w => wa_user_id w = userId) (weak_areas db))
  = offending_rows db userId.
Proof.
  unfold offending_rows.
  induction (weak_areas db) as [| a rows IH]; [reflexivity |].
  rewrite !filter_cons.
  destruct (decide (wa_user_id a = userId)) as [Hu | Hu].
  - rewrite filter_cons.
    destruct (decide (3 <= wa_error_count a)) as [Hc | Hc].
    + rewrite decide_True by auto. rewrite IH. reflexivity.
    + rewrite decide_False by tauto. exact IH.
  - rewrite decide_False by tauto. exact IH.
Qed.

(** C4: for a term of order above 1 whose previous term exists and has its
    exam requirement met (no term exam, or a passing attempt at it),
    [canAccessTerm] refuses whenever the user has a weak-area row with
    [error_count >= 3], with a reason naming every offending tag, and
    grants access when there is no such row. *)
Theorem canAccessTerm_weak_area_block (db : Database)
    (userId termId : string) (term prevTerm : Term) :
  filter (fun t => term_id t = termId) (terms db) = [term] ->
  1 < term_order term ->
  filter (fun t => term_order t = term_order term - 1) (terms db)
    = [prevTerm] ->
  exam_requirement_met db userId prevTerm ->
  weak_area_gate db userId (canAccessTerm db userId termId).
Proof.
  intros Hterm Horder Hprev Hexam. unfold canAccessTerm.
  rewrite Hterm. cbn [single].
  rewrite (proj2 (Z.eqb_neq _ _)) by lia.
  rewrite Hprev. cbn [single].
  assert (Hmet : match termExamOf db (term_id prevTerm) with
                 | Some termExam =>
                     match passingAttempt db userId (assessment_id termExam) with
                     | None => true
                     | Some _ => false
                     end
                 | None => false
                 end = false).
  { destruct (termExamOf db (term_id prevTerm)) as [exam |] eqn:E;
      [| reflexivity].
    destruct (proj2 (passingAttempt_Some db userId (assessment_id exam))
                    (Hexam exam E)) as [a ->]. reflexivity. }
  rewrite Hmet.
  rewrite blocking_rows.
  unfold weak_area_gate.
  destruct (offending_rows db userId) as [| b rest] eqn:Hb.
  - rewrite decide_True by reflexivity. reflexivity.
  - rewrite decide_False by discriminate.
    cbn [length Nat.ltb Nat.leb accessible reason deny].
    split; [reflexivity |]. eexists. split; [reflexivity |].
    intros row Hrow. unfold weak_area_message.
    destruct (join_names ", " (map wa_concept_tag (b :: rest))
                (wa_concept_tag row)) as (before & after & Heq).
    { apply list_elem_of_fmap_2. exact Hrow. }
    rewrite Heq.
    exists ("The following concepts require targeted review before progression: "
            +:+ before), (after +:+ ".").
    rewrite !string_app_assoc. reflexivity.
Qed.

Lemma canAccessTerm_weak_area_block_witness :
  filter (fun t => term_id t = "t2") (terms term_gate_db)
    = [mkTerm "t2" "y1" 2] /\
  1 < term_order (mkTerm "t2" "y1" 2) /\
  filter (fun t => term_order t = term_order (mkTerm "t2" "y1" 2) - 1)
         (terms term_gate_db) = [mkTerm "t1" "y1" 1] /\
  exam_requirement_met term_gate_db "u" (mkTerm "t1" "y1" 1) /\
  weak_area_gate term_gate_db "u" (canAccessTerm term_gate_db "u" "t2").
Proof.
  assert (Hexam : exam_requirement_met term_gate_db "u" (mkTerm "t1" "y1" 1)).
  { intros exam Hexam. vm_compute in Hexam. injection Hexam as <-.
    exists (mkAttempt "a1" "u" "e1" 90 true 1 1000).
    split; [left | repeat split]. }
  split; [reflexivity |]. split; [reflexivity |]. split; [reflexivity |].
  split; [exact Hexam |].
  apply (canAccessTerm_weak_area_block term_gate_db "u" "t2"
           (mkTerm "t2" "y1" 2) (mkTerm "t1" "y1" 1));
    [reflexivity | reflexivity | reflexivity | exact Hexam].
Defined.

(** A passed prerequisite exam does not lift the block on "centers". *)
Example canAccessTerm_names_centers :
  canAccessTerm term_gate_db "u" "t2" =
  deny "The following concepts require targeted review before progression: centers.".
Proof. reflexivity. Qed.

(** C4 as stated fails: the term of order 3 has no term of order 2 before
    it, so no exam requirement is unmet, the user has a weak area with
    seven errors, and the term is accessible all the same. *)
Lemma term_access_without_previous_term :
  canAccessTerm term_gap_db "u" "t3" = allow /\
  offending_rows term_gap_db "u"
    = [mkWeakArea "w1" "u" "centers" 7 1000 1000] /\
  ~ term_gate_as_stated term_gap_db "u" "t3" (mkTerm "t3" "y1" 3).
Proof.
  split; [reflexivity |]. split; [reflexivity |].
  intros H.
  assert (Hgate : weak_area_gate term_gap_db "u"
                    (canAccessTerm term_gap_db "u" "t3")).
  { apply H; [reflexivity | reflexivity |].
    intros prevTerm Hin Horder. exfalso.
    cbn [terms term_gap_db] in Hin.
    apply elem_of_cons in Hin as [-> | Hin]; [discriminate |].
    apply list_elem_of_singleton in Hin. subst prevTerm. discriminate. }
  unfold weak_area_gate in Hgate.
  rewrite decide_False in Hgate by discriminate.
  destruct Hgate as [Hacc _]. discriminate.
Qed.

(** ** The year gate *)

Lemma Qlt_bool_iff (a b : Q) : Qlt_bool a b = true <-> (a < b)%Q.
Proof.
  unfold Qlt_bool. rewrite negb_true_iff. apply Qle_bool_false_lt.
Qed.

Lemma Math_round_comp (x y : Q) : (x == y)%Q -> Math_round x = Math_round y.
Proof. intros H. unfold Math_round. rewrite H. reflexivity. Qed.

Lemma term_exams_loop_None (db : Database) (user : string) (ts : list Term) :
  term_exams_loop db user ts = None <->
  forall t exam, t ∈ ts -> termExamOf db (term_id t) = Some exam ->
                 has_passing_attempt db user (assessment_id exam).
Proof.
  induction ts as [| t ts IH]; cbn [term_exams_loop].
  - split; [intros _ t exam H; inversion H | reflexivity].
  - destruct (termExamOf db (term_id t)) as [exam |] eqn:E.
    + destruct (passingAttempt db user (assessment_id exam)) as [a |] eqn:Ea.
      * rewrite IH. split.
        -- intros H t' exam' Ht' Hex. apply elem_of_cons in Ht' as [-> | Ht'].
           ++ rewrite E in Hex. injection Hex as <-.
              apply passingAttempt_Some. rewrite Ea. eauto.
           ++ eapply H; eauto.
        -- intros H t' exam' Ht' Hex. eapply H; [right; exact Ht' | exact Hex].
      * split; [discriminate |]. intros H. exfalso.
        assert (Hp : has_passing_attempt db user (assessment_id exam))
          by (eapply H; [left | exact E]).
        apply passingAttempt_Some in Hp. rewrite Ea in Hp.
        destruct Hp; discriminate.
    + rewrite IH. split.
      * intros H t' exam' Ht' Hex. apply elem_of_cons in Ht' as [-> | Ht'].
        -- rewrite E in Hex. discriminate.
        -- eapply H; eauto.
      * intros H t' exam' Ht' Hex. eapply H; [right; exact Ht' | exact Hex].
Qed.

Lemma term_exams_loop_Some (db : Database) (user : string) (ts : list Term)
    (r : AccessResult) :
  term_exams_loop db user ts = Some r -> accessible r = false.
Proof.
  induction ts as [| t ts IH]; cbn [term_exams_loop]; [discriminate |].
  destruct (termExamOf db (term_id t)); [| exact IH].
  destruct (passingAttempt db user _); [exact IH |].
  intros H. injection H as <-. reflexivity.
Qed.

Lemma review_missed_false (db : Database) (user : string) (prevYear : Year) :
  match cumulativeReviewOf db (year_id prevYear) with
  | Some cumulativeReview =>
      match passingAttempt db user (assessment_id cumulativeReview) with
      | None => true
      | Some _ => false
      end
  | None => false
  end = false <-> cumulative_review_passed db user prevYear.
Proof.
  unfold cumulative_review_passed.
  destruct (cumulativeReviewOf db (year_id prevYear)) as [review |].
  - destruct (passingAttempt db user (assessment_id review)) as [a |] eqn:Ea.
    + split; [| reflexivity]. intros _ review' H. injection H as <-.
      apply passingAttempt_Some. rewrite Ea. eauto.
    + split; [discriminate |]. intros H. exfalso.
      assert (Hp : has_passing_attempt db user (assessment_id review))
        by (apply H; reflexivity).
      apply passingAttempt_Some in Hp. rewrite Ea in Hp.
      destruct Hp; discriminate.
  - split; [intros _ review H; discriminate | reflexivity].
Qed.

Lemma year_gpa_loop (entries : list TranscriptEntry) :
  Forall gpa_entry entries ->
  forall a b : Q,
    (fst (fold_left year_gpa_step entries (a, b)) ==
     a + Qsum (map (fun e => te_score e * gpa_weight (te_assessment_type e))%Q
                   entries))%Q /\
    (snd (fold_left year_gpa_step entries (a, b)) ==
     b + Qsum (map (fun e => gpa_weight (te_assessment_type e)) entries))%Q.
Proof.
  induction 1 as [| e es He Hes IH]; intros a b.
  - cbn [fold_left map fst snd]. change (Qsum []) with 0%Q. split; ring.
  - cbn [fold_left map]. rewrite !Qsum_cons.
    assert (Hstep : year_gpa_step (a, b) e =
                    ((a + te_score e * gpa_weight (te_assessment_type e))%Q,
                     (b + gpa_weight (te_assessment_type e))%Q)).
    { unfold year_gpa_step. destruct He as [-> | ->]; reflexivity. }
    rewrite Hstep.
    destruct (IH (a + te_score e * gpa_weight (te_assessment_type e))%Q
                 (b + gpa_weight (te_assessment_type e))%Q) as [H1 H2].
    rewrite H1, H2. split; ring.
Qed.

Lemma year_weight_nonneg (entries : list TranscriptEntry) :
  Forall gpa_entry entries ->
  (0 <= Qsum (map (fun e => gpa_weight (te_assessment_type e)) entries))%Q.
Proof.
  induction 1 as [| e es He Hes IH]; [cbn; lra |].
  cbn [map]. rewrite Qsum_cons.
  destruct He as [-> | ->]; cbn [gpa_weight]; lra.
Qed.

Lemma year_weight_positive (entries : list TranscriptEntry) :
  Forall gpa_entry entries -> entries <> [] ->
  (0 < Qsum (map (fun e => gpa_weight (te_assessment_type e)) entries))%Q.
Proof.
  intros Hall. destruct Hall as [| e es He Hes]; [congruence | intros _].
  cbn [map]. rewrite Qsum_cons.
  pose proof (year_weight_nonneg es Hes) as Hnn.
  destruct He as [-> | ->]; cbn [gpa_weight]; lra.
Qed.

Lemma year_transcript_query (db : Database) (user : string) (prevYear : Year) :
  filter (fun e => te_user_id e = user /\
                   te_year_id e = Some (year_id prevYear) /\
                   te_passed e = true /\
                   te_assessment_type e ∈ [module_exam; term_exam])
         (transcript_entries db)
  = year_transcript db user prevYear.
Proof.
  unfold year_transcript. apply list_filter_iff. intros e.
  rewrite !elem_of_cons, elem_of_nil. tauto.
Qed.

Lemma year_transcript_entries (db : Database) (user : string)
    (prevYear : Year) :
  Forall gpa_entry (year_transcript db user prevYear).
Proof.
  apply Forall_forall. intros e He.
  apply list_elem_of_filter in He as [(_ & _ & _ & H) _]. exact H.
Qed.

Lemma Qlt_bool_comp (x y c : Q) :
  (x == y)%Q -> Qlt_bool x c = Qlt_bool y c.
Proof.
  intros H. destruct (Qlt_bool y c) eqn:E.
  - apply Qlt_bool_iff. apply Qlt_bool_iff in E. rewrite H. exact E.
  - destruct (Qlt_bool x c) eqn:E'; [| reflexivity].
    apply Qlt_bool_iff in E'. rewrite H in E'. apply Qlt_bool_iff in E'.
    congruence.
Qed.

Lemma gpa_check_spec (db : Database) (user : string) (prevYear : Year) :
  match year_gpa (year_transcript db user prevYear) with
  | None => gpa_check db user (year_id prevYear) = allow
  | Some g =>
      gpa_check db user (year_id prevYear) =
      if Qlt_bool g 70 then deny (gpa_message g) else allow
  end.
Proof.
  unfold gpa_check. rewrite year_transcript_query.
  pose proof (year_transcript_entries db user prevYear) as Hall.
  destruct (year_transcript db user prevYear) as [| e es] eqn:Hes;
    [reflexivity |].
  cbn [year_gpa length Nat.ltb Nat.leb].
  destruct (year_gpa_loop (e :: es) Hall 0 0) as [Hs Hw].
  pose proof (year_weight_positive (e :: es) Hall ltac:(discriminate)) as Hpos.
  set (acc := fold_left year_gpa_step (e :: es) (0%Q, 0%Q)) in *.
  set (ws := Qsum (map (fun e => te_score e * gpa_weight (te_assessment_type e))%Q
                       (e :: es))) in *.
  set (tw := Qsum (map (fun e => gpa_weight (te_assessment_type e)) (e :: es)))
    in *.
  rewrite Qplus_0_l in Hs, Hw.
  assert (Htw : Qlt_bool 0 (snd acc) = true)
    by (apply Qlt_bool_iff; rewrite Hw; exact Hpos).
  rewrite Htw.
  assert (Hg : (fst acc / snd acc == ws / tw)%Q) by (rewrite Hs, Hw; reflexivity).
  rewrite (Qlt_bool_comp _ _ 70 Hg).
  destruct (Qlt_bool (ws / tw) 70); [| reflexivity].
  unfold gpa_message. rewrite (Math_round_comp _ _ Hg). reflexivity.
Qed.

(** What [canAccessYear] computes once the year, its predecessor and a
    term of the predecessor are found. *)
Lemma canAccessYear_unfold (db : Database) (userId yearId : string)
    (year prevYear : Year) :
  filter (fun y => year_id y = yearId) (years db) = [year] ->
  year_order year <> 1 ->
  filter (fun y => year_order y = year_order year - 1) (years db)
    = [prevYear] ->
  filter (fun t => term_year_id t = year_id prevYear) (terms db) <> [] ->
  canAccessYear db userId yearId =
  match term_exams_loop db userId
          (filter (fun t => term_year_id t = year_id prevYear) (terms db)) with
  | Some denied => denied
  | None =>
      if match cumulativeReviewOf db (year_id prevYear) with
         | Some cumulativeReview =>
             match passingAttempt db userId (assessment_id cumulativeReview) with
             | None => true
             | Some _ => false
             end
         | None => false
         end
      then deny cumulative_review_message
      else gpa_check db userId (year_id prevYear)
  end.
Proof.
  intros Hyear Horder Hprev Hterms. unfold canAccessYear.
  rewrite Hyear. cbn [single].
  rewrite (proj2 (Z.eqb_neq _ _) Horder).
  rewrite Hprev. cbn [single].
  destruct (filter _ (terms db)) as [| t ts]; [congruence | reflexivity].
Qed.

Lemma term_exams_passed_loop (db : Database) (user : string)
    (prevYear : Year) :
  term_exams_loop db user
    (filter (fun t => term_year_id t = year_id prevYear) (terms db)) = None
  <-> term_exams_passed db user prevYear.
Proof.
  rewrite term_exams_loop_None. unfold term_exams_passed. split.
  - intros H t exam Ht Hy. apply H. apply list_elem_of_filter. auto.
  - intros H t exam Ht Hex. apply list_elem_of_filter in Ht as [Hy Ht].
    exact (H t exam Ht Hy Hex).
Qed.

(** C10: with no passed module-exam or term-exam transcript entry for the
    previous year, [canAccessYear] asks for no GPA: once the term exams and
    the cumulative review of the previous year are passed, access is
    granted. *)
Theorem canAccessYear_without_gpa (db : Database) (userId yearId : string)
    (year prevYear : Year) :
  filter (fun y => year_id y = yearId) (years db) = [year] ->
  filter (fun y => year_order y = year_order year - 1) (years db)
    = [prevYear] ->
  term_exams_passed db userId prevYear ->
  cumulative_review_passed db userId prevYear ->
  year_transcript db userId prevYear = [] ->
  canAccessYear db userId yearId = allow.
Proof.
  intros Hyear Hprev Hexams Hrev Hnone.
  destruct (decide (year_order year = 1)) as [Hone | Horder].
  { unfold canAccessYear. rewrite Hyear. cbn [single].
    rewrite (proj2 (Z.eqb_eq _ _) Hone). reflexivity. }
  destruct (filter (fun t => term_year_id t = year_id prevYear) (terms db))
    as [| t ts] eqn:Hterms.
  { unfold canAccessYear. rewrite Hyear. cbn [single].
    rewrite (proj2 (Z.eqb_neq _ _) Horder), Hprev. cbn [single].
    rewrite Hterms. reflexivity. }
  rewrite (canAccessYear_unfold db userId yearId year prevYear Hyear Horder
             Hprev) by (rewrite Hterms; discriminate).
  rewrite (proj2 (term_exams_passed_loop db userId prevYear) Hexams).
  rewrite (proj2 (review_missed_false db userId prevYear) Hrev).
  pose proof (gpa_check_spec db userId prevYear) as Hgpa.
  rewrite Hnone in Hgpa. exact Hgpa.
Qed.

Lemma year_gate_db_exams (transcript : list TranscriptEntry) :
  term_exams_passed (year_gate_db transcript) "u" (mkYear "y1" 1) /\
  cumulative_review_passed (year_gate_db transcript) "u" (mkYear "y1" 1).
Proof.
  split.
  - intros t exam Ht Hy Hexam. cbn [terms year_gate_db] in Ht.
    apply elem_of_cons in Ht as [-> | Ht].
    + vm_compute in Hexam. injection Hexam as <-.
      exists (mkAttempt "a1" "u" "e1" 90 true 1 1000).
      split; [left | repeat split].
    + apply list_elem_of_singleton in Ht. subst t. discriminate.
  - intros review Hreview. vm_compute in Hreview. injection Hreview as <-.
    exists (mkAttempt "a2" "u" "r1" 85 true 1 2000).
    split; [right; left | repeat split].
Qed.

(** All exams and the review passed, a year GPA of 68: refused, citing the
    GPA. *)
Example canAccessYear_gpa_68 :
  canAccessYear (year_gate_db transcript_68) "u" "y2" =
  deny "Your GPA for the previous year (68) is below the required minimum of 70.".
Proof. reflexivity. Qed.

Lemma canAccessYear_without_gpa_witness :
  filter (fun y => year_id y = "y2") (years (year_gate_db []))
    = [mkYear "y2" 2] /\
  filter (fun y => year_order y = year_order (mkYear "y2" 2) - 1)
         (years (year_gate_db [])) = [mkYear "y1" 1] /\
  term_exams_passed (year_gate_db []) "u" (mkYear "y1" 1) /\
  cumulative_review_passed (year_gate_db []) "u" (mkYear "y1" 1) /\
  year_transcript (year_gate_db []) "u" (mkYear "y1" 1) = [] /\
  canAccessYear (year_gate_db []) "u" "y2" = allow.
Proof.
  split; [reflexivity |]. split; [reflexivity |].
  split; [exact (proj1 (year_gate_db_exams [])) |].
  split; [exact (proj2 (year_gate_db_exams [])) |]. split; [reflexivity |].
  apply (canAccessYear_without_gpa (year_gate_db []) "u" "y2"
           (mkYear "y2" 2) (mkYear "y1" 1));
    [reflexivity | reflexivity | exact (proj1 (year_gate_db_exams []))
    | exact (proj2 (year_gate_db_exams [])) | reflexivity].
Defined.

(** * Further properties *)

Import Behaviour.

(** ** Grading *)

Lemma quiz_step_entry sub ca aa (st : Z * list QuestionFeedback)
    (q : Question) :
  quiz_step sub ca aa st q =
  match feedback_entry sub ca aa q with
  | None => st
  | Some f => (if fb_correct f then fst st + 1 else fst st, snd st ++ [f])
  end.
Proof.
  unfold quiz_step, feedback_entry.
  destruct (ca !! question_id q); reflexivity.
Qed.

Lemma correct_entries_cons (f : QuestionFeedback) (fb : list QuestionFeedback) :
  correct_entries (f :: fb) =
  (if fb_correct f then 1 else 0) + correct_entries fb.
Proof.
  unfold correct_entries. rewrite filter_cons.
  destruct (fb_correct f).
  - rewrite decide_True by reflexivity. cbn [length]. lia.
  - rewrite decide_False by discriminate. lia.
Qed.

Lemma omap_cons {A B} (f : A -> option B) (a : A) (l : list A) :
  omap f (a :: l) =
  match f a with
  | Some b => b :: omap f l
  | None => omap f l
  end.
Proof. reflexivity. Qed.

Lemma quiz_loop_closed_form sub ca aa (qs : list Question) :
  forall st : Z * list QuestionFeedback,
    fold_left (quiz_step sub ca aa) qs st =
    (fst st + correct_entries (omap (feedback_entry sub ca aa) qs),
     snd st ++ omap (feedback_entry sub ca aa) qs).
Proof.
  induction qs as [| q qs IH]; intros [c fb].
  - cbn. rewrite Z.add_0_r, app_nil_r. reflexivity.
  - cbn [fold_left]. rewrite IH, quiz_step_entry, omap_cons.
    destruct (feedback_entry sub ca aa q) as [f |]; [| reflexivity].
    cbn [fst snd]. rewrite correct_entries_cons, <- app_assoc. cbn [app].
    f_equal. destruct (fb_correct f); lia.
Qed.

Lemma evaluateQuiz_closed_form sub (qs : list Question) ca aa :
  qr_feedback (evaluateQuiz sub qs ca aa) = omap (feedback_entry sub ca aa) qs /\
  qr_correct_count (evaluateQuiz sub qs ca aa)
    = correct_entries (omap (feedback_entry sub ca aa) qs) /\
  qr_total_questions (evaluateQuiz sub qs ca aa) = Z.of_nat (length qs).
Proof.
  unfold evaluateQuiz. cbn [qr_feedback qr_correct_count qr_total_questions].
  rewrite quiz_loop_closed_form. cbn [fst snd]. auto.
Qed.

Lemma omap_length_le {A B} (f : A -> option B) (l : list A) :
  (length (omap f l) <= length l)%nat.
Proof.
  induction l as [| a l IH]; [reflexivity |].
  rewrite omap_cons. destruct (f a); cbn [length]; lia.
Qed.

Lemma correct_entries_bounds (fb : list QuestionFeedback) :
  0 <= correct_entries fb <= Z.of_nat (length fb).
Proof.
  unfold correct_entries. pose proof (length_filter (fun f => fb_correct f = true) fb).
  lia.
Qed.

Lemma Math_round_mono (x y : Q) : (x <= y)%Q -> Math_round x <= Math_round y.
Proof.
  intros H. unfold Math_round. apply Qfloor_resp_le. lra.
Qed.

Lemma Math_round_inject (k : Z) : Math_round (inject_Z k) = k.
Proof.
  unfold Math_round.
  assert (H1 : k <= Qfloor (inject_Z k + (1 # 2))).
  { rewrite <- (Qfloor_Z k) at 1. apply Qfloor_resp_le. lra. }
  assert (H2 : Qfloor (inject_Z k + (1 # 2)) < k + 1).
  { pose proof (Qfloor_le (inject_Z k + (1 # 2))) as Hle.
    rewrite Zlt_Qlt, inject_Z_plus. change (inject_Z 1) with 1%Q.
    set (q := inject_Z k) in *.
    set (r := inject_Z (Qfloor (q + (1 # 2)))) in *. clearbody q r. lra. }
  lia.
Qed.

Lemma inject_Z_div_le (c c' n : Z) :
  0 < n -> c <= c' ->
  (inject_Z c / inject_Z n <= inject_Z c' / inject_Z n)%Q.
Proof.
  intros Hn Hc. unfold Qdiv. apply Qmult_le_compat_r.
  - rewrite <- Zle_Qle. exact Hc.
  - apply Qinv_le_0_compat. change 0%Q with (inject_Z 0). rewrite <- Zle_Qle. lia.
Qed.

Lemma percentage_hundredths (c n : Z) :
  0 < n ->
  percentage c n =
  (inject_Z (Math_round (inject_Z c / inject_Z n * 10000)) / 100)%Q.
Proof. intros Hn. unfold percentage. rewrite (proj2 (Z.ltb_lt _ _) Hn). reflexivity. Qed.

Lemma percentage_mono (c c' n : Z) :
  c <= c' -> (percentage c n <= percentage c' n)%Q.
Proof.
  intros Hc. destruct (Z_lt_le_dec 0 n) as [Hn | Hn].
  - rewrite !percentage_hundredths by exact Hn.
    unfold Qdiv. apply Qmult_le_compat_r; [| unfold Qle; cbn; lia].
    rewrite <- Zle_Qle. apply Math_round_mono.
    apply Qmult_le_compat_r; [| unfold Qle; cbn; lia].
    apply inject_Z_div_le; assumption.
  - unfold percentage. rewrite (proj2 (Z.ltb_ge _ _) Hn). lra.
Qed.

Lemma percentage_zero (n : Z) : (percentage 0 n == 0)%Q.
Proof.
  unfold percentage. destruct (0 <? n); [| reflexivity].
  assert (H : (inject_Z 0 / inject_Z n * 10000 == inject_Z 0)%Q).
  { unfold Qdiv. change (inject_Z 0) with 0%Q. ring. }
  rewrite (Math_round_comp _ _ H), Math_round_inject. reflexivity.
Qed.

Lemma percentage_full (n : Z) : 0 < n -> (percentage n n == 100)%Q.
Proof.
  intros Hn. rewrite percentage_hundredths by exact Hn.
  assert (H : (inject_Z n / inject_Z n * 10000 == inject_Z 10000)%Q).
  { change (inject_Z 10000) with 10000%Q. field.
    intros H. unfold Qeq in H. cbn in H. lia. }
  rewrite (Math_round_comp _ _ H), Math_round_inject. reflexivity.
Qed.

Lemma percentage_bounds (c n : Z) :
  0 <= c <= n -> (0 <= percentage c n)%Q /\ (percentage c n <= 100)%Q.
Proof.
  intros [H0 Hn]. split.
  - rewrite <- (percentage_zero n). apply percentage_mono. exact H0.
  - destruct (Z_lt_le_dec 0 n) as [Hpos | Hneg].
    + rewrite <- (percentage_full n Hpos). apply percentage_mono. exact Hn.
    + unfold percentage. rewrite (proj2 (Z.ltb_ge _ _) Hneg). lra.
Qed.

Lemma counts_in_bounds_closed sub ca aa (qs : list Question) :
  counts_in_bounds
    (percentage (correct_entries (omap (feedback_entry sub ca aa) qs))
                (Z.of_nat (length qs)))
    (Z.of_nat (length qs))
    (correct_entries (omap (feedback_entry sub ca aa) qs))
    (omap (feedback_entry sub ca aa) qs).
Proof.
  pose proof (correct_entries_bounds (omap (feedback_entry sub ca aa) qs)) as Hc.
  pose proof (omap_length_le (feedback_entry sub ca aa) qs) as Hl.
  unfold counts_in_bounds. split; [reflexivity |].
  split; [lia |]. split; [lia |]. split; [lia |].
  apply percentage_bounds. lia.
Qed.

Lemma assessment_step_entry sub ca aa
    (st : Z * list QuestionFeedback * list string) (q : Question) :
  snd (assessment_step sub ca aa st q) =
  match feedback_entry sub ca aa q with
  | None => snd st
  | Some f =>
      if fb_correct f then snd st
      else if truthy (fb_concept_tag f)
           then Set_add (snd st) (nullish (fb_concept_tag f) "")
           else snd st
  end.
Proof.
  unfold assessment_step, feedback_entry.
  destruct (ca !! question_id q); [| reflexivity].
  destruct st as [[c fb] ic]. cbn [snd fb_correct fb_concept_tag].
  reflexivity.
Qed.

Lemma missed_tags_cons (f : QuestionFeedback) (fb : list QuestionFeedback) :
  missed_tags (f :: fb) =
  if negb (fb_correct f) && truthy (fb_concept_tag f)
  then nullish (fb_concept_tag f) "" :: missed_tags fb
  else missed_tags fb.
Proof.
  unfold missed_tags, extractIncorrectConcepts. rewrite filter_cons.
  destruct (negb (fb_correct f) && truthy (fb_concept_tag f)) eqn:E.
  - rewrite decide_True by reflexivity. reflexivity.
  - rewrite decide_False by discriminate. reflexivity.
Qed.

Lemma assessment_loop_concepts sub ca aa (qs : list Question) :
  forall st : Z * list QuestionFeedback * list string,
    snd (fold_left (assessment_step sub ca aa) qs st) =
    fold_left Set_add (missed_tags (omap (feedback_entry sub ca aa) qs))
              (snd st).
Proof.
  induction qs as [| q qs IH]; intros st; [reflexivity |].
  cbn [fold_left]. rewrite IH, assessment_step_entry, omap_cons.
  destruct (feedback_entry sub ca aa q) as [f |]; [| reflexivity].
  rewrite missed_tags_cons.
  destruct (fb_correct f); [reflexivity |]. cbn [negb andb].
  destruct (truthy (fb_concept_tag f)); reflexivity.
Qed.

Lemma Set_add_loop {A} `{EqDecision A} (l : list A) : forall s : list A,
  NoDup s ->
  NoDup (fold_left Set_add l s) /\
  forall x, x ∈ fold_left Set_add l s <-> x ∈ s \/ x ∈ l.
Proof.
  induction l as [| a l IH]; intros s Hs.
  - cbn. split; [exact Hs |]. intros x. rewrite elem_of_nil. tauto.
  - cbn [fold_left].
    assert (Hadd : NoDup (Set_add s a) /\
                   forall x, x ∈ Set_add s a <-> x ∈ s \/ x = a).
    { unfold Set_add. destruct (decide (a ∈ s)) as [Ha | Ha].
      - split; [exact Hs |]. intros x. split; [auto |].
        intros [H | ->]; assumption.
      - split.
        + apply NoDup_app. split; [exact Hs |]. split; [| apply NoDup_singleton].
          intros x Hx Hx'. apply list_elem_of_singleton in Hx'. congruence.
        + intros x. rewrite elem_of_app, list_elem_of_singleton. tauto. }
    destruct Hadd as [Hnd Hin]. destruct (IH _ Hnd) as [Hnd' Hin'].
    split; [exact Hnd' |]. intros x. rewrite Hin', Hin, elem_of_cons. tauto.
Qed.

Lemma evaluateAssessment_closed_form now sub ty (qs : list Question) ca aa prev :
  exists r retry,
    evaluateAssessment now sub ty qs ca aa prev = Some r /\
    checkRetryEligibility now ty prev = Some retry /\
    ar_feedback r = omap (feedback_entry sub ca aa) qs /\
    ar_correct_count r = correct_entries (ar_feedback r) /\
    ar_total_questions r = Z.of_nat (length qs) /\
    ar_score r = percentage (ar_correct_count r) (ar_total_questions r) /\
    ar_grade r = calculateGrade (ar_score r) /\
    ar_passed r = Qle_bool (getPassThreshold ty) (ar_score r) /\
    ar_weak_concepts r = fold_left Set_add (missed_tags (ar_feedback r)) [] /\
    ar_can_retry r = negb (ar_passed r) && canRetry retry /\
    ar_next_retry_available_at r = nextRetryAt retry.
Proof.
  unfold evaluateAssessment.
  destruct (checkRetryEligibility_total now ty prev) as [retry Hretry].
  rewrite Hretry.
  pose proof (assessment_loop_quiz_loop sub ca aa qs (0, [], [])) as Hq.
  pose proof (assessment_loop_concepts sub ca aa qs (0, [], [])) as Hc.
  rewrite quiz_loop_closed_form in Hq. cbn [fst snd] in Hq, Hc.
  destruct (fold_left (assessment_step sub ca aa) qs (0, [], []))
    as [[c fb] ic].
  cbn [fst snd] in Hq, Hc. injection Hq as -> ->. subst ic.
  do 2 eexists. split; [reflexivity |]. split; [reflexivity |].
  cbn [ar_feedback ar_correct_count ar_total_questions ar_score ar_grade
       ar_passed ar_weak_concepts ar_can_retry ar_next_retry_available_at].
  repeat split; reflexivity.
Qed.

Lemma elem_of_omap_entry sub ca aa (qs : list Question) (f : QuestionFeedback) :
  f ∈ omap (feedback_entry sub ca aa) qs ->
  exists q, q ∈ qs /\ feedback_entry sub ca aa q = Some f.
Proof. intros H. apply list_elem_of_omap in H. exact H. Qed.

Lemma selected_answer_id_cases (sub : Submission) (q : Question) :
  (selected_answer_id sub q = "" /\
   forall a, a ∈ answers sub -> sub_question_id a <> question_id q) \/
  (exists a, a ∈ answers sub /\ sub_question_id a = question_id q /\
             sub_answer_id a = selected_answer_id sub q).
Proof.
  unfold selected_answer_id.
  destruct (find _ (answers sub)) as [a |] eqn:E.
  - right. apply find_some in E as [Hin Heq]. exists a.
    apply String.eqb_eq in Heq. apply list_elem_of_In in Hin. auto.
  - left. split; [reflexivity |]. intros a Ha Heq.
    apply list_elem_of_In in Ha.
    pose proof (find_none _ _ E a Ha) as Hn. cbn beta in Hn.
    apply String.eqb_neq in Hn. contradiction.
Qed.

Lemma feedback_entry_sound sub ca aa (q : Question) (f : QuestionFeedback) :
  feedback_entry sub ca aa q = Some f -> entry_sound sub ca aa f.
Proof.
  unfold feedback_entry.
  destruct (ca !! question_id q) as [c |] eqn:Hc; [| discriminate].
  intros H. injection H as <-.
  unfold entry_sound.
  cbn [fb_question_id fb_correct fb_selected_answer_id fb_correct_answer_id
       fb_explanation].
  split; [eauto |]. split; [apply String.eqb_eq |].
  unfold explanation_for.
  split; [intros ->; reflexivity |].
  split; [intros ->; rewrite andb_false_r; reflexivity |].
  split.
  { intros e He.
    destruct (negb _ && truthy_string _); [| discriminate].
    destruct (aa !! selected_answer_id sub q) as [a |]; [| discriminate].
    eauto. }
  destruct (selected_answer_id_cases sub q) as [[Hempty Hnone] | Hsome].
  - split; [auto |]. intros H. contradiction.
  - split; [| auto]. intros Hnone. destruct Hsome as (a & Ha & Hq & _).
    exfalso. exact (Hnone a Ha Hq).
Qed.

Lemma omap_entry_ids sub ca aa (qs : list Question) :
  map fb_question_id (omap (feedback_entry sub ca aa) qs) =
  filter (fun id => is_Some (ca !! id)) (map question_id qs).
Proof.
  induction qs as [| q qs IH]; [reflexivity |].
  rewrite omap_cons. cbn [map]. rewrite filter_cons.
  unfold feedback_entry at 1.
  destruct (ca !! question_id q) as [c |] eqn:Hc.
  - rewrite decide_True by eauto. cbn [map fb_question_id]. rewrite IH.
    reflexivity.
  - rewrite decide_False by (intros [? ?]; discriminate). exact IH.
Qed.

Lemma all_correct_entries sub ca aa (qs : list Question) :
  (forall q, q ∈ qs ->
     exists c, ca !! question_id q = Some c /\
               selected_answer_id sub q = answer_id c) ->
  correct_entries (omap (feedback_entry sub ca aa) qs) = Z.of_nat (length qs).
Proof.
  induction qs as [| q qs IH]; intros Hall; [reflexivity |].
  rewrite omap_cons. destruct (Hall q) as (c & Hc & Hsel); [left |].
  unfold feedback_entry at 1. rewrite Hc, Hsel, String.eqb_refl.
  rewrite correct_entries_cons. cbn [fb_correct length].
  rewrite IH; [lia |]. intros q' Hq'. apply Hall. right. exact Hq'.
Qed.

(** X1: in every result of [evaluateQuiz] and [evaluateAssessment] the
    correct count is the number of correct feedback entries, at most the
    number of entries, which is at most [total_questions], and the score
    is between 0 and 100. *)
Theorem grading_counts_in_bounds :
  (forall sub (qs : list Question) ca aa,
     let r := evaluateQuiz sub qs ca aa in
     counts_in_bounds (qr_score r) (qr_total_questions r)
                      (qr_correct_count r) (qr_feedback r)) /\
  (forall now sub ty (qs : list Question) ca aa prev,
     exists r,
       evaluateAssessment now sub ty qs ca aa prev = Some r /\
       counts_in_bounds (ar_score r) (ar_total_questions r)
                        (ar_correct_count r) (ar_feedback r)).
Proof.
  split.
  - intros sub qs ca aa r. subst r.
    destruct (evaluateQuiz_closed_form sub qs ca aa) as (Hfb & Hc & Ht).
    unfold evaluateQuiz at 1. cbn [qr_score].
    rewrite quiz_loop_closed_form. cbn [fst]. rewrite Hfb, Hc, Ht.
    apply counts_in_bounds_closed.
  - intros now sub ty qs ca aa prev.
    destruct (evaluateAssessment_closed_form now sub ty qs ca aa prev)
      as (r & retry & Hr & _ & Hfb & Hc & Ht & Hs & _).
    exists r. split; [exact Hr |].
    rewrite Hs, Hc, Ht, Hfb. apply counts_in_bounds_closed.
Qed.

(** X2: the feedback lists, in the order of the question list, exactly the
    questions that have an entry in the correct-answer lookup. *)
Theorem feedback_follows_questions :
  (forall sub (qs : list Question) ca aa,
     map fb_question_id (qr_feedback (evaluateQuiz sub qs ca aa)) =
     filter (fun id => is_Some (ca !! id)) (map question_id qs)) /\
  (forall now sub ty (qs : list Question) ca aa prev,
     exists r,
       evaluateAssessment now sub ty qs ca aa prev = Some r /\
       map fb_question_id (ar_feedback r) =
       filter (fun id => is_Some (ca !! id)) (map question_id qs)).
Proof.
  split.
  - intros sub qs ca aa.
    rewrite (proj1 (evaluateQuiz_closed_form sub qs ca aa)).
    apply omap_entry_ids.
  - intros now sub ty qs ca aa prev.
    destruct (evaluateAssessment_closed_form now sub ty qs ca aa prev)
      as (r & retry & Hr & _ & Hfb & _).
    exists r. split; [exact Hr |]. rewrite Hfb. apply omap_entry_ids.
Qed.

(** X3: every feedback entry of both grading functions is sound in the
    sense of [entry_sound]. *)
Theorem feedback_entries_sound :
  (forall sub (qs : list Question) ca aa,
     Forall (entry_sound sub ca aa) (qr_feedback (evaluateQuiz sub qs ca aa)))
  /\
  (forall now sub ty (qs : list Question) ca aa prev,
     exists r,
       evaluateAssessment now sub ty qs ca aa prev = Some r /\
       Forall (entry_sound sub ca aa) (ar_feedback r)).
Proof.
  assert (H : forall sub ca aa (qs : list Question),
             Forall (entry_sound sub ca aa)
                    (omap (feedback_entry sub ca aa) qs)).
  { intros sub ca aa qs. apply Forall_forall. intros f Hf.
    apply elem_of_omap_entry in Hf as (q & _ & Hq).
    exact (feedback_entry_sound sub ca aa q f Hq). }
  split.
  - intros sub qs ca aa.
    rewrite (proj1 (evaluateQuiz_closed_form sub qs ca aa)). apply H.
  - intros now sub ty qs ca aa prev.
    destruct (evaluateAssessment_closed_form now sub ty qs ca aa prev)
      as (r & retry & Hr & _ & Hfb & _).
    exists r. split; [exact Hr |]. rewrite Hfb. apply H.
Qed.

(** X4: when the submission selects the correct answer of every question
    of a non-empty list, both grading functions return score 100, passed
    and a full correct count; the assessment then has grade A, no weak
    concept and no retry. *)
Theorem all_correct_scores_100 now ty (prev : list AssessmentAttempt)
    sub (qs : list Question) (ca aa : gmap string Answer) :
  all_answered_correctly sub ca qs ->
  (let r := evaluateQuiz sub qs ca aa in
   perfect_result (qr_score r) (qr_passed r) (qr_total_questions r)
                  (qr_correct_count r)) /\
  (exists r,
     evaluateAssessment now sub ty qs ca aa prev = Some r /\
     perfect_result (ar_score r) (ar_passed r) (ar_total_questions r)
                    (ar_correct_count r) /\
     ar_grade r = grade_A /\ ar_weak_concepts r = [] /\ ar_can_retry r = false).
Proof.
  intros [Hne Hall].
  pose proof (all_correct_entries sub ca aa qs Hall) as Hcount.
  assert (Hpos : 0 < Z.of_nat (length qs)) by (destruct qs; [congruence | cbn; lia]).
  pose proof (percentage_full _ Hpos) as Hfull.
  split.
  - destruct (evaluateQuiz_closed_form sub qs ca aa) as (Hfb & Hc & Ht).
    cbv zeta. unfold perfect_result. rewrite Hc, Ht, Hcount.
    unfold evaluateQuiz. cbn [qr_score qr_passed].
    rewrite quiz_loop_closed_form. cbn [fst]. rewrite Hcount.
    split; [exact Hfull |]. split; [| reflexivity].
    apply Qle_bool_iff. rewrite Hfull. unfold PASS_THRESHOLD, Qle. cbn. lia.
  - destruct (evaluateAssessment_closed_form now sub ty qs ca aa prev)
      as (r & retry & Hr & _ & Hfb & Hc & Ht & Hs & Hg & Hp & Hw & Hcr & _).
    exists r. split; [exact Hr |].
    rewrite Hfb in Hc. rewrite Hcount in Hc. rewrite Hc, Ht in Hs.
    assert (Hscore : (ar_score r == 100)%Q) by (rewrite Hs; exact Hfull).
    assert (Hpassed : ar_passed r = true).
    { rewrite Hp. apply Qle_bool_iff. rewrite Hscore.
      destruct ty; unfold Qle; cbn; lia. }
    split; [| split; [| split]].
    + unfold perfect_result. rewrite Hc, Ht. auto.
    + rewrite Hg. apply calculateGrade_partition. rewrite Hscore.
      unfold Qle. cbn. lia.
    + rewrite Hw, Hfb.
      assert (Hnone : missed_tags (omap (feedback_entry sub ca aa) qs) = []).
      { clear -Hall. induction qs as [| q qs IH]; [reflexivity |].
        rewrite omap_cons. destruct (Hall q) as (c & Hc & Hsel); [left |].
        unfold feedback_entry at 1. rewrite Hc, Hsel, String.eqb_refl.
        rewrite missed_tags_cons. cbn [fb_correct negb andb].
        apply IH. intros q' Hq'. apply Hall. right. exact Hq'. }
      rewrite Hnone. reflexivity.
    + rewrite Hcr, Hpassed. reflexivity.
Qed.

Lemma all_correct_scores_100_witness :
  let ca : gmap string Answer :=
    {[ "q1" := mkAnswer "a1" "q1" true None;
       "q2" := mkAnswer "a2" "q2" true None ]} in
  let sub := mkSubmission "quiz" [mkSubmittedAnswer "q2" "a2";
                                  mkSubmittedAnswer "q1" "a1"] in
  let qs := [mkQuestion "q1" None; mkQuestion "q2" (Some "centers")] in
  all_answered_correctly sub ca qs /\
  perfect_result (qr_score (evaluateQuiz sub qs ca ca))
                 (qr_passed (evaluateQuiz sub qs ca ca))
                 (qr_total_questions (evaluateQuiz sub qs ca ca))
                 (qr_correct_count (evaluateQuiz sub qs ca ca)).
Proof.
  cbv zeta.
  assert (H : all_answered_correctly
                (mkSubmission "quiz" [mkSubmittedAnswer "q2" "a2";
                                      mkSubmittedAnswer "q1" "a1"])
                ({[ "q1" := mkAnswer "a1" "q1" true None;
                    "q2" := mkAnswer "a2" "q2" true None ]}
                   : gmap string Answer)
                [mkQuestion "q1" None; mkQuestion "q2" (Some "centers")]).
  { split; [discriminate |]. intros q Hq.
    apply elem_of_cons in Hq as [-> | Hq];
      [| apply list_elem_of_singleton in Hq; subst q];
      eexists; split; reflexivity. }
  split; [exact H |].
  exact (proj1 (all_correct_scores_100 0 lesson_check [] _ _ _ _ H)).
Defined.

(** X5: on the same questions a submission with at least as many correct
    answers gets at least the score of the other, and passes when the other
    passes. *)
Theorem more_correct_never_lowers_score
    (sub sub' : Submission) (qs : list Question) (ca aa : gmap string Answer) :
  qr_correct_count (evaluateQuiz sub qs ca aa)
    <= qr_correct_count (evaluateQuiz sub' qs ca aa) ->
  (qr_score (evaluateQuiz sub qs ca aa)
     <= qr_score (evaluateQuiz sub' qs ca aa))%Q /\
  (qr_passed (evaluateQuiz sub qs ca aa) = true ->
   qr_passed (evaluateQuiz sub' qs ca aa) = true).
Proof.
  intros Hc.
  assert (Hs : (qr_score (evaluateQuiz sub qs ca aa)
                <= qr_score (evaluateQuiz sub' qs ca aa))%Q).
  { unfold evaluateQuiz in *. cbn [qr_score qr_correct_count] in *.
    apply percentage_mono. exact Hc. }
  split; [exact Hs |].
  unfold evaluateQuiz in *. cbn [qr_passed qr_score] in *.
  intros Hp. apply Qle_bool_iff in Hp. apply Qle_bool_iff.
  eapply Qle_trans; [exact Hp | exact Hs].
Qed.

Lemma more_correct_never_lowers_score_witness :
  let ca : gmap string Answer :=
    {[ "q1" := mkAnswer "a1" "q1" true None;
       "q2" := mkAnswer "a2" "q2" true None ]} in
  let qs := [mkQuestion "q1" None; mkQuestion "q2" None] in
  let sub := mkSubmission "quiz" [mkSubmittedAnswer "q1" "a1"] in
  let sub' := mkSubmission "quiz" [mkSubmittedAnswer "q1" "a1";
                                   mkSubmittedAnswer "q2" "a2"] in
  qr_correct_count (evaluateQuiz sub qs ca ca)
    <= qr_correct_count (evaluateQuiz sub' qs ca ca) /\
  (qr_score (evaluateQuiz sub qs ca ca)
     <= qr_score (evaluateQuiz sub' qs ca ca))%Q.
Proof.
  cbv zeta. split; [vm_compute; discriminate |].
  apply more_correct_never_lowers_score. vm_compute. discriminate.
Defined.

(** X6: [evaluateAssessment] grades as [evaluateQuiz] does: same score,
    total, correct count and feedback on the same inputs, and the same
    pass verdict for the lesson-check tier. *)
Theorem evaluateAssessment_agrees_with_evaluateQuiz now sub ty
    (qs : list Question) (ca aa : gmap string Answer)
    (prev : list AssessmentAttempt) :
  exists r,
    evaluateAssessment now sub ty qs ca aa prev = Some r /\
    let q := evaluateQuiz sub qs ca aa in
    ar_score r = qr_score q /\
    ar_total_questions r = qr_total_questions q /\
    ar_correct_count r = qr_correct_count q /\
    ar_feedback r = qr_feedback q /\
    (ty = lesson_check -> ar_passed r = qr_passed q).
Proof.
  destruct (evaluateAssessment_closed_form now sub ty qs ca aa prev)
    as (r & retry & Hr & _ & Hfb & Hc & Ht & Hs & _ & Hp & _).
  destruct (evaluateQuiz_closed_form sub qs ca aa) as (Hqfb & Hqc & Hqt).
  exists r. split; [exact Hr |]. cbv zeta.
  assert (Hqs : qr_score (evaluateQuiz sub qs ca aa) =
                percentage (qr_correct_count (evaluateQuiz sub qs ca aa))
                           (qr_total_questions (evaluateQuiz sub qs ca aa)))
    by reflexivity.
  rewrite Hfb in Hc.
  assert (Hscore : ar_score r = qr_score (evaluateQuiz sub qs ca aa))
    by (rewrite Hs, Hqs, Hc, Ht, Hqc, Hqt; reflexivity).
  split; [exact Hscore |]. split; [congruence |]. split; [congruence |].
  split; [congruence |].
  intros ->. rewrite Hp, Hscore. reflexivity.
Qed.

(** X7: in an assessment result a passed attempt has grade A, B or C, a
    grade A or B attempt is passed whatever the tier, and a passed attempt
    is never offered a retry. *)
Theorem passed_and_grade_agree now sub ty (qs : list Question)
    (ca aa : gmap string Answer) (prev : list AssessmentAttempt) :
  exists r,
    evaluateAssessment now sub ty qs ca aa prev = Some r /\
    (ar_passed r = true ->
     ar_grade r = grade_A \/ ar_grade r = grade_B \/ ar_grade r = grade_C) /\
    (ar_grade r = grade_A \/ ar_grade r = grade_B -> ar_passed r = true) /\
    (ar_passed r = true -> ar_can_retry r = false).
Proof.
  destruct (evaluateAssessment_closed_form now sub ty qs ca aa prev)
    as (r & retry & Hr & _ & _ & _ & _ & _ & Hg & Hp & _ & Hcr & _).
  exists r. split; [exact Hr |].
  split; [| split].
  - rewrite Hg, Hp. intros Hpass. apply Qle_bool_iff in Hpass.
    assert (H70 : (70 <= ar_score r)%Q).
    { eapply Qle_trans; [| exact Hpass]. destruct ty; unfold Qle; cbn; lia. }
    destruct (calculateGrade (ar_score r)) eqn:E; auto.
    + apply (calculateGrade_partition (ar_score r)) in E. destruct E.
      exfalso. lra.
    + apply (calculateGrade_partition (ar_score r)) in E. exfalso. lra.
  - rewrite Hg, Hp. intros Hgrade. apply Qle_bool_iff.
    assert (H80 : (80 <= ar_score r)%Q).
    { destruct Hgrade as [E | E];
        apply (calculateGrade_partition (ar_score r)) in E; lra. }
    eapply Qle_trans; [| exact H80]. destruct ty; unfold Qle; cbn; lia.
  - rewrite Hcr. intros ->. reflexivity.
Qed.

(** X8: the weak concepts of an assessment result are, without duplicate,
    the tags that [extractIncorrectConcepts] draws from its feedback; and
    every extracted miss has a non-empty tag and comes from an incorrect
    feedback entry carrying that tag and question id. *)
Theorem weak_concepts_are_missed_tags now sub ty (qs : list Question)
    (ca aa : gmap string Answer) (prev : list AssessmentAttempt) :
  exists r,
    evaluateAssessment now sub ty qs ca aa prev = Some r /\
    NoDup (ar_weak_concepts r) /\
    (forall tag, tag ∈ ar_weak_concepts r <->
                 tag ∈ missed_tags (ar_feedback r)) /\
    (forall miss, miss ∈ extractIncorrectConcepts (ar_feedback r) ->
       ic_concept_tag miss <> "" /\
       exists f, f ∈ ar_feedback r /\ fb_correct f = false /\
                 fb_concept_tag f = Some (ic_concept_tag miss) /\
                 fb_question_id f = ic_question_id miss).
Proof.
  destruct (evaluateAssessment_closed_form now sub ty qs ca aa prev)
    as (r & retry & Hr & _ & _ & _ & _ & _ & _ & _ & Hw & _).
  exists r. split; [exact Hr |].
  destruct (Set_add_loop (missed_tags (ar_feedback r)) [] (NoDup_nil_2))
    as [Hnd Hin].
  rewrite Hw. split; [exact Hnd |]. split.
  - intros tag. rewrite Hin, elem_of_nil. tauto.
  - intros miss Hmiss. unfold extractIncorrectConcepts in Hmiss.
    apply list_elem_of_fmap in Hmiss as (f & -> & Hf).
    apply list_elem_of_filter in Hf as [Hcond Hf].
    apply andb_true_iff in Hcond as [Hwrong Htag].
    apply negb_true_iff in Hwrong.
    cbn [ic_concept_tag ic_question_id].
    destruct (fb_concept_tag f) as [tag |] eqn:Et; [| discriminate].
    cbn [nullish]. split.
    + intros ->. discriminate.
    + exists f. auto.
Qed.

(** ** Retry actions and retry eligibility *)

(** X9: the lesson-check action is "retry" up to the first attempt,
    "revisit_lesson" at the second and "review_required" from the third,
    and it never becomes milder as the attempt number grows. *)
Theorem getRetryAction_escalates :
  (forall n, ra_type (getRetryAction n) = action_retry <-> n <= 1) /\
  (forall n, ra_type (getRetryAction n) = action_revisit_lesson <-> n = 2) /\
  (forall n, ra_type (getRetryAction n) = action_review_required <-> 3 <= n) /\
  (forall n m, n <= m ->
     severity (ra_type (getRetryAction n))
       <= severity (ra_type (getRetryAction m))).
Proof.
  assert (H : forall n,
             ra_type (getRetryAction n) =
             if n <=? 1 then action_retry
             else if n =? 2 then action_revisit_lesson
                  else action_review_required).
  { intros n. unfold getRetryAction.
    destruct (n <=? 1); [reflexivity |]. destruct (n =? 2); reflexivity. }
  repeat split; intros; rewrite ?H in *;
    repeat match goal with
           | |- context [?a <=? ?b] => destruct (Z.leb_spec a b)
           | |- context [?a =? ?b] => destruct (Z.eqb_spec a b)
           | H : context [?a <=? ?b] |- _ => destruct (Z.leb_spec a b)
           | H : context [?a =? ?b] |- _ => destruct (Z.eqb_spec a b)
           end;
    cbn [severity] in *; try discriminate; try reflexivity; try lia.
Qed.

(** X10: the institutional action agrees with the tables of the engine: for
    a module or term exam it is a retry exactly while the attempt number
    is below [MAX_ATTEMPTS] of the tier, and a retry always carries the
    [COOLDOWN_HOURS] of the tier; a cumulative review never gets a retry;
    a module review hands back the weak concepts it was given; and the
    "blocked" variant is never produced. *)
Theorem getInstitutionalRetryAction_matches_limits :
  (forall t n weak,
     t <> tier_cumulative_review ->
     (is_retry (getInstitutionalRetryAction t n weak) <->
      n < count (MAX_ATTEMPTS (tier_type t)))) /\
  (forall t n weak message hours,
     getInstitutionalRetryAction t n weak = inst_retry message hours ->
     hours = COOLDOWN_HOURS (tier_type t)) /\
  (forall n weak,
     ~ is_retry (getInstitutionalRetryAction tier_cumulative_review n weak)) /\
  (forall t n weak message modules,
     getInstitutionalRetryAction t n weak = inst_module_review message modules ->
     modules = weak) /\
  (forall t n weak message next,
     getInstitutionalRetryAction t n weak <> inst_blocked message next).
Proof.
  repeat split.
  - destruct t; [| | congruence]; unfold getInstitutionalRetryAction;
      match goal with |- context [?a <=? ?b] => destruct (Z.leb_spec a b) end;
      cbn; intros; lia.
  - destruct t; [| | congruence]; unfold getInstitutionalRetryAction;
      match goal with |- context [?a <=? ?b] => destruct (Z.leb_spec a b) end;
      cbn; intros; try lia; tauto.
  - intros t n weak message hours.
    destruct t; unfold getInstitutionalRetryAction;
      try match goal with |- context [?a <=? ?b] => destruct (a <=? b) end;
      intros H; try discriminate; injection H as _ <-; reflexivity.
  - intros n weak H. exact H.
  - intros t n weak message modules.
    destruct t; unfold getInstitutionalRetryAction;
      try match goal with |- context [?a <=? ?b] => destruct (a <=? b) end;
      intros H; try discriminate; injection H as _ <-; reflexivity.
  - intros t n weak message next.
    destruct t; unfold getInstitutionalRetryAction;
      try match goal with |- context [?a <=? ?b] => destruct (a <=? b) end;
      discriminate.
Qed.

(** The result of [checkRetryEligibility] in terms of the timestamps of the
    history. *)
Lemma checkRetryEligibility_normal_form now ty
    (prev : list AssessmentAttempt) :
  checkRetryEligibility now ty prev = Some (retry_as_specified now ty prev).
Proof.
  unfold checkRetryEligibility, retry_as_specified.
  assert (Hp : period_days (MAX_ATTEMPTS ty) * 24 * 60 * 60 * 1000 =
               days (period (retry_policy ty)))
    by (destruct ty; reflexivity).
  assert (Hc : COOLDOWN_HOURS ty * 60 * 60 * 1000 =
               hours (cooldown (retry_policy ty)))
    by (destruct ty; reflexivity).
  assert (Hn : count (MAX_ATTEMPTS ty) = max_attempts (retry_policy ty))
    by (destruct ty; reflexivity).
  assert (Hpos : 0 < max_attempts (retry_policy ty))
    by (destruct ty; cbn; lia).
  rewrite Hp, Hc, Hn.
  set (start := now - days (period (retry_policy ty))).
  change attempt_created_at with getTime.
  rewrite <- (filter_getTime (fun t => start <= t)).
  rewrite length_map.
  set (recent := filter (fun a => start <= getTime a) prev).
  destruct (decide (max_attempts (retry_policy ty) <= Z.of_nat (length recent)))
    as [Hmax | Hmax].
  - rewrite (proj2 (Z.leb_le _ _) Hmax).
    destruct recent as [| a0 rest] eqn:Hrecent; [cbn in Hmax; lia |].
    cbn [head]. rewrite reduce_oldest. reflexivity.
  - rewrite (proj2 (Z.leb_gt _ _)) by lia.
    destruct prev as [| a0 rest] eqn:Hprev.
    + cbn. rewrite decide_False; [reflexivity |]. intros (_ & H & _). congruence.
    + rewrite <- Hprev. 
      assert (Hlen : (0 <? Z.of_nat (length prev)) = true)
        by (apply Z.ltb_lt; subst prev; cbn [length]; lia).
      rewrite Hlen. cbn [andb].
      assert (Hhead : head prev = Some a0) by (subst prev; reflexivity).
      rewrite Hhead, reduce_latest.
      assert (Hlatest : fold_right Z.max (getTime a0) (map getTime prev) =
                        latest (map getTime prev))
        by (subst prev; reflexivity).
      rewrite Hlatest.
      destruct (0 <? hours (cooldown (retry_policy ty))) eqn:Hcool.
      * apply Z.ltb_lt in Hcool.
        destruct (now <? latest (map getTime prev) +
                         hours (cooldown (retry_policy ty))) eqn:Hnow.
        -- apply Z.ltb_lt in Hnow. rewrite decide_True; [reflexivity |].
           split; [unfold hours in Hcool; lia |].
           split; [subst prev; congruence | exact Hnow].
        -- apply Z.ltb_ge in Hnow. rewrite decide_False; [reflexivity |].
           intros (_ & _ & H). lia.
      * apply Z.ltb_ge in Hcool. rewrite decide_False; [reflexivity |].
        intros (H & _ & _). unfold hours in Hcool. lia.
Qed.

Lemma recent_stamps (now : Z) (ty : AssessmentType)
    (prev : list AssessmentAttempt) :
  filter (fun t => now - days (period (retry_policy ty)) <= t)
         (map attempt_created_at prev)
  = map getTime (filter (fun a => now - period_ms ty <= getTime a) prev).
Proof.
  unfold period_ms.
  replace (period_days (MAX_ATTEMPTS ty) * 24 * 60 * 60 * 1000)
    with (days (period (retry_policy ty))) by (destruct ty; reflexivity).
  symmetry.
  apply (filter_getTime (fun t => now - days (period (retry_policy ty)) <= t)).
Qed.

Lemma filter_ext_in {A} (P Q : A -> Prop) `{!forall x, Decision (P x)}
    `{!forall x, Decision (Q x)} (l : list A) :
  (forall x, x ∈ l -> (P x <-> Q x)) -> filter P l = filter Q l.
Proof.
  induction l as [| a l IH]; intros Hext; [reflexivity |].
  rewrite !filter_cons.
  assert (Ha : P a <-> Q a) by (apply Hext; left).
  rewrite IH by (intros x Hx; apply Hext; right; exact Hx).
  destruct (decide (P a)), (decide (Q a)); tauto.
Qed.

Lemma filter_none {A} (P : A -> Prop) `{!forall x, Decision (P x)}
    (l : list A) :
  (forall x, x ∈ l -> ~ P x) -> filter P l = [].
Proof.
  induction l as [| a l IH]; intros Hnone; [reflexivity |].
  rewrite filter_cons, decide_False by (apply Hnone; left).
  apply IH. intros x Hx. apply Hnone. right. exact Hx.
Qed.

Lemma Permutation_elem (l l' : list Z) (x : Z) :
  l ≡ₚ l' -> x ∈ l -> x ∈ l'.
Proof. intros Hp Hx. rewrite <- Hp. exact Hx. Qed.

Lemma earliest_Permutation (l l' : list Z) :
  l ≡ₚ l' -> l <> [] -> earliest l = earliest l'.
Proof.
  intros Hp Hne.
  assert (Hne' : l' <> []).
  { intros ->. apply Permutation_nil_r in Hp. contradiction. }
  destruct (earliest_spec l Hne) as [Hin Hall].
  destruct (earliest_spec l' Hne') as [Hin' Hall'].
  rewrite Forall_forall in Hall, Hall'.
  pose proof (Hall _ (Permutation_elem _ _ _ (symmetry Hp) Hin')).
  pose proof (Hall' _ (Permutation_elem _ _ _ Hp Hin)). lia.
Qed.

Lemma latest_Permutation (l l' : list Z) :
  l ≡ₚ l' -> l <> [] -> latest l = latest l'.
Proof.
  intros Hp Hne.
  assert (Hne' : l' <> []).
  { intros ->. apply Permutation_nil_r in Hp. contradiction. }
  destruct (latest_spec l Hne) as [Hin Hall].
  destruct (latest_spec l' Hne') as [Hin' Hall'].
  rewrite Forall_forall in Hall, Hall'.
  pose proof (Hall _ (Permutation_elem _ _ _ (symmetry Hp) Hin')).
  pose proof (Hall' _ (Permutation_elem _ _ _ Hp Hin)). lia.
Qed.

(** X12: once every attempt of the history is older than the period and
    older than the cooldown of the tier, the retry is allowed; in
    particular with no prior attempt. *)
Theorem retry_allowed_after_period_and_cooldown now ty
    (prev : list AssessmentAttempt) :
  (forall a, a ∈ prev ->
     getTime a < now - period_ms ty /\ getTime a + cooldown_ms ty <= now) ->
  checkRetryEligibility now ty prev = Some (mkRetry true None).
Proof.
  intros Hold. rewrite checkRetryEligibility_normal_form.
  unfold retry_as_specified. rewrite recent_stamps.
  assert (Hrecent : filter (fun a => now - period_ms ty <= getTime a) prev = []).
  { apply filter_none. intros a Ha. destruct (Hold a Ha). lia. }
  rewrite Hrecent. cbn [map length].
  rewrite decide_False by (destruct ty; cbn; lia).
  rewrite decide_False; [reflexivity |].
  intros (Hc & Hne & Hnow).
  assert (Hstamps : map attempt_created_at prev <> [])
    by (destruct prev; [congruence | discriminate]).
  destruct (latest_spec _ Hstamps) as [Hin _].
  apply list_elem_of_fmap in Hin as (a & Heq & Ha).
  destruct (Hold a Ha) as [_ Hcool].
  unfold cooldown_ms in Hcool.
  replace (COOLDOWN_HOURS ty * 60 * 60 * 1000)
    with (hours (cooldown (retry_policy ty))) in Hcool
    by (destruct ty; reflexivity).
  unfold getTime in Hcool. lia.
Qed.

Lemma retry_allowed_after_period_and_cooldown_witness :
  let prev := [mkAttempt "a1" "u" "m1" 50 false 1 0;
               mkAttempt "a2" "u" "m1" 60 false 2 1000] in
  (forall a, a ∈ prev ->
     getTime a < days 8 - period_ms module_exam /\
     getTime a + cooldown_ms module_exam <= days 8) /\
  checkRetryEligibility (days 8) module_exam prev = Some (mkRetry true None).
Proof.
  cbv zeta.
  assert (H : forall a,
             a ∈ [mkAttempt "a1" "u" "m1" 50 false 1 0;
                  mkAttempt "a2" "u" "m1" 60 false 2 1000] ->
             getTime a < days 8 - period_ms module_exam /\
             getTime a + cooldown_ms module_exam <= days 8).
  { intros a Ha.
    apply elem_of_cons in Ha as [-> | Ha];
      [| apply list_elem_of_singleton in Ha; subst a];
      vm_compute; split; congruence. }
  split; [exact H |].
  apply retry_allowed_after_period_and_cooldown. exact H.
Defined.

(** X13: the verdict does not depend on the order of the attempt history. *)
Theorem retry_ignores_history_order now ty
    (prev prev' : list AssessmentAttempt) :
  prev ≡ₚ prev' ->
  checkRetryEligibility now ty prev = checkRetryEligibility now ty prev'.
Proof.
  intros Hp. rewrite !checkRetryEligibility_normal_form. f_equal.
  unfold retry_as_specified.
  set (p := retry_policy ty).
  assert (Hstamps : map attempt_created_at prev ≡ₚ map attempt_created_at prev')
    by (apply fmap_Permutation; exact Hp).
  assert (Hrecent :
    filter (fun t => now - days (period p) <= t) (map attempt_created_at prev)
    ≡ₚ filter (fun t => now - days (period p) <= t)
              (map attempt_created_at prev'))
    by (apply filter_Permutation; exact Hstamps).
  rewrite <- (Permutation_length Hrecent).
  destruct (decide (max_attempts p <= _)) as [Hmax | Hmax].
  - rewrite (earliest_Permutation _ _ Hrecent); [reflexivity |].
    intros E. rewrite E in Hmax. cbn in Hmax. subst p.
    destruct ty; cbn in Hmax; lia.
  - destruct prev as [| a prev].
    { apply Permutation_nil_l in Hp. subst prev'. reflexivity. }
    assert (Hne' : prev' <> []).
    { intros ->. apply Permutation_nil_r in Hp. discriminate. }
    rewrite <- (latest_Permutation _ _ Hstamps) by discriminate.
    destruct (decide _) as [(Hc & Hne & Hnow) | Hno].
    + rewrite decide_True by auto. reflexivity.
    + rewrite decide_False; [reflexivity |].
      intros (Hc & _ & Hnow). apply Hno. split; [exact Hc |].
      split; [discriminate | exact Hnow].
Qed.

Lemma retry_ignores_history_order_witness :
  let a1 := mkAttempt "a1" "u" "t1" 50 false 1 (days 30 - hours 60) in
  let a2 := mkAttempt "a2" "u" "t1" 55 false 2 (days 30 - hours 10) in
  [a1; a2] ≡ₚ [a2; a1] /\
  checkRetryEligibility (days 30) term_exam [a1; a2]
  = checkRetryEligibility (days 30) term_exam [a2; a1].
Proof.
  cbv zeta. split; [apply perm_swap |].
  apply retry_ignores_history_order. apply perm_swap.
Defined.



(** ** The ledger and the gates *)

(** The effect of [updateWeakAreas] on the row of every pair. *)
Lemma updateWeakAreas_rows now (db : Database) (userId : string)
    (misses : list IncorrectConcept) :
  ledger_ok (weak_areas db) ->
  ledger_ok (weak_areas (updateWeakAreas now db userId misses)) /\
  forall u t,
    if decide (u = userId /\ 0 < misses_of t misses) then
      exists after,
        ledger_row (weak_areas (updateWeakAreas now db userId misses)) u t
          = Some after /\
        row_touched now userId t (misses_of t misses)
                    (ledger_row (weak_areas db) u t) after
    else ledger_row (weak_areas (updateWeakAreas now db userId misses)) u t
         = ledger_row (weak_areas db) u t.
Proof.
  intros Hok.
  assert (Htags : NoDup (Set_of (map ic_concept_tag misses)) /\
                  forall t, t ∈ Set_of (map ic_concept_tag misses) <->
                            0 < misses_of t misses).
  { split; [apply NoDup_Set_of |].
    intros t. rewrite elem_of_Set_of, misses_of_pos. reflexivity. }
  unfold updateWeakAreas.
  destruct (length misses =? 0)%nat eqn:Hlen.
  - apply Nat.eqb_eq in Hlen. destruct misses; [| discriminate].
    split; [exact Hok |]. intros u t.
    rewrite decide_False; [reflexivity |]. intros [_ H].
    apply misses_of_pos in H. inversion H.
  - cbn [weak_areas set_weak_areas].
    destruct (touch_loop now userId misses _ (proj1 Htags) _ Hok)
      as [Hok' Heff].
    split; [exact Hok' |]. intros u t. specialize (Heff u t).
    destruct (decide (u = userId /\ 0 < misses_of t misses)) as [[-> Hp] | Hn].
    + rewrite decide_True in Heff; [exact Heff |].
      split; [reflexivity | apply Htags; exact Hp].
    + rewrite decide_False in Heff; [exact Heff |].
      intros [-> Hin]. apply Hn. split; [reflexivity | apply Htags; exact Hin].
Qed.

Lemma misses_of_nonneg (t : string) (misses : list IncorrectConcept) :
  0 <= misses_of t misses.
Proof. unfold misses_of. lia. Qed.

Lemma misses_of_app (t : string) (m1 m2 : list IncorrectConcept) :
  misses_of t (m1 ++ m2) = misses_of t m1 + misses_of t m2.
Proof. unfold misses_of. rewrite filter_app, length_app. lia. Qed.

Lemma updateWeakAreas_counts now (db : Database) (userId : string)
    (misses : list IncorrectConcept) :
  ledger_ok (weak_areas db) ->
  forall user tag,
    error_count_of (weak_areas (updateWeakAreas now db userId misses)) user tag
    = error_count_of (weak_areas db) user tag
      + recorded_misses userId misses user tag.
Proof.
  intros Hok user tag.
  destruct (updateWeakAreas_rows now db userId misses Hok) as [_ Heff].
  specialize (Heff user tag). unfold error_count_of, recorded_misses.
  destruct (decide (user = userId /\ 0 < misses_of tag misses))
    as [[-> Hpos] | Hno].
  - destruct Heff as (after & -> & Htouched).
    rewrite decide_True by reflexivity.
    destruct Htouched as (_ & _ & _ & Hcount).
    destruct (ledger_row (weak_areas db) userId tag) as [row |].
    + destruct Hcount as (_ & _ & ->). reflexivity.
    + lia.
  - rewrite Heff. destruct (decide (user = userId)) as [-> | Hu]; [| lia].
    pose proof (misses_of_nonneg tag misses).
    assert (misses_of tag misses = 0) by (destruct (decide (0 < misses_of tag misses)); [exfalso; auto | lia]).
    lia.
Qed.

Lemma required_reviews_count (db : Database) (user tag : string) :
  ledger_ok (weak_areas db) ->
  (tag ∈ getRequiredReviews db user <->
   3 <= error_count_of (weak_areas db) user tag).
Proof.
  intros [_ Hkeys]. unfold getRequiredReviews, REVIEW_THRESHOLD, error_count_of.
  rewrite list_elem_of_fmap. split.
  - intros (row & -> & Hrow).
    apply list_elem_of_filter in Hrow as [[<- Hc] Hin].
    rewrite (ledger_row_member _ _ Hkeys Hin). exact Hc.
  - intros Hc.
    destruct (ledger_row (weak_areas db) user tag) as [row |] eqn:E; [| lia].
    destruct (ledger_row_Some _ _ _ _ E) as (Hin & Hu & Ht).
    exists row. split; [auto |]. apply list_elem_of_filter. auto.
Qed.

(** X15: under the constraints of the ledger table an update adds, for every
    (user, tag) pair, the misses recorded for the pair to the error count
    the ledger holds (0 without a row), and afterwards a tag is a required
    review of a user exactly when that sum reaches 3. *)
Theorem updateWeakAreas_adds_counts now (db : Database) (userId : string)
    (misses : list IncorrectConcept) :
  ledger_ok (weak_areas db) ->
  forall user tag,
    error_count_of (weak_areas (updateWeakAreas now db userId misses)) user tag
    = error_count_of (weak_areas db) user tag
      + recorded_misses userId misses user tag /\
    (tag ∈ getRequiredReviews (updateWeakAreas now db userId misses) user <->
     3 <= error_count_of (weak_areas db) user tag
          + recorded_misses userId misses user tag).
Proof.
  intros Hok user tag.
  pose proof (updateWeakAreas_counts now db userId misses Hok user tag) as Hc.
  split; [exact Hc |].
  rewrite required_reviews_count, Hc; [reflexivity |].
  apply (updateWeakAreas_rows now db userId misses Hok).
Qed.

Lemma updateWeakAreas_adds_counts_witness :
  let db := mkDatabase [] [] [] [] []
              [mkWeakArea "w1" "u" "identification" 2 0 0] in
  let misses := [mkIncorrectConcept "identification" "q1"] in
  ledger_ok (weak_areas db) /\
  forall user tag,
    error_count_of (weak_areas (updateWeakAreas 5 db "u" misses)) user tag
    = error_count_of (weak_areas db) user tag
      + recorded_misses "u" misses user tag /\
    (tag ∈ getRequiredReviews (updateWeakAreas 5 db "u" misses) user <->
     3 <= error_count_of (weak_areas db) user tag
          + recorded_misses "u" misses user tag).
Proof.
  cbv zeta.
  assert (H : ledger_ok [mkWeakArea "w1" "u" "identification" 2 0 0]).
  { split; cbn [map]; apply NoDup_singleton. }
  split; [exact H |].
  apply (updateWeakAreas_adds_counts 5
           (mkDatabase [] [] [] [] []
                       [mkWeakArea "w1" "u" "identification" 2 0 0])).
  exact H.
Defined.

(** X16: recording the misses of an attempt in two calls leaves the same
    error counts as recording them in one. *)
Theorem updateWeakAreas_split_calls now1 now2 now (db : Database)
    (userId : string) (m1 m2 : list IncorrectConcept) :
  ledger_ok (weak_areas db) ->
  forall user tag,
    error_count_of
      (weak_areas (updateWeakAreas now2 (updateWeakAreas now1 db userId m1)
                                   userId m2)) user tag
    = error_count_of (weak_areas (updateWeakAreas now db userId (m1 ++ m2)))
                     user tag.
Proof.
  intros Hok user tag.
  pose proof (proj1 (updateWeakAreas_rows now1 db userId m1 Hok)) as Hok1.
  rewrite (updateWeakAreas_counts now2 _ userId m2 Hok1).
  rewrite (updateWeakAreas_counts now1 db userId m1 Hok).
  rewrite (updateWeakAreas_counts now db userId (m1 ++ m2) Hok).
  unfold recorded_misses. destruct (decide (user = userId)); [| lia].
  rewrite misses_of_app. lia.
Qed.

Lemma updateWeakAreas_split_calls_witness :
  let db := mkDatabase [] [] [] [] []
              [mkWeakArea "w1" "u" "identification" 2 0 0] in
  let m1 := [mkIncorrectConcept "identification" "q1"] in
  let m2 := [mkIncorrectConcept "centers" "q2";
             mkIncorrectConcept "identification" "q3"] in
  ledger_ok (weak_areas db) /\
  forall user tag,
    error_count_of
      (weak_areas (updateWeakAreas 2 (updateWeakAreas 1 db "u" m1) "u" m2))
      user tag
    = error_count_of (weak_areas (updateWeakAreas 3 db "u" (m1 ++ m2)))
                     user tag.
Proof.
  cbv zeta.
  assert (H : ledger_ok [mkWeakArea "w1" "u" "identification" 2 0 0]).
  { split; cbn [map]; apply NoDup_singleton. }
  split; [exact H |].
  apply (updateWeakAreas_split_calls 1 2 3
           (mkDatabase [] [] [] [] []
                       [mkWeakArea "w1" "u" "identification" 2 0 0])).
  exact H.
Defined.

Lemma filter_map_fixed {A} (P : A -> Prop) `{!forall x, Decision (P x)}
    (f : A -> A) (l : list A) :
  (forall x, x ∈ l -> (P (f x) <-> P x)) ->
  (forall x, x ∈ l -> P x -> f x = x) ->
  filter P (map f l) = filter P l.
Proof.
  induction l as [| a l IH]; intros Hiff Hfix; [reflexivity |].
  cbn [map]. rewrite !filter_cons.
  rewrite IH.
  2: { intros x Hx. apply Hiff. right. exact Hx. }
  2: { intros x Hx. apply Hfix. right. exact Hx. }
  destruct (decide (P a)) as [Ha | Ha].
  - rewrite decide_True by (apply Hiff; [left | exact Ha]).
    rewrite (Hfix a); [reflexivity | left | exact Ha].
  - rewrite decide_False; [reflexivity |].
    intros Hfa. apply Ha. apply Hiff; [left | exact Hfa].
Qed.

Lemma touch_other_user now userId misses (rows : list WeakArea)
    (tag other : string) :
  ledger_ok rows -> other <> userId ->
  filter (fun row => wa_user_id row = other)
         (touch now userId misses rows tag)
  = filter (fun row => wa_user_id row = other) rows.
Proof.
  intros [Hids Hkeys] Hother. unfold touch.
  rewrite single_filter_key by exact Hkeys.
  destruct (ledger_row rows userId tag) as [existing |] eqn:E.
  - destruct (ledger_row_Some _ _ _ _ E) as (Hin & Hu & Ht).
    unfold update_by_id. apply filter_map_fixed.
    + intros row Hrow. destruct (wa_id row =? wa_id existing)%string;
        reflexivity.
    + intros row Hrow Hrowu.
      destruct (wa_id row =? wa_id existing)%string eqn:Eid; [| reflexivity].
      apply String.eqb_eq in Eid.
      assert (row = existing) by (apply (NoDup_map_eq wa_id rows); auto).
      subst row. congruence.
  - unfold insert_row. destruct (decide _); [reflexivity |].
    rewrite filter_app, filter_cons, filter_nil.
    cbn [wa_user_id]. rewrite decide_False by congruence.
    apply app_nil_r.
Qed.

Lemma touch_loop_other_user now userId misses (tags : list string)
    (other : string) :
  other <> userId ->
  forall rows, ledger_ok rows ->
    filter (fun row => wa_user_id row = other)
           (fold_left (touch now userId misses) tags rows)
    = filter (fun row => wa_user_id row = other) rows.
Proof.
  intros Hother. induction tags as [| tag tags IH]; intros rows Hok;
    [reflexivity |].
  cbn [fold_left].
  rewrite IH by (apply (touch_spec now userId misses tag rows Hok)).
  apply touch_other_user; assumption.
Qed.

Lemma required_reviews_of_rows (db : Database) (user : string) :
  getRequiredReviews db user =
  map wa_concept_tag
      (filter (fun w => 3 <= wa_error_count w)
              (filter (fun w => wa_user_id w = user) (weak_areas db))).
Proof. rewrite blocking_rows. reflexivity. Qed.

(** X17: under the constraints of the ledger table an update made for one
    user leaves the rows of every other user, in their order, and so their
    required reviews, as they were. *)
Theorem updateWeakAreas_leaves_other_users now (db : Database)
    (userId other : string) (misses : list IncorrectConcept) :
  ledger_ok (weak_areas db) ->
  other <> userId ->
  filter (fun row => wa_user_id row = other)
         (weak_areas (updateWeakAreas now db userId misses))
  = filter (fun row => wa_user_id row = other) (weak_areas db) /\
  getRequiredReviews (updateWeakAreas now db userId misses) other
  = getRequiredReviews db other.
Proof.
  intros Hok Hother.
  assert (Hrows :
    filter (fun row => wa_user_id row = other)
           (weak_areas (updateWeakAreas now db userId misses))
    = filter (fun row => wa_user_id row = other) (weak_areas db)).
  { unfold updateWeakAreas. destruct (length misses =? 0)%nat; [reflexivity |].
    cbn [weak_areas set_weak_areas].
    apply touch_loop_other_user; assumption. }
  split; [exact Hrows |].
  rewrite !required_reviews_of_rows, Hrows. reflexivity.
Qed.

Lemma updateWeakAreas_leaves_other_users_witness :
  let db := mkDatabase [] [] [] [] []
              [mkWeakArea "w1" "u" "identification" 2 0 0;
               mkWeakArea "w2" "v" "identification" 4 0 0] in
  let misses := [mkIncorrectConcept "identification" "q1"] in
  ledger_ok (weak_areas db) /\ "v" <> "u" /\
  filter (fun row => wa_user_id row = "v")
         (weak_areas (updateWeakAreas 5 db "u" misses))
  = filter (fun row => wa_user_id row = "v") (weak_areas db) /\
  getRequiredReviews (updateWeakAreas 5 db "u" misses) "v"
  = getRequiredReviews db "v".
Proof.
  cbv zeta.
  assert (H : ledger_ok [mkWeakArea "w1" "u" "identification" 2 0 0;
                         mkWeakArea "w2" "v" "identification" 4 0 0]).
  { split; cbn [map]; apply NoDup_cons; (split; [| apply NoDup_singleton]);
      intros Hin; apply list_elem_of_singleton in Hin; discriminate. }
  split; [exact H |]. split; [discriminate |].
  apply (updateWeakAreas_leaves_other_users 5
           (mkDatabase [] [] [] [] []
                       [mkWeakArea "w1" "u" "identification" 2 0 0;
                        mkWeakArea "w2" "v" "identification" 4 0 0]));
    [exact H | discriminate].
Defined.

Lemma canAccessTerm_normal_form (db : Database) (userId termId : string) :
  canAccessTerm db userId termId =
  match term_gate_before_ledger db userId termId with
  | Some r => r
  | None => review_verdict (getRequiredReviews db userId)
  end.
Proof.
  unfold canAccessTerm, term_gate_before_ledger.
  destruct (single (filter _ (terms db))) as [term |]; [| reflexivity].
  destruct (term_order term =? 1); [reflexivity |].
  destruct (single (filter _ (terms db))) as [prevTerm |]; [| reflexivity].
  assert (Hledger :
    (let weakAreas := filter (fun w => wa_user_id w = userId) (weak_areas db) in
     let blockingAreas := filter (fun w => 3 <= wa_error_count w) weakAreas in
     if (0 <? length blockingAreas)%nat
     then deny (weak_area_message
                  (join ", " (map wa_concept_tag blockingAreas)))
     else allow)
    = review_verdict (getRequiredReviews db userId)).
  { cbv zeta. rewrite required_reviews_of_rows.
    destruct (filter _ (filter _ (weak_areas db))); reflexivity. }
  destruct (termExamOf db (term_id prevTerm)) as [exam |].
  - destruct (passingAttempt db userId (assessment_id exam));
      [exact Hledger | reflexivity].
  - exact Hledger.
Qed.

Lemma review_verdict_accessible (tags : list string) :
  accessible (review_verdict tags) = true <-> tags = [].
Proof. destruct tags; cbn; split; congruence. Qed.

(** X18: for a term whose own row and previous term are found and whose
    previous-term exam requirement is met, [canAccessTerm] decides on the
    list [getRequiredReviews] returns: access when it is empty, otherwise a
    refusal that lists its tags joined by ", ". *)
Theorem canAccessTerm_decides_on_required_reviews (db : Database)
    (userId termId : string) (term prevTerm : Term) :
  filter (fun t => term_id t = termId) (terms db) = [term] ->
  1 < term_order term ->
  filter (fun t => term_order t = term_order term - 1) (terms db)
    = [prevTerm] ->
  exam_requirement_met db userId prevTerm ->
  canAccessTerm db userId termId
  = match getRequiredReviews db userId with
    | [] => allow
    | tags => deny (weak_area_message (join ", " tags))
    end.
Proof.
  intros Hterm Horder Hprev Hexam.
  rewrite canAccessTerm_normal_form. unfold term_gate_before_ledger.
  rewrite Hterm. cbn [single].
  rewrite (proj2 (Z.eqb_neq _ _)) by lia.
  rewrite Hprev. cbn [single].
  assert (Hverdict :
    review_verdict (getRequiredReviews db userId)
    = match getRequiredReviews db userId with
      | [] => allow
      | tags => deny (weak_area_message (join ", " tags))
      end) by (destruct (getRequiredReviews db userId); reflexivity).
  destruct (termExamOf db (term_id prevTerm)) as [exam |] eqn:E;
    [| exact Hverdict].
  destruct (proj2 (passingAttempt_Some db userId (assessment_id exam))
                  (Hexam exam E)) as [a ->].
  exact Hverdict.
Qed.

Lemma canAccessTerm_decides_on_required_reviews_witness :
  filter (fun t => term_id t = "t2") (terms term_gate_db)
    = [mkTerm "t2" "y1" 2] /\
  1 < term_order (mkTerm "t2" "y1" 2) /\
  filter (fun t => term_order t = term_order (mkTerm "t2" "y1" 2) - 1)
         (terms term_gate_db) = [mkTerm "t1" "y1" 1] /\
  exam_requirement_met term_gate_db "u" (mkTerm "t1" "y1" 1) /\
  canAccessTerm term_gate_db "u" "t2"
  = match getRequiredReviews term_gate_db "u" with
    | [] => allow
    | tags => deny (weak_area_message (join ", " tags))
    end.
Proof.
  assert (Hexam : exam_requirement_met term_gate_db "u" (mkTerm "t1" "y1" 1)).
  { intros exam Hexam. vm_compute in Hexam. injection Hexam as <-.
    exists (mkAttempt "a1" "u" "e1" 90 true 1 1000).
    split; [left | repeat split]. }
  split; [reflexivity |]. split; [reflexivity |]. split; [reflexivity |].
  split; [exact Hexam |].
  apply (canAccessTerm_decides_on_required_reviews term_gate_db "u" "t2"
           (mkTerm "t2" "y1" 2) (mkTerm "t1" "y1" 1));
    [reflexivity | reflexivity | reflexivity | exact Hexam].
Defined.

Lemma term_gate_before_ledger_update now (db : Database)
    (userId : string) (misses : list IncorrectConcept) (user termId : string) :
  term_gate_before_ledger (updateWeakAreas now db userId misses) user termId
  = term_gate_before_ledger db user termId.
Proof.
  unfold updateWeakAreas. destruct (length misses =? 0)%nat; reflexivity.
Qed.

(** X19: recording misses never opens a term: under the constraints of the
    ledger table, a term that [canAccessTerm] grants after an update was
    granted before it, for every user and every term. *)
Theorem updateWeakAreas_never_opens_a_term now (db : Database)
    (userId : string) (misses : list IncorrectConcept)
    (user termId : string) :
  ledger_ok (weak_areas db) ->
  accessible (canAccessTerm (updateWeakAreas now db userId misses)
                            user termId) = true ->
  accessible (canAccessTerm db user termId) = true.
Proof.
  intros Hok. rewrite !canAccessTerm_normal_form.
  rewrite term_gate_before_ledger_update.
  destruct (term_gate_before_ledger db user termId) as [r |]; [auto |].
  rewrite !review_verdict_accessible. intros Hnone.
  destruct (getRequiredReviews db user) as [| tag tags] eqn:E;
    [reflexivity | exfalso].
  assert (Htag : tag ∈ getRequiredReviews db user) by (rewrite E; left).
  apply (required_reviews_count db user tag Hok) in Htag.
  assert (Hafter : tag ∈ getRequiredReviews
                           (updateWeakAreas now db userId misses) user).
  { apply required_reviews_count;
      [apply (updateWeakAreas_rows now db userId misses Hok) |].
    rewrite (updateWeakAreas_counts now db userId misses Hok).
    unfold recorded_misses. pose proof (misses_of_nonneg tag misses).
    destruct (decide (user = userId)); lia. }
  rewrite Hnone in Hafter. inversion Hafter.
Qed.

Lemma updateWeakAreas_never_opens_a_term_witness :
  let db := mkDatabase [mkYear "y1" 1]
              [mkTerm "t1" "y1" 1; mkTerm "t2" "y1" 2] [] [] [] [] in
  let misses := [mkIncorrectConcept "centers" "q1"] in
  ledger_ok (weak_areas db) /\
  accessible (canAccessTerm (updateWeakAreas 5 db "u" misses) "u" "t2")
    = true /\
  accessible (canAccessTerm db "u" "t2") = true.
Proof.
  cbv zeta.
  assert (H : ledger_ok []) by (split; apply NoDup_nil_2).
  split; [exact H |]. split; [reflexivity |].
  apply (updateWeakAreas_never_opens_a_term 5
           (mkDatabase [mkYear "y1" 1]
                       [mkTerm "t1" "y1" 1; mkTerm "t2" "y1" 2] [] [] [] [])
           "u" [mkIncorrectConcept "centers" "q1"] "u" "t2");
    [exact H | reflexivity].
Defined.

Lemma has_passing_attempt_added (db db' : Database) (user assessmentId : string) :
  (forall a, a ∈ assessment_attempts db -> a ∈ assessment_attempts db') ->
  has_passing_attempt db user assessmentId ->
  has_passing_attempt db' user assessmentId.
Proof. intros Hsub (a & Ha & H). exists a. auto. Qed.

Lemma passingAttempt_added (db db' : Database) (user assessmentId : string) :
  (forall a, a ∈ assessment_attempts db -> a ∈ assessment_attempts db') ->
  is_Some (passingAttempt db user assessmentId) ->
  is_Some (passingAttempt db' user assessmentId).
Proof.
  intros Hsub H. apply passingAttempt_Some.
  apply (has_passing_attempt_added db db'); [exact Hsub |].
  apply passingAttempt_Some. exact H.
Qed.

Lemma termExamOf_added (db db' : Database) (termId : string) :
  assessments db' = assessments db ->
  termExamOf db' termId = termExamOf db termId.
Proof. intros H. unfold termExamOf. rewrite H. reflexivity. Qed.

Lemma term_exams_loop_added (db db' : Database) (user : string)
    (ts : list Term) :
  attempts_added db db' ->
  term_exams_loop db user ts = None -> term_exams_loop db' user ts = None.
Proof.
  intros (_ & _ & Ha & _ & _ & Hsub). rewrite !term_exams_loop_None.
  intros H t exam Ht Hexam. rewrite (termExamOf_added db db') in Hexam by exact Ha.
  apply (has_passing_attempt_added db db'); [exact Hsub |]. eauto.
Qed.

(** X20: recording further assessment attempts never takes access away: a
    term or a year that is accessible stays accessible when attempts are
    added and every other table is unchanged. *)
Theorem further_attempts_keep_access (db db' : Database)
    (userId termId yearId : string) :
  attempts_added db db' ->
  (accessible (canAccessTerm db userId termId) = true ->
   accessible (canAccessTerm db' userId termId) = true) /\
  (accessible (canAccessYear db userId yearId) = true ->
   accessible (canAccessYear db' userId yearId) = true).
Proof.
  intros Hadded.
  pose proof Hadded as (Hy & Ht & Ha & Htr & Hw & Hsub).
  split.
  - unfold canAccessTerm. rewrite Ht, Hw.
    destruct (single (filter _ (terms db))) as [term |]; [| auto].
    destruct (term_order term =? 1); [auto |].
    destruct (single (filter _ (terms db))) as [prevTerm |]; [| auto].
    rewrite (termExamOf_added db db') by exact Ha.
    destruct (termExamOf db (term_id prevTerm)) as [exam |]; [| auto].
    destruct (passingAttempt db userId (assessment_id exam)) as [a |] eqn:E;
      [| discriminate].
    destruct (passingAttempt_added db db' userId (assessment_id exam) Hsub)
      as [a' ->]; [rewrite E; eauto | auto].
  - unfold canAccessYear. rewrite Hy, Ht.
    destruct (single (filter _ (years db))) as [year |]; [| auto].
    destruct (year_order year =? 1); [auto |].
    destruct (single (filter _ (years db))) as [prevYear |]; [| auto].
    destruct (length _ =? 0)%nat; [auto |].
    destruct (term_exams_loop db userId _) as [denied |] eqn:Eloop.
    { rewrite (term_exams_loop_Some _ _ _ _ Eloop). discriminate. }
    rewrite (term_exams_loop_added db db' userId _ Hadded Eloop).
    unfold cumulativeReviewOf. rewrite Ha.
    assert (Hgpa : gpa_check db' userId (year_id prevYear)
                   = gpa_check db userId (year_id prevYear))
      by (unfold gpa_check; rewrite Htr; reflexivity).
    rewrite Hgpa.
    destruct (single (filter _ (assessments db))) as [review |]; [| auto].
    destruct (passingAttempt db userId (assessment_id review)) as [a |] eqn:E;
      [| discriminate].
    destruct (passingAttempt_added db db' userId (assessment_id review) Hsub)
      as [a' ->]; [rewrite E; eauto | auto].
Qed.

Lemma further_attempts_keep_access_witness :
  let db := year_gate_db [] in
  let db' := mkDatabase (years db) (terms db) (assessments db)
               (mkAttempt "a3" "u" "e1" 40 false 2 3000
                  :: assessment_attempts db)
               (transcript_entries db) (weak_areas db) in
  attempts_added db db' /\
  (accessible (canAccessTerm db "u" "t2") = true ->
   accessible (canAccessTerm db' "u" "t2") = true) /\
  (accessible (canAccessYear db "u" "y2") = true ->
   accessible (canAccessYear db' "u" "y2") = true).
Proof.
  cbv zeta.
  assert (H : attempts_added (year_gate_db [])
                (mkDatabase (years (year_gate_db [])) (terms (year_gate_db []))
                   (assessments (year_gate_db []))
                   (mkAttempt "a3" "u" "e1" 40 false 2 3000
                      :: assessment_attempts (year_gate_db []))
                   (transcript_entries (year_gate_db []))
                   (weak_areas (year_gate_db [])))).
  { repeat split. intros a Ha. right. exact Ha. }
  split; [exact H |].
  apply further_attempts_keep_access. exact H.
Defined.

Lemma term_exams_loop_denied (db : Database) (userId : string)
    (ts : list Term) (denied : AccessResult) :
  term_exams_loop db userId ts = Some denied ->
  denied = deny year_exams_message.
Proof.
  induction ts as [| t ts IH]; cbn [term_exams_loop]; [discriminate |].
  destruct (termExamOf db (term_id t)); [| exact IH].
  destruct (passingAttempt db userId _); [exact IH |].
  intros H. injection H as <-. reflexivity.
Qed.

Lemma canAccessTerm_shape (db : Database) (userId termId : string) :
  canAccessTerm db userId termId = allow \/
  exists why, canAccessTerm db userId termId = deny why.
Proof.
  unfold canAccessTerm.
  repeat match goal with
         | |- context [match ?x with _ => _ end] => destruct x
         | |- context [if ?x then _ else _] => destruct x
         end; eauto.
Qed.

Lemma canAccessYear_shape (db : Database) (userId yearId : string) :
  canAccessYear db userId yearId = allow \/
  exists why, canAccessYear db userId yearId = deny why.
Proof.
  unfold canAccessYear, gpa_check.
  destruct (single (filter _ (years db))) as [year |]; [| eauto].
  destruct (year_order year =? 1); [eauto |].
  destruct (single (filter _ (years db))) as [prevYear |]; [| eauto].
  destruct (length _ =? 0)%nat; [eauto |].
  destruct (term_exams_loop db userId _) as [denied |] eqn:Eloop.
  { rewrite (term_exams_loop_denied _ _ _ _ Eloop). eauto. }
  repeat match goal with
         | |- context [match ?x with _ => _ end] => destruct x
         | |- context [if ?x then _ else _] => destruct x
         end; eauto.
Qed.

Lemma by_error_count_desc_total : Total by_error_count_desc.
Proof. intros a b. unfold by_error_count_desc. lia. Qed.

Lemma by_error_count_desc_trans : Transitive by_error_count_desc.
Proof. intros a b c. unfold by_error_count_desc. lia. Qed.

Lemma StronglySorted_filter {A} (R : relation A) (P : A -> Prop)
    `{!forall x, Decision (P x)} (l : list A) :
  StronglySorted R l -> StronglySorted R (filter P l).
Proof.
  induction 1 as [| a l Hl IH Ha]; [constructor |].
  rewrite filter_cons. destruct (decide (P a)); [| exact IH].
  constructor; [exact IH |].
  apply Forall_forall. intros x Hx.
  apply list_elem_of_filter in Hx as [_ Hx].
  rewrite Forall_forall in Ha. auto.
Qed.

(** X21: the dashboard, fed with [getWeakAreas], lists under "Required
    Reviews" the same concept tags, each as often, as [getRequiredReviews]
    returns for the user, with the highest error counts first. *)
Theorem dashboard_lists_required_reviews (db : Database) (userId : string) :
  map item_concept_tag (required_reviews_section (getWeakAreas db userId))
    ≡ₚ getRequiredReviews db userId /\
  StronglySorted by_error_count_desc (requiredReviews (getWeakAreas db userId)).
Proof.
  pose proof by_error_count_desc_total as Htotal.
  pose proof by_error_count_desc_trans as Htrans.
  split.
  - unfold required_reviews_section. rewrite map_map. cbn [item_concept_tag].
    rewrite required_reviews_of_rows.
    apply fmap_Permutation. unfold requiredReviews, getWeakAreas.
    apply filter_Permutation. apply merge_sort_Permutation.
  - unfold requiredReviews, getWeakAreas.
    apply StronglySorted_filter. apply StronglySorted_merge_sort; assumption.
Qed.

(** ** Grade point average *)

Lemma gpa_weight_pos (e : GradeEntry) :
  ge_assessment_type e <> lesson_check ->
  (0 < gpa_weight (ge_assessment_type e))%Q.
Proof. destruct e as [[] sc]; cbn; intros H; try reflexivity. congruence. Qed.

Lemma counted_idemp (es : list GradeEntry) : counted (counted es) = counted es.
Proof. unfold counted. apply list_filter_filter_l. auto. Qed.

Lemma weighted_sum_between (lo hi : Q) (es : list GradeEntry) :
  Forall (fun s => (lo <= s)%Q /\ (s <= hi)%Q) (counted_scores es) ->
  (lo * total_weight es <= weighted_sum es)%Q /\
  (weighted_sum es <= hi * total_weight es)%Q /\
  (0 <= total_weight es)%Q.
Proof.
  unfold counted_scores, weighted_sum, total_weight, counted.
  induction es as [| e es IH].
  - rewrite filter_nil. cbn. intros _. lra.
  - rewrite filter_cons.
    destruct (decide (ge_assessment_type e <> lesson_check)) as [Hc | Hc];
      [| exact IH].
    cbn [map]. intros HF. inversion HF as [| ? ? [Hlo Hhi] HF']; subst.
    destruct (IH HF') as (H1 & H2 & H3). clear IH HF HF'.
    rewrite !Qsum_cons.
    pose proof (gpa_weight_pos e Hc) as Hpos.
    set (w := gpa_weight (ge_assessment_type e)) in *. clearbody w.
    set (sc := ge_score e) in *. clearbody sc.
    set (s1 := Qsum (map (fun _ => (_ * _)%Q) _)) in *. clearbody s1.
    set (s2 := Qsum _) in *. clearbody s2.
    assert (Ha : (lo * w <= sc * w)%Q).
    { apply Qmult_le_compat_r; lra. }
    assert (Hb : (sc * w <= hi * w)%Q).
    { apply Qmult_le_compat_r; lra. }
    repeat split; lra.
Qed.

(** X23: the GPA stays within the range of the scores it averages: when
    every score of an entry other than a lesson check lies between the
    integers [lo] and [hi], so does the value [computeGPA] returns; for
    scores between 0 and 100 the GPA is between 0 and 100. *)
Theorem computeGPA_within_scores (lo hi : Z) (es : list GradeEntry) (gpa : Q) :
  Forall (fun s => (inject_Z lo <= s)%Q /\ (s <= inject_Z hi)%Q)
         (counted_scores es) ->
  computeGPA es = Some gpa ->
  (inject_Z lo <= gpa)%Q /\ (gpa <= inject_Z hi)%Q.
Proof.
  intros HF. destruct (weighted_sum_between _ _ es HF) as (H1 & H2 & H3).
  unfold computeGPA.
  destruct (gpa_loop es 0 0) as [Hs Hw].
  set (acc := fold_left gpa_step es (0%Q, 0%Q)) in *.
  rewrite Qplus_0_l in Hs, Hw.
  destruct (Qeq_bool (snd acc) 0) eqn:E; [discriminate |].
  intros Hg. injection Hg as <-.
  assert (Hnz : ~ (total_weight es == 0)%Q).
  { intros Hz. rewrite <- Hw in Hz. apply Qeq_bool_iff in Hz. congruence. }
  assert (Hpos : (0 < total_weight es)%Q) by lra.
  set (x := (fst acc / snd acc * 100)%Q).
  assert (Hx : (inject_Z (lo * 100) <= x)%Q /\ (x <= inject_Z (hi * 100))%Q).
  { unfold x. rewrite Hs, Hw. rewrite !inject_Z_mult.
    change (inject_Z 100) with 100%Q.
    set (W := total_weight es) in *. set (S := weighted_sum es) in *.
    clearbody W S.
    assert (Hlo : (inject_Z lo <= S / W)%Q).
    { apply Qle_shift_div_l; assumption. }
    assert (Hhi : (S / W <= inject_Z hi)%Q).
    { apply Qle_shift_div_r; assumption. }
    set (q := (S / W)%Q) in *. clearbody q.
    set (a := inject_Z lo) in *. set (b := inject_Z hi) in *. clearbody a b.
    lra. }
  destruct Hx as [Hxlo Hxhi].
  apply Math_round_mono in Hxlo, Hxhi. rewrite Math_round_inject in Hxlo, Hxhi.
  set (k := Math_round x) in *. clearbody k.
  unfold Qdiv. change (/ 100)%Q with (1 # 100)%Q.
  rewrite Zle_Qle in Hxlo, Hxhi. rewrite !inject_Z_mult in Hxlo, Hxhi.
  change (inject_Z 100) with 100%Q in *.
  set (a := inject_Z lo) in *. set (b := inject_Z hi) in *.
  set (c := inject_Z k) in *. clearbody a b c.
  split; lra.
Qed.

Lemma computeGPA_within_scores_witness :
  Forall (fun s => (inject_Z 0 <= s)%Q /\ (s <= inject_Z 100)%Q)
         (counted_scores [mkGradeEntry module_exam 80;
                          mkGradeEntry lesson_check 250;
                          mkGradeEntry term_exam 90]) /\
  (inject_Z 0 <= 8667 # 100)%Q /\ (8667 # 100 <= inject_Z 100)%Q.
Proof.
  assert (H : Forall (fun s => (inject_Z 0 <= s)%Q /\ (s <= inject_Z 100)%Q)
                (counted_scores [mkGradeEntry module_exam 80;
                                 mkGradeEntry lesson_check 250;
                                 mkGradeEntry term_exam 90])).
  { repeat constructor; cbn; discriminate. }
  split; [exact H |].
  exact (computeGPA_within_scores 0 100 _ _ H eq_refl).
Defined.

(** ** The quiz routes *)

Import LessonProgression QuizRoutes.
Import LessonBehaviour.

Lemma build_lookups_snoc (raw : list Answer) (a : Answer) :
  build_lookups (raw ++ [a]) = lookup_step (build_lookups raw) a.
Proof. unfold build_lookups. rewrite fold_left_app. reflexivity. Qed.

(** The lookup maps hold, for every key, the last fetched answer with that
    key. *)
Lemma build_lookups_last (raw : list Answer) :
  (forall q,
     fst (build_lookups raw) !! q =
     last (filter (fun a => answer_is_correct a = true /\
                            answer_question_id a = q) raw)) /\
  (forall id,
     snd (build_lookups raw) !! id =
     last (filter (fun a => answer_id a = id) raw)).
Proof.
  induction raw as [| a raw [IHc IHa]] using rev_ind.
  - split; intros; apply lookup_empty.
  - rewrite build_lookups_snoc. unfold lookup_step.
    split.
    + intros q. rewrite filter_app, filter_cons, filter_nil.
      destruct (answer_is_correct a) eqn:Ha; cbn [fst].
      * destruct (decide (answer_question_id a = q)) as [<- | Hq].
        -- rewrite lookup_insert_eq.
           rewrite decide_True by auto.
           rewrite last_snoc. reflexivity.
        -- rewrite lookup_insert_ne by exact Hq.
           rewrite decide_False by (intros [_ ?]; contradiction).
           rewrite app_nil_r. apply IHc.
      * rewrite decide_False by (intros [? _]; discriminate).
        rewrite app_nil_r. apply IHc.
    + intros id. rewrite filter_app, filter_cons, filter_nil.
      assert (Hs : snd (if answer_is_correct a
                        then (<[answer_question_id a:=a]> (build_lookups raw).1,
                              <[answer_id a:=a]> (build_lookups raw).2)
                        else ((build_lookups raw).1,
                              <[answer_id a:=a]> (build_lookups raw).2))
                   = <[answer_id a:=a]> (build_lookups raw).2).
      { destruct (answer_is_correct a); reflexivity. }
      rewrite Hs.
      destruct (decide (answer_id a = id)) as [<- | Hid].
      * rewrite lookup_insert_eq, last_snoc. reflexivity.
      * rewrite lookup_insert_ne by exact Hid. rewrite app_nil_r. apply IHa.
Qed.

Lemma ascending_trans {A} (column : A -> Z) : Transitive (ascending column).
Proof. intros a b d. unfold ascending. lia. Qed.

Lemma ascending_total {A} (column : A -> Z) : Total (ascending column).
Proof. intros a b. unfold ascending. lia. Qed.

Lemma order_by_sorted {A} (column : A -> Z) (rows : list A) :
  StronglySorted (ascending column) (order_by column rows) /\
  order_by column rows ≡ₚ rows.
Proof.
  split; [| apply merge_sort_Permutation].
  apply StronglySorted_merge_sort;
    [apply ascending_trans | apply ascending_total].
Qed.

Lemma fetch_questions_Permutation (c : Content) (quizId : string) :
  fetch_questions c quizId ≡ₚ quiz_questions c quizId.
Proof. apply merge_sort_Permutation. Qed.

Lemma fetch_questions_empty (c : Content) (quizId : string) :
  (length (fetch_questions c quizId) =? 0)%nat = true <->
  quiz_questions c quizId = [].
Proof.
  rewrite (Permutation_length (fetch_questions_Permutation c quizId)).
  rewrite Nat.eqb_eq. apply length_zero_iff_nil.
Qed.

Lemma truthy_string_empty (s : string) : truthy_string s = false <-> s = "".
Proof. destruct s; cbn; split; intros H; congruence. Qed.

(** What the routes find in the lookup of correct answers. *)
Lemma route_lookup (c : Content) (ids : list string) (q : string) :
  (forall a,
     fst (build_lookups (fetch_answers c ids)) !! q = Some a ->
     a ∈ answer_rows c /\ answer_is_correct a = true /\
     answer_question_id a = q) /\
  (q ∈ ids ->
   (is_Some (fst (build_lookups (fetch_answers c ids)) !! q) <->
    has_correct_answer c q)).
Proof.
  destruct (build_lookups_last (fetch_answers c ids)) as [Hlast _].
  rewrite Hlast. unfold fetch_answers. split.
  - intros a Ha. apply last_Some_elem_of in Ha.
    apply list_elem_of_filter in Ha as [[Hc Hq] Ha].
    apply list_elem_of_filter in Ha as [_ Ha]. auto.
  - intros Hq. rewrite last_is_Some. unfold has_correct_answer.
    rewrite Exists_exists. split.
    + intros Hne.
      destruct (filter _ (filter _ (answer_rows c))) as [| a rest] eqn:E;
        [contradiction |].
      assert (Ha : a ∈ a :: rest) by left. rewrite <- E in Ha.
      apply list_elem_of_filter in Ha as [[Hc Hqa] Ha].
      apply list_elem_of_filter in Ha as [_ Ha]. eauto.
    + intros (a & Ha & Hqa & Hc) Hnil.
      assert (Hin : a ∈ filter (fun a => answer_is_correct a = true /\
                                         answer_question_id a = q)
                      (filter (fun a => answer_question_id a ∈ ids)
                              (answer_rows c))).
      { apply list_elem_of_filter. split; [auto |].
        apply list_elem_of_filter. split; [| exact Ha].
        rewrite Hqa. exact Hq. }
      rewrite Hnil in Hin. inversion Hin.
Qed.

(** X24: the evaluate route fetches the question rows of the quiz sorted
    by their [order] column and grades, in that order, exactly those that
    have an answer flagged correct in the [answers] table;
    [total_questions] counts every question row of the quiz, and the
    correct answer each feedback entry shows is a row of the table flagged
    correct for that question. *)
Theorem evaluate_grades_questions_with_a_correct_answer (c : Content)
    (user : option string) (body : Submission) (result : QuizResult) :
  evaluate_POST c user body = json_evaluated result ->
  fetch_questions c (submission_target_id body)
    ≡ₚ quiz_questions c (submission_target_id body) /\
  StronglySorted (ascending row_order)
                 (fetch_questions c (submission_target_id body)) /\
  qr_total_questions result
    = Z.of_nat (length (quiz_questions c (submission_target_id body))) /\
  map fb_question_id (qr_feedback result)
    = filter (has_correct_answer c) (asked c (submission_target_id body)) /\
  Forall (shows_a_correct_answer c) (qr_feedback result).
Proof.
  unfold evaluate_POST. destruct user as [userId |]; [| discriminate].
  destruct (negb _); [discriminate |].
  destruct (length _ =? 0)%nat; [discriminate |].
  intros Hr. injection Hr as <-.
  set (quizId := submission_target_id body).
  set (qs := fetch_questions c quizId).
  unfold grade. cbn [fst].
  change (map (fun q => question_id (row_question q)) qs)
    with (asked c quizId).
  set (raw := fetch_answers c (asked c quizId)).
  destruct (evaluateQuiz_closed_form body (map row_question qs)
              (fst (build_lookups raw)) (snd (build_lookups raw)))
    as (Hfb & _ & Htotal).
  split; [| split; [| split; [| split]]].
  - apply fetch_questions_Permutation.
  - apply order_by_sorted.
  - rewrite Htotal, length_map. unfold qs.
    rewrite (Permutation_length (fetch_questions_Permutation c quizId)).
    reflexivity.
  - rewrite Hfb, omap_entry_ids, map_map. fold (asked c quizId).
    apply filter_ext_in. intros q Hq.
    apply (proj2 (route_lookup c (asked c quizId) q)). exact Hq.
  - rewrite Hfb. apply Forall_forall. intros f Hf.
    apply elem_of_omap_entry in Hf as (q & Hq & Hf).
    unfold feedback_entry in Hf.
    destruct (fst (build_lookups raw) !! question_id q) as [a |] eqn:Ha;
      [| discriminate].
    injection Hf as <-.
    destruct (proj1 (route_lookup c (asked c quizId) (question_id q)) a Ha)
      as (Hin & Hc & Hqa).
    exists a. cbn. auto.
Qed.

(** X25: the submit route grades a request exactly when the user is signed
    in, [quiz_id] and [answers] are not empty, exactly one quiz has the id
    and the quiz has a question; otherwise it answers 400, 401 or 404 and
    leaves every table as it was.  A result it returns is the result the
    evaluate route returns for the same request. *)
Theorem submit_writes_only_on_success (now : Z) (db : Database) (c : Content)
    (user : option string) (body : Submission) :
  (submit_accepts c user body <->
   exists result action n,
     fst (fst (submit_POST now db c user body)) = json_submitted result action n) /\
  (~ submit_accepts c user body ->
   exists error status,
     submit_POST now db c user body = (json_error error status, db, c) /\
     status ∈ [400; 401; 404]) /\
  (forall result action n,
     fst (fst (submit_POST now db c user body)) = json_submitted result action n ->
     evaluate_POST c user body = json_evaluated result).
Proof.
  unfold submit_accepts, submit_POST, evaluate_POST.
  destruct user as [userId |].
  2: { split; [| split].
       - split; [intros [[? ?] _]; discriminate |].
         intros (? & ? & ? & ?); discriminate.
       - intros _. exists "Authentication required", 401.
         split; [reflexivity |]. set_solver.
       - intros ? ? ? ?; discriminate. }
  destruct (truthy_string (submission_target_id body)) eqn:Hid; cbn [negb orb].
  2: { apply truthy_string_empty in Hid. split; [| split].
       - split; [intros (_ & Hne & _); contradiction |].
         intros (? & ? & ? & ?); discriminate.
       - intros _. exists "quiz_id and answers are required", 400.
         split; [reflexivity |]. set_solver.
       - intros ? ? ? ?; discriminate. }
  assert (Hid' : submission_target_id body <> "").
  { intros E. apply truthy_string_empty in E. congruence. }
  destruct (length (answers body) =? 0)%nat eqn:Hans.
  { apply Nat.eqb_eq, length_zero_iff_nil in Hans. split; [| split].
    - split; [intros (_ & _ & Hne & _); contradiction |].
      intros (? & ? & ? & ?); discriminate.
    - intros _. exists "quiz_id and answers are required", 400.
      split; [reflexivity |]. set_solver.
    - intros ? ? ? ?; discriminate. }
  assert (Hans' : answers body <> []).
  { intros E. rewrite E in Hans. discriminate. }
  destruct (single (filter _ (quizzes c))) as [quiz |] eqn:Hquiz.
  2: { split; [| split].
       - split; [| intros (? & ? & ? & ?); discriminate].
         intros (_ & _ & _ & [quiz Hq] & _).
         apply single_Some in Hq. congruence.
       - intros _. exists "Quiz not found", 404.
         split; [reflexivity |]. set_solver.
       - intros ? ? ? ?; discriminate. }
  apply single_Some in Hquiz.
  destruct (length (fetch_questions c _) =? 0)%nat eqn:Hqs.
  { apply fetch_questions_empty in Hqs. split; [| split].
    - split; [intros (_ & _ & _ & _ & Hne); contradiction |].
      intros (? & ? & ? & ?); discriminate.
    - intros _. exists "No questions found for this quiz", 404.
      split; [reflexivity |]. set_solver.
    - intros ? ? ? ?; discriminate. }
  assert (Hqs' : quiz_questions c (submission_target_id body) <> []).
  { intros E. apply fetch_questions_empty in E. congruence. }
  split; [| split].
  - split; [intros _; cbn [fst]; eauto |].
    intros _. repeat split; eauto.
  - intros Hn. exfalso. apply Hn. repeat split; eauto.
  - cbn [fst]. intros result action n Hr. injection Hr as <- _ _. reflexivity.
Qed.

Lemma evaluate_grades_questions_with_a_correct_answer_witness :
  let c := course [] [] in
  let body := mkSubmission "z2" [mkSubmittedAnswer "q3" "c1";
                                 mkSubmittedAnswer "q4" "d1"] in
  let result := fst (grade c body (fetch_questions c "z2")) in
  evaluate_POST c (Some "u") body = json_evaluated result /\
  qr_total_questions result = 2 /\
  map fb_question_id (qr_feedback result) = ["q4"].
Proof.
  cbv zeta.
  assert (H : evaluate_POST (course [] []) (Some "u")
                (mkSubmission "z2" [mkSubmittedAnswer "q3" "c1";
                                    mkSubmittedAnswer "q4" "d1"])
              = json_evaluated
                  (fst (grade (course [] [])
                          (mkSubmission "z2" [mkSubmittedAnswer "q3" "c1";
                                              mkSubmittedAnswer "q4" "d1"])
                          (fetch_questions (course [] []) "z2"))))
    by reflexivity.
  split; [exact H |].
  split.
  - exact (proj1 (proj2 (proj2
             (evaluate_grades_questions_with_a_correct_answer _ _ _ _ H)))).
  - exact (proj1 (proj2 (proj2 (proj2
             (evaluate_grades_questions_with_a_correct_answer _ _ _ _ H))))).
Defined.

(** The outcome of a request the submit route grades. *)
Lemma submit_success (now : Z) (db : Database) (c : Content)
    (userId : string) (body : Submission) (result : QuizResult)
    (action : option RetryAction) (n : Z) (db' : Database) (c' : Content) :
  submit_POST now db c (Some userId) body
    = (json_submitted result action n, db', c') ->
  exists quiz,
    filter (fun q => quiz_id q = submission_target_id body) (quizzes c)
      = [quiz] /\
    result = fst (grade c body (fetch_questions c (submission_target_id body)))
    /\
    n = getAttemptCount c userId (submission_target_id body) + 1 /\
    action = (if qr_passed result then None else Some (getRetryAction n)) /\
    c' = set_progress_rows
           (set_quiz_attempts c
              (insert_quiz_attempt now userId (submission_target_id body)
                 (qr_score result) (qr_passed result)
                 (answersGiven
                    (snd (grade c body
                            (fetch_questions c (submission_target_id body))))
                    (answers body))
                 (quiz_attempts c)))
           (upsert_progress now userId (quiz_lesson_id quiz)
              (qr_passed result) (qr_score result) (progress_rows c)) /\
    db' = (if (0 <? length (extractIncorrectConcepts (qr_feedback result)))%nat
           then updateWeakAreas now db userId
                  (extractIncorrectConcepts (qr_feedback result))
           else db).
Proof.
  unfold submit_POST.
  destruct (negb _ || _); [discriminate |].
  destruct (single (filter _ (quizzes c))) as [quiz |] eqn:Hquiz;
    [| discriminate].
  apply single_Some in Hquiz.
  destruct (length (fetch_questions c _) =? 0)%nat; [discriminate |].
  intros H. injection H as <- <- <- <- <-.
  exists quiz. repeat split; auto.
Qed.

Lemma getAttemptCount_snoc (c : Content) (rows : list QuizAttempt)
    (row : QuizAttempt) (progress : list Progress) (u q : string) :
  getAttemptCount
    (set_progress_rows (set_quiz_attempts c (rows ++ [row])) progress) u q
  = Z.of_nat (length (filter (fun a => qa_user_id a = u /\ qa_quiz_id a = q)
                             rows))
    + (if decide (qa_user_id row = u /\ qa_quiz_id row = q) then 1 else 0).
Proof.
  unfold getAttemptCount.
  cbn [quiz_attempts set_progress_rows set_quiz_attempts].
  rewrite filter_app, length_app, filter_cons, filter_nil.
  destruct (decide _); cbn [length]; lia.
Qed.

(** X26: a graded request is numbered and stored: [attempt_number] is one
    more than the attempts the user had at the quiz, and it is the count
    [getAttemptCount] returns afterwards, while the count of every other
    (user, quiz) pair is unchanged; exactly one row is added to
    [quiz_attempts], carrying the result; [retry_action] is null exactly
    when the result is passed and otherwise the action [getRetryAction]
    gives for this attempt number. *)
Theorem submit_numbers_and_stores_the_attempt (now : Z) (db : Database)
    (c : Content) (userId : string) (body : Submission) (result : QuizResult)
    (action : option RetryAction) (n : Z) (db' : Database) (c' : Content) :
  submit_POST now db c (Some userId) body
    = (json_submitted result action n, db', c') ->
  n = getAttemptCount c userId (submission_target_id body) + 1 /\
  getAttemptCount c' userId (submission_target_id body) = n /\
  (forall u q,
     (u, q) <> (userId, submission_target_id body) ->
     getAttemptCount c' u q = getAttemptCount c u q) /\
  (exists row,
     quiz_attempts c' = quiz_attempts c ++ [row] /\
     attempt_stored (quiz_attempts c) userId (submission_target_id body)
                    result row) /\
  (action = None <-> qr_passed result = true) /\
  (forall a, action = Some a -> a = getRetryAction n).
Proof.
  intros Hs.
  destruct (submit_success _ _ _ _ _ _ _ _ _ _ Hs)
    as (quiz & Hquiz & Hres & Hn & Hact & Hc & Hdb).
  set (quizId := submission_target_id body) in *.
  unfold insert_quiz_attempt in Hc.
  split; [exact Hn |]. split; [| split; [| split; [| split]]].
  - rewrite Hc, getAttemptCount_snoc. cbn [qa_user_id qa_quiz_id].
    rewrite decide_True by auto. rewrite Hn. reflexivity.
  - intros u q Hne. rewrite Hc, getAttemptCount_snoc.
    cbn [qa_user_id qa_quiz_id].
    rewrite decide_False by (intros [-> ->]; contradiction).
    unfold getAttemptCount. lia.
  - eexists. split.
    + rewrite Hc. cbn [quiz_attempts set_progress_rows set_quiz_attempts].
      reflexivity.
    + unfold attempt_stored. cbn.
      repeat split; try reflexivity.
      * unfold uuid_generate_v4. intros Hin.
        exact (infinite_is_fresh _ Hin).
      * rewrite Hres. unfold grade, evaluateQuiz. cbn [fst qr_passed qr_score].
        intros H. apply Qle_bool_iff in H. exact H.
      * rewrite Hres. unfold grade, evaluateQuiz. cbn [fst qr_passed qr_score].
        intros H. apply Qle_bool_iff. exact H.
  - rewrite Hact. destruct (qr_passed result); split; intros H;
      try reflexivity; discriminate.
  - intros a Ha. rewrite Hact in Ha. destruct (qr_passed result);
      [discriminate |]. injection Ha as <-. reflexivity.
Qed.

Lemma submit_numbers_and_stores_the_attempt_witness :
  let c := course passed_z1 completed_l1 in
  let out := submit_POST 5 empty_db c (Some "u") z1_one_wrong in
  out = (json_submitted (fst (grade c z1_one_wrong (fetch_questions c "z1")))
                        (Some (getRetryAction 2)) 2,
         snd (fst out), snd out) /\
  getAttemptCount (snd out) "u" "z1" = 2.
Proof.
  cbv zeta.
  assert (H : submit_POST 5 empty_db (course passed_z1 completed_l1) (Some "u")
                     z1_one_wrong
              = (json_submitted
                   (fst (grade (course passed_z1 completed_l1) z1_one_wrong
                           (fetch_questions (course passed_z1 completed_l1)
                                            "z1")))
                   (Some (getRetryAction 2)) 2,
                 snd (fst (submit_POST 5 empty_db (course passed_z1 completed_l1)
                                  (Some "u") z1_one_wrong)),
                 snd (submit_POST 5 empty_db (course passed_z1 completed_l1)
                             (Some "u") z1_one_wrong))).
  { vm_compute. reflexivity. }
  split; [exact H |].
  exact (proj1 (proj2 (submit_numbers_and_stores_the_attempt
                         _ _ _ _ _ _ _ _ _ _ H))).
Defined.

Lemma progress_filter_key (rows : list Progress) (u l : string) :
  filter (fun row => progress_user_id row = u /\ progress_lesson_id row = l)
         rows
  = filter (fun row => progress_key row = (u, l)) rows.
Proof.
  apply filter_ext_in. intros row _. unfold progress_key. split.
  - intros [-> ->]. reflexivity.
  - intros H. injection H as -> ->. auto.
Qed.

(** The row written by an upsert over a matching row. *)
Definition overwritten (now : Z) (userId lessonId : string) (completed : bool)
    (lastScore : Q) (row : Progress) : Progress :=
  if decide (progress_user_id row = userId /\ progress_lesson_id row = lessonId)
  then mkProgress (progress_id row) userId lessonId completed (Some lastScore)
                  now
  else row.

Lemma overwritten_key now u l completed score (row : Progress) :
  progress_key (overwritten now u l completed score row) = progress_key row /\
  progress_id (overwritten now u l completed score row) = progress_id row.
Proof.
  unfold overwritten, progress_key.
  destruct (decide _) as [[-> ->] |]; cbn; auto.
Qed.

Lemma overwritten_hit now u l completed score (row : Progress) :
  progress_user_id row = u /\ progress_lesson_id row = l ->
  overwritten now u l completed score row
  = mkProgress (progress_id row) u l completed (Some score) now.
Proof.
  intros H. unfold overwritten. rewrite decide_True by exact H. reflexivity.
Qed.

Lemma overwritten_miss now u l completed score (row : Progress) :
  ~ (progress_user_id row = u /\ progress_lesson_id row = l) ->
  overwritten now u l completed score row = row.
Proof.
  intros H. unfold overwritten. rewrite decide_False by exact H. reflexivity.
Qed.

Lemma upsert_progress_ok now u l completed score (rows : list Progress) :
  progress_ok rows ->
  progress_ok (upsert_progress now u l completed score rows).
Proof.
  intros [Hid Hkey]. unfold upsert_progress.
  destruct (decide (Exists _ rows)) as [Hex | Hex].
  - fold (overwritten now u l completed score).
    unfold progress_ok. rewrite !map_map.
    rewrite (map_ext
               (fun x => progress_id (overwritten now u l completed score x))
               progress_id)
      by (intros x; apply overwritten_key).
    rewrite (map_ext
               (fun x => progress_key (overwritten now u l completed score x))
               progress_key)
      by (intros x; apply overwritten_key).
    auto.
  - unfold progress_ok. rewrite !map_app. cbn [map progress_id progress_key].
    split; apply NoDup_app; (split; [assumption |]); split;
      try apply NoDup_singleton.
    + intros x Hx Hx'. apply list_elem_of_singleton in Hx'. subst x.
      unfold uuid_generate_v4 in Hx. exact (infinite_is_fresh _ Hx).
    + intros x Hx Hx'. apply list_elem_of_singleton in Hx'. subst x.
      apply Hex. apply Exists_exists.
      apply list_elem_of_fmap in Hx as (row & Hrow & Hin).
      exists row. injection Hrow as Hu Hl. split; [exact Hin | auto].
Qed.

Lemma upsert_progress_of now u l completed score (rows : list Progress) :
  (exists row,
     progress_of (upsert_progress now u l completed score rows) u l
       = Some row /\
     progress_user_id row = u /\ progress_lesson_id row = l /\
     progress_completed row = completed /\
     progress_last_score row = Some score /\
     progress_updated_at row = now) /\
  (forall u' l', (u', l') <> (u, l) ->
     progress_of (upsert_progress now u l completed score rows) u' l'
     = progress_of rows u' l').
Proof.
  unfold upsert_progress, progress_of.
  destruct (decide (Exists _ rows)) as [Hex | Hex].
  - fold (overwritten now u l completed score). split.
    + clear -Hex. induction rows as [| r rows IH]; [inversion Hex |].
      cbn [map]. rewrite filter_cons.
      destruct (decide (progress_user_id r = u /\ progress_lesson_id r = l))
        as [Hr | Hr].
      * rewrite (overwritten_hit _ _ _ _ _ _ Hr).
        cbn [progress_user_id progress_lesson_id].
        rewrite decide_True by auto. cbn [head].
        eexists. split; [reflexivity |]. cbn. auto.
      * rewrite (overwritten_miss _ _ _ _ _ _ Hr).
        rewrite decide_False by exact Hr.
        apply IH. inversion Hex; subst; [contradiction | assumption].
    + intros u' l' Hne. f_equal. apply filter_map_fixed.
      * intros x _. unfold overwritten.
        destruct (decide _) as [[Hu Hl] |]; [| tauto].
        cbn [progress_user_id progress_lesson_id]. rewrite Hu, Hl. tauto.
      * intros x _ [Hu Hl]. unfold overwritten.
        rewrite decide_False; [reflexivity |].
        intros [Hu' Hl']. apply Hne. congruence.
  - split.
    + rewrite filter_app, filter_cons, filter_nil.
      cbn [progress_user_id progress_lesson_id].
      rewrite decide_True by auto.
      rewrite (filter_none _ rows).
      * cbn. eexists. split; [reflexivity |]. cbn. auto.
      * intros x Hx Hp. apply Hex. apply Exists_exists. eauto.
    + intros u' l' Hne. rewrite filter_app, filter_cons, filter_nil.
      cbn [progress_user_id progress_lesson_id].
      rewrite decide_False by (intros [-> ->]; contradiction).
      rewrite app_nil_r. reflexivity.
Qed.

(** X27: for a graded request the submit route leaves exactly one progress
    row for the user and the quiz's lesson, with [completed] set to the
    result's [passed] (so a failed attempt after a passed one marks the
    lesson as not completed), [last_score] set to the score and
    [updated_at] to the time of the request; the progress of every other
    (user, lesson) pair is untouched and the table's constraints still
    hold. *)
Theorem submit_overwrites_progress (now : Z) (db : Database) (c : Content)
    (userId : string) (body : Submission) (result : QuizResult)
    (action : option RetryAction) (n : Z) (db' : Database) (c' : Content)
    (quiz : Quiz) :
  progress_ok (progress_rows c) ->
  submit_POST now db c (Some userId) body
    = (json_submitted result action n, db', c') ->
  quiz ∈ quizzes c ->
  quiz_id quiz = submission_target_id body ->
  progress_ok (progress_rows c') /\
  (exists row,
     progress_of (progress_rows c') userId (quiz_lesson_id quiz) = Some row /\
     progress_recorded now userId (quiz_lesson_id quiz) result row) /\
  (forall u l,
     (u, l) <> (userId, quiz_lesson_id quiz) ->
     progress_of (progress_rows c') u l = progress_of (progress_rows c) u l).
Proof.
  intros Hok Hs Hin Hid.
  destruct (submit_success _ _ _ _ _ _ _ _ _ _ Hs)
    as (quiz' & Hquiz & Hres & Hn & Hact & Hc & Hdb).
  assert (quiz' = quiz) as ->.
  { assert (Hq : quiz ∈ filter
                          (fun q => quiz_id q = submission_target_id body)
                          (quizzes c)).
    { apply list_elem_of_filter. auto. }
    rewrite Hquiz in Hq. apply list_elem_of_singleton in Hq. auto. }
  rewrite Hc. cbn [progress_rows set_progress_rows set_quiz_attempts].
  destruct (upsert_progress_of now userId (quiz_lesson_id quiz)
              (qr_passed result) (qr_score result) (progress_rows c))
    as [(row & Hrow & Hfields) Hother].
  split; [apply upsert_progress_ok; exact Hok |].
  split; [| exact Hother].
  exists row. split; [exact Hrow | exact Hfields].
Qed.

Lemma submit_overwrites_progress_witness :
  let c := course passed_z1 completed_l1 in
  let out := submit_POST 5 empty_db c (Some "u") z1_one_wrong in
  progress_ok (progress_rows c) /\
  out = (json_submitted (fst (grade c z1_one_wrong (fetch_questions c "z1")))
                        (Some (getRetryAction 2)) 2,
         snd (fst out), snd out) /\
  mkQuiz "z1" "l1" ∈ quizzes c /\
  exists row,
    progress_of (progress_rows (snd out)) "u" "l1" = Some row /\
    progress_completed row = false.
Proof.
  cbv zeta.
  assert (Hok : progress_ok (progress_rows (course passed_z1 completed_l1))).
  { split; cbn; apply NoDup_singleton. }
  assert (H : submit_POST 5 empty_db (course passed_z1 completed_l1) (Some "u")
                     z1_one_wrong
              = (json_submitted
                   (fst (grade (course passed_z1 completed_l1) z1_one_wrong
                           (fetch_questions (course passed_z1 completed_l1)
                                            "z1")))
                   (Some (getRetryAction 2)) 2,
                 snd (fst (submit_POST 5 empty_db (course passed_z1 completed_l1)
                                  (Some "u") z1_one_wrong)),
                 snd (submit_POST 5 empty_db (course passed_z1 completed_l1)
                             (Some "u") z1_one_wrong))).
  { vm_compute. reflexivity. }
  assert (Hin : mkQuiz "z1" "l1" ∈ quizzes (course passed_z1 completed_l1)).
  { left. }
  split; [exact Hok |]. split; [exact H |]. split; [exact Hin |].
  destruct (proj1 (proj2 (submit_overwrites_progress
                            _ _ _ _ _ _ _ _ _ _ _ Hok H Hin eq_refl)))
    as (row & Hrow & Hrec).
  exists row. split; [exact Hrow |].
  exact (proj1 (proj2 (proj2 Hrec))).
Defined.

Lemma single_limit_is_Some {A} (rows : list A) :
  is_Some (single (limit 1 rows)) <-> rows <> [].
Proof.
  destruct rows as [| a rows]; cbn.
  - split; [intros [? ?]; discriminate | contradiction].
  - unfold limit. cbn. rewrite take_0. cbn. split; [discriminate | eauto].
Qed.

Lemma passingQuizAttempt_is_Some (c : Content) (u q : string) :
  is_Some (passingQuizAttempt c u q) <->
  exists a, a ∈ quiz_attempts c /\ qa_user_id a = u /\ qa_quiz_id a = q /\
            qa_passed a = true.
Proof.
  unfold passingQuizAttempt. rewrite single_limit_is_Some. split.
  - intros Hne.
    destruct (filter _ (quiz_attempts c)) as [| a rest] eqn:E;
      [contradiction |].
    assert (Ha : a ∈ a :: rest) by left. rewrite <- E in Ha.
    apply list_elem_of_filter in Ha as [Hp Ha]. exists a. tauto.
  - intros (a & Ha & Hp) Hnil.
    assert (Hin : a ∈ filter (fun a => qa_user_id a = u /\ qa_quiz_id a = q /\
                                       qa_passed a = true) (quiz_attempts c)).
    { apply list_elem_of_filter. auto. }
    rewrite Hnil in Hin. inversion Hin.
Qed.

(** The lesson gate after rows were added to [quiz_attempts] and the
    progress rows were replaced. *)
Lemma canAccessLesson_after (t : Z) (c : Content) (extra : list QuizAttempt)
    (progress : list Progress) (u lessonId : string) :
  let c' := set_progress_rows
              (set_quiz_attempts c (quiz_attempts c ++ extra)) progress in
  canAccessLesson t c' u lessonId =
  match single (lesson_with_module_and_level c lessonId) with
  | None => deny "Lesson not found."
  | Some (lesson, module, level) =>
      if (level_order level =? 0) && (module_order module =? 1)
         && (lesson_order lesson =? 1)
      then allow
      else
        match (if 0 <? level_order level then subscription_check t c u
               else None) with
        | Some refusal => refusal
        | None =>
            match getPreviousLesson c (level_order level) (module_order module)
                                    (lesson_order lesson) with
            | None => allow
            | Some previousLesson =>
                match single (filter (fun q => quiz_lesson_id q
                                               = lesson_id previousLesson)
                                     (quizzes c)) with
                | None => allow
                | Some quiz =>
                    match passingQuizAttempt c' u (quiz_id quiz) with
                    | None => deny previous_quiz_message
                    | Some _ => allow
                    end
                end
            end
        end
  end.
Proof. reflexivity. Qed.

Lemma subscription_check_None (t : Z) (c : Content) (u : string)
    (subscription : Subscription) :
  filter (fun s => subscription_user_id s = u /\
                   subscription_status s = status_active)
         (subscriptions c) = [subscription] ->
  (forall periodEnd,
     subscription_current_period_end subscription = Some periodEnd ->
     t <= periodEnd) ->
  subscription_check t c u = None.
Proof.
  intros Hf Hend. unfold subscription_check. rewrite Hf. cbn [single].
  destruct (subscription_current_period_end subscription) as [e |];
    [| reflexivity].
  specialize (Hend e eq_refl).
  destruct (e <? t) eqn:E; [| reflexivity].
  apply Z.ltb_lt in E. lia.
Qed.

(** X28: a graded request never closes a lesson the lesson gate had open,
    for any user; and once a request is graded as passed, the lesson gate
    opens, for that user, every lesson whose previous lesson is the quiz's
    lesson, provided the lesson's level has order 0 or the user has exactly
    one active subscription that has not run out. *)
Theorem passing_quiz_opens_next_lesson (now : Z) (db : Database) (c : Content)
    (userId : string) (body : Submission) (result : QuizResult)
    (action : option RetryAction) (n : Z) (db' : Database) (c' : Content) :
  submit_POST now db c (Some userId) body
    = (json_submitted result action n, db', c') ->
  (forall t u lessonId,
     accessible (canAccessLesson t c u lessonId) = true ->
     accessible (canAccessLesson t c' u lessonId) = true) /\
  (qr_passed result = true ->
   forall t quiz lessonId,
     quiz ∈ quizzes c ->
     quiz_id quiz = submission_target_id body ->
     follows c lessonId (quiz_lesson_id quiz) ->
     subscription_in_order t c userId lessonId ->
     canAccessLesson t c' userId lessonId = allow).
Proof.
  intros Hs.
  destruct (submit_success _ _ _ _ _ _ _ _ _ _ Hs)
    as (quiz0 & Hquiz & Hres & Hn & Hact & Hc & Hdb).
  unfold insert_quiz_attempt in Hc.
  set (row := mkQuizAttempt _ _ _ _ _ _ _) in Hc.
  split.
  - intros t u lessonId. rewrite Hc, canAccessLesson_after.
    unfold canAccessLesson.
    destruct (single (lesson_with_module_and_level c lessonId))
      as [[[lesson module] level] |]; [| auto].
    destruct (_ && _); [auto |].
    destruct (if 0 <? level_order level then _ else _); [auto |].
    destruct (getPreviousLesson c _ _ _) as [prev |]; [| auto].
    destruct (single (filter _ (quizzes c))) as [quiz |]; [| auto].
    destruct (passingQuizAttempt c u (quiz_id quiz)) as [a |] eqn:Hpass;
      [| discriminate].
    intros _.
    assert (Hsome : is_Some (passingQuizAttempt
                      (set_progress_rows
                         (set_quiz_attempts c (quiz_attempts c ++ [row]))
                         (upsert_progress now userId (quiz_lesson_id quiz0)
                            (qr_passed result) (qr_score result)
                            (progress_rows c)))
                      u (quiz_id quiz))).
    { apply passingQuizAttempt_is_Some.
      assert (Hold : is_Some (passingQuizAttempt c u (quiz_id quiz)))
        by (rewrite Hpass; eauto).
      apply passingQuizAttempt_is_Some in Hold as (a' & Hin & Hp).
      exists a'. split; [| exact Hp].
      cbn [quiz_attempts set_progress_rows set_quiz_attempts].
      apply elem_of_app. left. exact Hin. }
    destruct Hsome as [a' ->]. reflexivity.
  - intros Hpassed t quiz lessonId Hin Hid
           (lesson & module & level & prev & Hjoin & Hprev & Hprevid)
           (lesson' & module' & level' & Hjoin' & Hsub).
    rewrite Hjoin in Hjoin'. injection Hjoin' as <- <- <-.
    rewrite Hc, canAccessLesson_after. rewrite Hjoin.
    destruct (_ && _); [reflexivity |].
    assert (Hcheck : (if 0 <? level_order level
                      then subscription_check t c userId else None) = None).
    { destruct (0 <? level_order level) eqn:E; [| reflexivity].
      apply Z.ltb_lt in E.
      destruct Hsub as [Hle | (s & Hf & Hend)]; [lia |].
      eapply subscription_check_None; eauto. }
    rewrite Hcheck, Hprev.
    destruct (single (filter _ (quizzes c))) as [quiz' |] eqn:Hq';
      [| reflexivity].
    apply single_Some in Hq'.
    assert (quiz' = quiz) as ->.
    { assert (Hq : quiz ∈ filter (fun q => quiz_lesson_id q = lesson_id prev)
                            (quizzes c)).
      { apply list_elem_of_filter. auto. }
      rewrite Hq' in Hq. apply list_elem_of_singleton in Hq. auto. }
    match goal with
    | |- match ?p with _ => _ end = _ =>
        assert (Hsome : is_Some p)
    end.
    { apply passingQuizAttempt_is_Some. exists row.
      split; [| subst row; cbn; rewrite Hid; auto].
      cbn [quiz_attempts set_progress_rows set_quiz_attempts].
      apply elem_of_app. right. left. }
    destruct Hsome as [a' ->]. reflexivity.
Qed.

Lemma passing_quiz_opens_next_lesson_witness :
  let c := course [] [] in
  let out := submit_POST 5 empty_db c (Some "u") z1_all_right in
  out = (json_submitted (fst (grade c z1_all_right (fetch_questions c "z1")))
                        None 1,
         snd (fst out), snd out) /\
  canAccessLesson 9 c "u" "l2" = deny previous_quiz_message /\
  canAccessLesson 9 (snd out) "u" "l2" = allow.
Proof.
  cbv zeta.
  assert (H : submit_POST 5 empty_db (course [] []) (Some "u") z1_all_right
              = (json_submitted
                   (fst (grade (course [] []) z1_all_right
                           (fetch_questions (course [] []) "z1")))
                   None 1,
                 snd (fst (submit_POST 5 empty_db (course [] []) (Some "u")
                                  z1_all_right)),
                 snd (submit_POST 5 empty_db (course [] []) (Some "u")
                             z1_all_right))).
  { vm_compute. reflexivity. }
  split; [exact H |]. split; [vm_compute; reflexivity |].
  apply (proj2 (passing_quiz_opens_next_lesson _ _ _ _ _ _ _ _ _ _ H))
    with (quiz := mkQuiz "z1" "l1").
  - vm_compute. reflexivity.
  - left.
  - reflexivity.
  - exists (mkLesson "l2" "m1" 2), (mkModule "m1" "lv0" (Some "t1") 1),
      (mkLevel "lv0" 0), (mkLesson "l1" "m1" 1).
    repeat split; vm_compute; reflexivity.
  - exists (mkLesson "l2" "m1" 2), (mkModule "m1" "lv0" (Some "t1") 1),
      (mkLevel "lv0" 0).
    split; [vm_compute; reflexivity |]. left. cbn. lia.
Defined.

(** ** The lesson gate and the module gate *)

Lemma NoDup_fmap_inj_on {A B} (f : A -> B) (l : list A) (x y : A) :
  NoDup (map f l) -> x ∈ l -> y ∈ l -> f x = f y -> x = y.
Proof.
  induction l as [| a l IH]; intros Hnd Hx Hy Hf; [inversion Hx |].
  cbn [map] in Hnd. apply NoDup_cons in Hnd as [Ha Hnd].
  apply elem_of_cons in Hx as [-> | Hx];
    apply elem_of_cons in Hy as [-> | Hy]; auto.
  - exfalso. apply Ha. rewrite Hf. apply list_elem_of_fmap. eauto.
  - exfalso. apply Ha. rewrite <- Hf. apply list_elem_of_fmap. eauto.
Qed.

(** In a term whose modules have distinct orders, the module gate finds
    the module just before the one asked for. *)
Lemma previous_module_found (c : Content) (termId : string)
    (module previous : ModuleRow) :
  NoDup (map module_order (term_modules c termId)) ->
  (forall m, m ∈ modules c -> module_id m = module_id module -> m = module) ->
  previous_in_term c termId module previous ->
  let termModules := order_by module_order (term_modules c termId) in
  let moduleIndex :=
    findIndex (fun m => module_id m = module_id module) termModules in
  (exists first rest,
     termModules = first :: rest /\
     String.eqb (module_id first) (module_id module) = false) /\
  (moduleIndex <=? 0) = false /\
  at_index termModules (moduleIndex - 1) = Some previous.
Proof.
  intros Hnd Huniq (Hm & Hp & Hlt & Hbetween) L moduleIndex.
  destruct (order_by_sorted module_order (term_modules c termId))
    as [Hsorted Hperm].
  fold L in Hsorted, Hperm.
  assert (HinT : forall m, m ∈ L -> m ∈ term_modules c termId).
  { intros m Hin. rewrite <- Hperm. exact Hin. }
  assert (Hmodules : forall m, m ∈ L -> m ∈ modules c).
  { intros m Hin. apply HinT in Hin.
    apply list_elem_of_filter in Hin as [_ Hin]. exact Hin. }
  assert (HndL : NoDup (map module_order L)).
  { rewrite Hperm. exact Hnd. }
  assert (HmL : module ∈ L) by (rewrite Hperm; exact Hm).
  assert (HpL : previous ∈ L) by (rewrite Hperm; exact Hp).
  (* the index of the module *)
  unfold moduleIndex, findIndex.
  destruct (list_find (fun m => module_id m = module_id module) L)
    as [[i m'] |] eqn:Hfind.
  2: { apply list_find_None in Hfind. rewrite Forall_forall in Hfind.
       exfalso. exact (Hfind module HmL eq_refl). }
  apply list_find_Some in Hfind as (Hi & Hid & Hfirst).
  assert (m' = module) as ->.
  { apply Huniq; [| exact Hid]. apply Hmodules.
    eapply list_elem_of_lookup_2. exact Hi. }
  (* the module is not the first of the term *)
  destruct i as [| k].
  { exfalso. destruct L as [| first rest]; [discriminate |].
    cbn in Hi. injection Hi as ->.
    inversion Hsorted as [| ? ? _ Hall]; subst.
    apply elem_of_cons in HpL as [-> | HpL]; [lia |].
    rewrite Forall_forall in Hall. specialize (Hall _ HpL).
    unfold ascending in Hall. lia. }
  assert (Hk : is_Some (L !! k)).
  { apply lookup_lt_is_Some. apply lookup_lt_Some in Hi. lia. }
  destruct Hk as [q Hq].
  assert (Hsplit : L = take k L ++ q :: module :: drop (S (S k)) L).
  { rewrite <- (take_drop_middle L k q Hq) at 1.
    rewrite (drop_S L module (S k) Hi). reflexivity. }
  set (l1 := take k L) in *. set (l2 := drop (S (S k)) L) in *.
  clearbody l1 l2.
  split; [| split].
  - destruct L as [| first rest]; [discriminate |].
    exists first, rest. split; [reflexivity |].
    apply String.eqb_neq. intros Hid0.
    apply (Hfirst 0%nat first); [reflexivity | lia | exact Hid0].
  - apply Z.leb_gt. lia.
  - unfold at_index.
    replace (Z.of_nat (S k) - 1) with (Z.of_nat k) by lia.
    destruct (Z.of_nat k <? 0) eqn:E; [apply Z.ltb_lt in E; lia |].
    rewrite Nat2Z.id, Hq. f_equal.
    (* [q] is the module just before *)
    assert (Hq_mod : module_order q <= module_order module).
    { rewrite Hsplit in Hsorted.
      apply StronglySorted_app_1_r in Hsorted.
      inversion Hsorted as [| ? ? _ Hall]; subst.
      rewrite Forall_forall in Hall. apply (Hall module). left. }
    assert (Hne : module_order q <> module_order module).
    { rewrite Hsplit, map_app in HndL. cbn [map] in HndL.
      apply NoDup_app in HndL as (_ & _ & HndL).
      apply NoDup_cons in HndL as [Hnotin _]. intros E'.
      apply Hnotin. rewrite E'. left. }
    assert (HqL : q ∈ L) by (eapply list_elem_of_lookup_2; exact Hq).
    assert (Hp_q : module_order previous <= module_order q).
    { rewrite Hsplit in HpL.
      apply elem_of_app in HpL as [HpL | HpL].
      - rewrite Hsplit in Hsorted.
        apply (StronglySorted_app_1_elem_of _ _ _ previous q) in Hsorted;
          [exact Hsorted | exact HpL | left].
      - apply elem_of_cons in HpL as [-> | HpL]; [lia |].
        apply elem_of_cons in HpL as [-> | HpL]; [lia |].
        exfalso. rewrite Hsplit in Hsorted.
        apply StronglySorted_app_1_r in Hsorted.
        inversion Hsorted as [| ? ? Hsorted' _]; subst.
        inversion Hsorted' as [| ? ? _ Hall]; subst.
        rewrite Forall_forall in Hall. specialize (Hall _ HpL).
        unfold ascending in Hall. lia. }
    assert (Heq : module_order q = module_order previous).
    { specialize (Hbetween q (HinT q HqL)). lia. }
    eapply (NoDup_fmap_inj_on module_order L); eauto.
Qed.

(** The count of the module gate: when the user has at least as many
    completed progress rows for the lessons as there are lessons, every
    lesson has one. *)
Lemma all_lessons_completed (c : Content) (userId : string)
    (prevLessons : list Lesson) :
  NoDup (map lesson_id prevLessons) ->
  NoDup (map progress_key (progress_rows c)) ->
  (length prevLessons <=
   length (filter (fun p => progress_user_id p = userId /\
                            progress_lesson_id p ∈ map lesson_id prevLessons /\
                            progress_completed p = true)
                  (progress_rows c)))%nat ->
  forall lesson, lesson ∈ prevLessons -> lesson_completed c userId lesson.
Proof.
  intros Hids Hkeys Hlen lesson Hlesson.
  set (done := filter _ (progress_rows c)) in Hlen.
  assert (Hdone : forall p, p ∈ done ->
            p ∈ progress_rows c /\ progress_user_id p = userId /\
            progress_lesson_id p ∈ map lesson_id prevLessons /\
            progress_completed p = true).
  { intros p Hp. apply list_elem_of_filter in Hp. tauto. }
  assert (Hnd : NoDup (map progress_lesson_id done)).
  { apply NoDup_fmap_2_strong.
    - intros x y Hx Hy Hxy.
      destruct (Hdone x Hx) as (Hx1 & Hx2 & _).
      destruct (Hdone y Hy) as (Hy1 & Hy2 & _).
      apply (NoDup_fmap_inj_on progress_key (progress_rows c)); auto.
      unfold progress_key. congruence.
    - apply NoDup_filter. eapply NoDup_fmap_1. exact Hkeys. }
  assert (Hsub : map progress_lesson_id done ⊆+ map lesson_id prevLessons).
  { apply NoDup_submseteq; [exact Hnd |].
    intros x Hx. apply list_elem_of_fmap in Hx as (p & -> & Hp).
    apply Hdone in Hp. tauto. }
  assert (Hperm : map progress_lesson_id done ≡ₚ map lesson_id prevLessons).
  { apply submseteq_length_Permutation; [exact Hsub |].
    rewrite !length_map. exact Hlen. }
  assert (Hin : lesson_id lesson ∈ map progress_lesson_id done).
  { rewrite Hperm. apply list_elem_of_fmap. eauto. }
  apply list_elem_of_fmap in Hin as (p & Hid & Hp).
  apply Hdone in Hp as (Hp1 & Hp2 & _ & Hp4).
  exists p. auto.
Qed.

(** X29: the module gate asks for the previous module.  In a term whose
    modules have distinct orders (with lesson ids and (user, lesson)
    progress pairs unique, as the schema has them), [canAccessModule]
    returns, and when it grants a module that has a module just before it
    in the term, the user has a completed progress row for every lesson of
    that previous module and, if the previous module has exactly one
    module exam, a passed attempt at it. *)
Theorem canAccessModule_requires_previous_module (db : Database)
    (c : Content) (userId termId : string) (module previous : ModuleRow) :
  NoDup (map module_order (term_modules c termId)) ->
  NoDup (map lesson_id (lessons c)) ->
  NoDup (map progress_key (progress_rows c)) ->
  previous_in_term c termId module previous ->
  exists r,
    canAccessModule db c userId (module_id module) = Some r /\
    (accessible r = true -> previous_module_done db c userId previous).
Proof.
  intros Horders Hlessons Hkeys Hprev.
  pose proof Hprev as (Hm & Hp & _).
  apply list_elem_of_filter in Hm as [Hterm Hm].
  unfold canAccessModule.
  destruct (single (filter _ (modules c))) as [module' |] eqn:Hsingle.
  2: { eexists. split; [reflexivity |]. cbn. discriminate. }
  apply single_Some in Hsingle.
  assert (Huniq : forall m, m ∈ modules c ->
                    module_id m = module_id module -> m = module').
  { intros m Hin Hid.
    assert (Hf : m ∈ filter (fun m => module_id m = module_id module)
                      (modules c)).
    { apply list_elem_of_filter. auto. }
    rewrite Hsingle in Hf. apply list_elem_of_singleton in Hf. exact Hf. }
  assert (module' = module) as ->.
  { symmetry. apply Huniq; auto. }
  rewrite Hterm.
  destruct (previous_module_found c termId module previous Horders Huniq Hprev)
    as ((first & rest & HL & Hfirst) & Hindex & Hat).
  fold (term_modules c termId). rewrite HL, Hfirst. rewrite <- HL.
  rewrite Hindex, Hat.
  set (prevLessons := filter _ (lessons c)).
  assert (Hlessons' : NoDup (map lesson_id prevLessons)).
  { eapply sublist_NoDup; [exact Hlessons |].
    apply fmap_sublist, sublist_filter. }
  match goal with
  | |- context [if ?b then Some (deny previous_lessons_message) else _] =>
      destruct b eqn:Hmissing
  end.
  { eexists. split; [reflexivity |]. cbn. discriminate. }
  assert (Hall : forall lesson, lesson ∈ lessons c ->
            lesson_module_id lesson = module_id previous ->
            lesson_completed c userId lesson).
  { intros lesson Hin Hmod.
    assert (Hl : lesson ∈ prevLessons).
    { apply list_elem_of_filter. auto. }
    destruct (0 <? length prevLessons)%nat eqn:Hpos.
    - apply Z.ltb_ge in Hmissing.
      apply (all_lessons_completed c userId prevLessons); auto. lia.
    - apply Nat.ltb_ge in Hpos.
      destruct prevLessons; [inversion Hl | cbn in Hpos; lia]. }
  destruct (single (filter _ (assessments db))) as [exam |] eqn:Hexam.
  - apply single_Some in Hexam.
    destruct (passingAttempt db userId (assessment_id exam)) as [a |] eqn:Hpass.
    + eexists. split; [reflexivity |]. intros _. split; [exact Hall |].
      intros exam' Hexam'. rewrite Hexam in Hexam'. injection Hexam' as <-.
      apply passingAttempt_Some. rewrite Hpass. eauto.
    + eexists. split; [reflexivity |]. cbn. discriminate.
  - eexists. split; [reflexivity |]. intros _. split; [exact Hall |].
    intros exam' Hexam'. rewrite Hexam' in Hexam. discriminate.
Qed.

Lemma canAccessModule_requires_previous_module_witness :
  let c := course [] completed_m1 in
  let m1 := mkModule "m1" "lv0" (Some "t1") 1 in
  let m2 := mkModule "m2" "lv0" (Some "t1") 2 in
  NoDup (map module_order (term_modules c "t1")) /\
  NoDup (map lesson_id (lessons c)) /\
  NoDup (map progress_key (progress_rows c)) /\
  previous_in_term c "t1" m2 m1 /\
  canAccessModule empty_db c "u" "m2" = Some allow /\
  previous_module_done empty_db c "u" m1.
Proof.
  cbv zeta.
  assert (H1 : NoDup (map module_order
                        (term_modules (course [] completed_m1) "t1"))).
  { apply NoDup_ListNoDup. vm_compute.
    repeat constructor; cbn; intuition discriminate. }
  assert (H2 : NoDup (map lesson_id (lessons (course [] completed_m1)))).
  { apply NoDup_ListNoDup. vm_compute.
    repeat constructor; cbn; intuition discriminate. }
  assert (H3 : NoDup (map progress_key
                        (progress_rows (course [] completed_m1)))).
  { apply NoDup_ListNoDup. vm_compute.
    repeat constructor; cbn; intuition discriminate. }
  assert (H4 : previous_in_term (course [] completed_m1) "t1"
                 (mkModule "m2" "lv0" (Some "t1") 2)
                 (mkModule "m1" "lv0" (Some "t1") 1)).
  { split; [left |]. split; [right; left |]. split; [cbn; lia |].
    intros m Hin.
    apply elem_of_cons in Hin as [-> | Hin]; [cbn; lia |].
    apply elem_of_cons in Hin as [-> | Hin]; [cbn; lia | inversion Hin]. }
  split; [exact H1 |]. split; [exact H2 |]. split; [exact H3 |].
  split; [exact H4 |].
  assert (H5 : canAccessModule empty_db (course [] completed_m1) "u" "m2"
               = Some allow).
  { vm_compute. reflexivity. }
  split; [exact H5 |].
  destruct (canAccessModule_requires_previous_module
              empty_db (course [] completed_m1) "u" "t1" _ _ H1 H2 H3 H4)
    as (r & Hr & Hdone).
  apply Hdone.
  change (module_id (mkModule "m2" "lv0" (Some "t1") 2)) with "m2" in Hr.
  rewrite H5 in Hr. injection Hr as <-. reflexivity.
Defined.

Lemma canAccessLesson_shape (now : Z) (c : Content) (userId lessonId : string) :
  canAccessLesson now c userId lessonId = allow \/
  exists why, canAccessLesson now c userId lessonId = deny why.
Proof.
  unfold canAccessLesson.
  destruct (single (lesson_with_module_and_level c lessonId))
    as [[[lesson module] level] |]; [| eauto].
  destruct (_ && _); [eauto |].
  assert (Hsub : forall o : option AccessResult,
            o = subscription_check now c userId ->
            o = None \/ exists why, o = Some (deny why)).
  { intros o ->. unfold subscription_check.
    destruct (single _) as [s |]; [| eauto].
    destruct (subscription_current_period_end s) as [e |]; [| eauto].
    destruct (e <? now); eauto. }
  destruct (0 <? level_order level).
  - destruct (Hsub _ eq_refl) as [-> | [why ->]]; [| eauto].
    destruct (getPreviousLesson c _ _ _); [| eauto].
    destruct (single (filter _ (quizzes c))); [| eauto].
    destruct (passingQuizAttempt c userId _); eauto.
  - destruct (getPreviousLesson c _ _ _); [| eauto].
    destruct (single (filter _ (quizzes c))); [| eauto].
    destruct (passingQuizAttempt c userId _); eauto.
Qed.

(** [canAccessModule] never reads past the end of [termModules]. *)
Lemma canAccessModule_shape (db : Database) (c : Content)
    (userId moduleId : string) :
  exists r,
    canAccessModule db c userId moduleId = Some r /\
    (r = allow \/ exists why, r = deny why).
Proof.
  unfold canAccessModule.
  destruct (single (filter _ (modules c))) as [module |]; [| eauto].
  destruct (module_term_id module) as [termId |]; [| eauto].
  set (L := order_by module_order _).
  destruct L as [| first rest] eqn:HL; [eauto |].
  destruct (String.eqb (module_id first) moduleId); [eauto |].
  rewrite <- HL.
  destruct (findIndex _ L <=? 0) eqn:Hindex; [eauto |].
  apply Z.leb_gt in Hindex. unfold findIndex in *.
  destruct (list_find _ L) as [[i m] |] eqn:Hfind; [| lia].
  apply list_find_Some in Hfind as (Hi & _ & _).
  destruct i as [| k]; [lia |].
  assert (Hk : is_Some (L !! k)).
  { apply lookup_lt_is_Some. apply lookup_lt_Some in Hi. lia. }
  destruct Hk as [q Hq].
  unfold at_index.
  replace (Z.of_nat (S k) - 1) with (Z.of_nat k) by lia.
  destruct (Z.of_nat k <? 0) eqn:E; [apply Z.ltb_lt in E; lia |].
  rewrite Nat2Z.id, Hq.
  repeat match goal with
         | |- context [match ?x with _ => _ end] => destruct x
         | |- context [if ?x then _ else _] => destruct x
         end; eauto.
Qed.

(** X30: no gate refuses without a reason or attaches a reason to a grant:
    this holds for the results of the term gate, the year gate and the
    lesson gate, and for the module gate, which always returns a result
    (its read of [termModules[moduleIndex - 1]] never fails). *)
Theorem gates_give_reason_iff_refused (now : Z) (db : Database) (c : Content)
    (userId termId yearId lessonId moduleId : string) :
  reason_iff_refused (canAccessTerm db userId termId) /\
  reason_iff_refused (canAccessYear db userId yearId) /\
  reason_iff_refused (canAccessLesson now c userId lessonId) /\
  exists r, canAccessModule db c userId moduleId = Some r /\
            reason_iff_refused r.
Proof.
  unfold reason_iff_refused. split; [| split; [| split]].
  - destruct (canAccessTerm_shape db userId termId) as [-> | [why ->]];
      cbn; eauto.
  - destruct (canAccessYear_shape db userId yearId) as [-> | [why ->]];
      cbn; eauto.
  - destruct (canAccessLesson_shape now c userId lessonId) as [-> | [why ->]];
      cbn; eauto.
  - destruct (canAccessModule_shape db c userId moduleId)
      as (r & Hr & [-> | [why ->]]); eexists; (split; [exact Hr |]);
      cbn; eauto.
Qed.

(** * Doubles and dates *)

Import Double QuizEngine64 Sums64 Progression64.

(** ** Rounding to the nearest double *)

Lemma round_half_even_error (y : Q) :
  (inject_Z (round_half_even y) - (1 # 2) <= y)%Q /\
  (y <= inject_Z (round_half_even y) + (1 # 2))%Q.
Proof.
  unfold round_half_even.
  pose proof (Qfloor_le y) as Hlo.
  pose proof (Qlt_floor y) as Hhi.
  rewrite inject_Z_plus in Hhi. change (inject_Z 1) with 1%Q in Hhi.
  destruct (Qcompare_spec (y - inject_Z (Qfloor y)) (1 # 2)) as [E | E | E].
  - destruct (Z.even (Qfloor y)).
    + set (k := inject_Z (Qfloor y)) in *. clearbody k. split; lra.
    + rewrite inject_Z_plus. change (inject_Z 1) with 1%Q.
      set (k := inject_Z (Qfloor y)) in *. clearbody k. split; lra.
  - set (k := inject_Z (Qfloor y)) in *. clearbody k. split; lra.
  - rewrite inject_Z_plus. change (inject_Z 1) with 1%Q.
    set (k := inject_Z (Qfloor y)) in *. clearbody k. split; lra.
Qed.

Lemma Qpower2_pos (e : Z) : (0 < 2 ^ e)%Q.
Proof. apply Qpower_0_lt. reflexivity. Qed.

Lemma pow2_inject (k : Z) : 0 <= k -> (2 ^ k == inject_Z (2 ^ k))%Q.
Proof.
  intros Hk. rewrite Zpower_Qpower by exact Hk. reflexivity.
Qed.

Lemma ilog2_lower (x : Q) : (0 < x)%Q -> (2 ^ ilog2 x <= x)%Q.
Proof.
  intros Hx. unfold ilog2.
  set (lp := Z.log2 (Qnum x)). set (lq := Z.log2 (Z.pos (Qden x))).
  destruct (Qle_bool (2 ^ (lp - lq)) x) eqn:E.
  - apply Qle_bool_iff in E. exact E.
  - assert (Hp : 0 < Qnum x).
    { destruct x as [p q]. unfold Qlt in Hx. cbn in *. lia. }
    assert (Hlp : 0 <= lp) by apply Z.log2_nonneg.
    assert (Hlq : 0 <= lq) by apply Z.log2_nonneg.
    destruct (Z.log2_spec (Qnum x) Hp) as [Hp1 _]. fold lp in Hp1.
    destruct (Z.log2_spec (Z.pos (Qden x)) (Pos2Z.is_pos _)) as [_ Hq2].
    fold lq in Hq2.
    replace (lp - lq - 1) with (lp - (lq + 1)) by lia.
    rewrite Qpower_minus by discriminate.
    rewrite (pow2_inject lp), (pow2_inject (lq + 1)) by lia.
    assert (Hx' : (x == inject_Z (Qnum x) / inject_Z (Z.pos (Qden x)))%Q).
    { destruct x as [p q]. cbn [Qnum Qden]. apply Qmake_Qdiv. }
    clearbody lp lq. rewrite Hx'.
    assert (HA : (0 < inject_Z (2 ^ lp))%Q).
    { change 0%Q with (inject_Z 0). rewrite <- Zlt_Qlt. lia. }
    assert (HB : (0 < inject_Z (2 ^ (lq + 1)))%Q).
    { change 0%Q with (inject_Z 0). rewrite <- Zlt_Qlt. lia. }
    assert (HD : (0 < inject_Z (Z.pos (Qden x)))%Q).
    { change 0%Q with (inject_Z 0). rewrite <- Zlt_Qlt. lia. }
    assert (HAP : (inject_Z (2 ^ lp) <= inject_Z (Qnum x))%Q).
    { rewrite <- Zle_Qle. exact Hp1. }
    assert (HDB : (inject_Z (Z.pos (Qden x)) <= inject_Z (2 ^ (lq + 1)))%Q).
    { rewrite <- Zle_Qle. lia. }
    set (A := inject_Z (2 ^ lp)) in *. set (P := inject_Z (Qnum x)) in *.
    set (B := inject_Z (2 ^ (lq + 1))) in *.
    set (D := inject_Z (Z.pos (Qden x))) in *.
    clearbody A P B D.
    apply Qle_shift_div_r; [exact HB |].
    unfold Qdiv. rewrite <- Qmult_assoc.
    assert (HR : (1 <= / D * B)%Q).
    { rewrite Qmult_comm. apply Qle_shift_div_l; [exact HD | lra]. }
    set (R := (/ D * B)%Q) in *. clearbody R. nra.
Qed.

Lemma ilog2_upper (x : Q) : (0 < x)%Q -> (x < 2 ^ (ilog2 x + 1))%Q.
Proof.
  intros Hx. unfold ilog2.
  set (lp := Z.log2 (Qnum x)). set (lq := Z.log2 (Z.pos (Qden x))).
  destruct (Qle_bool (2 ^ (lp - lq)) x) eqn:E.
  - assert (Hp : 0 < Qnum x).
    { destruct x as [p q]. unfold Qlt in Hx. cbn in *. lia. }
    assert (Hlp : 0 <= lp) by apply Z.log2_nonneg.
    assert (Hlq : 0 <= lq) by apply Z.log2_nonneg.
    destruct (Z.log2_spec (Qnum x) Hp) as [_ Hp2]. fold lp in Hp2.
    destruct (Z.log2_spec (Z.pos (Qden x)) (Pos2Z.is_pos _)) as [Hq1 _].
    fold lq in Hq1.
    replace (lp - lq + 1) with (lp + 1 - lq) by lia.
    rewrite Qpower_minus by discriminate.
    rewrite (pow2_inject (lp + 1)), (pow2_inject lq) by lia.
    assert (Hx' : (x == inject_Z (Qnum x) / inject_Z (Z.pos (Qden x)))%Q).
    { destruct x as [p q]. cbn [Qnum Qden]. apply Qmake_Qdiv. }
    clearbody lp lq. rewrite Hx'.
    assert (HA : (0 < inject_Z (2 ^ (lp + 1)))%Q).
    { change 0%Q with (inject_Z 0). rewrite <- Zlt_Qlt. lia. }
    assert (HB : (0 < inject_Z (2 ^ lq))%Q).
    { change 0%Q with (inject_Z 0). rewrite <- Zlt_Qlt. lia. }
    assert (HD : (0 < inject_Z (Z.pos (Qden x)))%Q).
    { change 0%Q with (inject_Z 0). rewrite <- Zlt_Qlt. lia. }
    assert (HPA : (inject_Z (Qnum x) < inject_Z (2 ^ (lp + 1)))%Q).
    { rewrite <- Zlt_Qlt. exact Hp2. }
    assert (HBD : (inject_Z (2 ^ lq) <= inject_Z (Z.pos (Qden x)))%Q).
    { rewrite <- Zle_Qle. lia. }
    set (A := inject_Z (2 ^ (lp + 1))) in *. set (P := inject_Z (Qnum x)) in *.
    set (B := inject_Z (2 ^ lq)) in *.
    set (D := inject_Z (Z.pos (Qden x))) in *.
    clearbody A P B D.
    apply Qlt_shift_div_r; [exact HD |].
    assert (HR : (A / B * B == A)%Q) by (field; lra).
    assert (HQ : (0 < A / B)%Q) by (apply Qlt_shift_div_l; lra).
    set (R := (A / B)%Q) in *. clearbody R. nra.
  - replace (lp - lq - 1 + 1) with (lp - lq) by lia.
    apply Qnot_le_lt. intros H. apply Qle_bool_iff in H. congruence.
Qed.

Lemma round_half_even_floor (y : Q) :
  Qfloor y <= round_half_even y <= Qfloor y + 1.
Proof.
  unfold round_half_even.
  destruct (Qcompare _ _); [destruct (Z.even _) | |]; lia.
Qed.

(** For a positive [x], [fl x] is [m * 2^e] for a significand [m] of 53
    bits that lies within one half of [x / 2^e]. *)
Lemma fl_significand (x : Q) :
  (0 < x)%Q ->
  exists m e : Z,
    (fl x == inject_Z m * 2 ^ e)%Q /\
    2 ^ 52 <= m <= 2 ^ 53 /\
    (Qabs (inject_Z m - x / 2 ^ e) <= 1 # 2)%Q.
Proof.
  intros Hx. unfold fl.
  assert (E0 : Qeq_bool x 0 = false).
  { destruct (Qeq_bool x 0) eqn:E; [| reflexivity].
    apply Qeq_bool_iff in E. rewrite E in Hx. lra. }
  rewrite E0.
  assert (Es : Qle_bool 0 x = true) by (apply Qle_bool_iff; lra).
  rewrite Es.
  assert (Ha : (Qabs x == x)%Q) by (apply Qabs_pos; lra).
  pose proof (ilog2_lower (Qabs x)) as HL.
  pose proof (ilog2_upper (Qabs x)) as HU.
  set (L := ilog2 (Qabs x)) in *.
  exists (round_half_even (Qabs x / 2 ^ (L - 52))), (L - 52).
  assert (Hpe : (2 ^ (L - 52) == 2 ^ L * (1 # 4503599627370496))%Q).
  { rewrite Qpower_minus by discriminate. reflexivity. }
  assert (Hpu : (2 ^ (L + 1) == 2 ^ L * 2)%Q).
  { rewrite Qpower_plus by discriminate. reflexivity. }
  pose proof (Qpower2_pos (L - 52)) as Hpos.
  pose proof (Qpower2_pos L) as HposL.
  assert (Hy1 : (inject_Z (2 ^ 52) <= Qabs x / 2 ^ (L - 52))%Q).
  { apply Qle_shift_div_l; [exact Hpos |]. rewrite Hpe.
    change (inject_Z (2 ^ 52)) with 4503599627370496%Q.
    specialize (HL ltac:(lra)). set (pL := (2 ^ L)%Q) in *. clearbody pL.
    lra. }
  assert (Hy2 : (Qabs x / 2 ^ (L - 52) < inject_Z (2 ^ 53))%Q).
  { apply Qlt_shift_div_r; [exact Hpos |]. rewrite Hpe.
    change (inject_Z (2 ^ 53)) with 9007199254740992%Q.
    specialize (HU ltac:(lra)). rewrite Hpu in HU.
    set (pL := (2 ^ L)%Q) in *. clearbody pL. lra. }
  pose proof (round_half_even_floor (Qabs x / 2 ^ (L - 52))) as Hfl.
  pose proof (round_half_even_error (Qabs x / 2 ^ (L - 52))) as [He1 He2].
  assert (Hf1 : 2 ^ 52 <= Qfloor (Qabs x / 2 ^ (L - 52))).
  { rewrite <- (Qfloor_Z (2 ^ 52)). apply Qfloor_resp_le. exact Hy1. }
  assert (Hf2 : Qfloor (Qabs x / 2 ^ (L - 52)) < 2 ^ 53).
  { rewrite Zlt_Qlt. eapply Qle_lt_trans; [apply Qfloor_le | exact Hy2]. }
  split; [ring |]. split; [lia |].
  assert (Hxy : (x / 2 ^ (L - 52) == Qabs x / 2 ^ (L - 52))%Q)
    by (rewrite Ha; reflexivity).
  rewrite Hxy.
  set (y := (Qabs x / 2 ^ (L - 52))%Q) in *.
  set (m := inject_Z (round_half_even y)) in *. clearbody m y.
  apply Qabs_Qle_condition. split; lra.
Qed.

(** The relative error of a rounding to the nearest double is at most the
    unit roundoff. *)
Lemma fl_error (x : Q) : (Qabs (fl x - x) <= Qabs x * u)%Q.
Proof.
  unfold fl. destruct (Qeq_bool x 0) eqn:E0.
  { apply Qeq_bool_iff in E0. rewrite E0. unfold u. cbn. unfold Qle. cbn. lia. }
  assert (Hne : ~ (x == 0)%Q).
  { intros H. apply Qeq_bool_iff in H. congruence. }
  assert (Ha : (0 < Qabs x)%Q).
  { pose proof (Qabs_nonneg x) as H0.
    destruct (Qlt_le_dec 0 (Qabs x)) as [H | H]; [exact H |].
    exfalso. apply Hne. apply Qabs_Qle_condition in H. lra. }
  pose proof (ilog2_lower (Qabs x) Ha) as HL.
  set (L := ilog2 (Qabs x)) in *.
  pose proof (round_half_even_error (Qabs x / 2 ^ (L - 52))) as [Hm1 Hm2].
  set (m := inject_Z (round_half_even (Qabs x / 2 ^ (L - 52)))) in *.
  assert (Hpe : (2 ^ (L - 52) == 2 ^ L * (1 # 4503599627370496))%Q).
  { rewrite Qpower_minus by discriminate. reflexivity. }
  pose proof (Qpower2_pos (L - 52)) as Hpos.
  pose proof (Qpower2_pos L) as HposL.
  set (pe := (2 ^ (L - 52))%Q) in *. set (pL := (2 ^ L)%Q) in *.
  assert (Hy : (Qabs x / pe * pe == Qabs x)%Q).
  { field. intros H. rewrite H in Hpos. lra. }
  set (y := (Qabs x / pe)%Q) in *.
  clearbody m pe pL y.
  assert (Hd1 : ((m - y) * pe <= (1 # 2) * pe)%Q) by nra.
  assert (Hd2 : (- ((1 # 2) * pe) <= (m - y) * pe)%Q) by nra.
  unfold u.
  apply Qabs_Qle_condition.
  destruct (Qle_bool 0 x) eqn:Es.
  - apply Qle_bool_iff in Es. rewrite (Qabs_pos x Es) in *.
    split; nra.
  - assert (Hneg : (x <= 0)%Q).
    { destruct (Qlt_le_dec 0 x) as [H | H]; [| exact H].
      apply Qlt_le_weak, Qle_bool_iff in H. congruence. }
    rewrite (Qabs_neg x Hneg) in *. split; nra.
Qed.

Lemma fl_bounds (x : Q) :
  (0 <= x)%Q -> (x * (1 - u) <= fl x)%Q /\ (fl x <= x * (1 + u))%Q.
Proof.
  intros Hx. pose proof (fl_error x) as H.
  rewrite (Qabs_pos x Hx) in H. apply Qabs_Qle_condition in H.
  unfold u in *. split; lra.
Qed.


(** On the operations of the examples below, [fl] gives the values the
    primitive floats give. *)
Example fl_agrees_with_primitive_floats :
  same_value (57 / 800)%float (fl (57 # 800)) = true /\
  same_value (57 / 800 * 10000)%float (fl (fl (57 # 800) * 10000)) = true /\
  same_value (7507 / 100)%float (fl 75.07) = true /\
  same_value (7507 / 100 + 7508 / 100)%float (fl (fl 75.07 + fl 75.08)) = true /\
  same_value ((7507 / 100 + 7508 / 100) / 2 * 100)%float
             (fl (fl (fl (fl 75.07 + fl 75.08) / 2) * 100)) = true /\
  same_value ((6902 / 100 + 6907 / 100 + 7191 / 100) / 3)%float
             (fl (fl (fl (fl 69.02 + fl 69.07) + fl 71.91) / 3)) = true.
Proof. vm_compute. repeat split. Qed.

(** ** Retry times and the range of Date *)

(** The dated retry check is the undated one, except that it throws when
    the time to name is outside the range of [Date]. *)
Lemma checkRetryEligibility64_dated now ty (prev : list AssessmentAttempt) :
  checkRetryEligibility64 now ty prev =
  match checkRetryEligibility now ty prev with
  | Some r =>
      match nextRetryAt r with
      | Some t => if Z.abs t <=? MAX_TIME then Some r else None
      | None => Some r
      end
  | None => None
  end.
Proof.
  unfold checkRetryEligibility64, checkRetryEligibility, toISOString.
  destruct (count (MAX_ATTEMPTS ty) <=? _).
  - destruct (head _); [| reflexivity]. cbn [nextRetryAt].
    destruct (Z.abs _ <=? MAX_TIME); reflexivity.
  - destruct (_ && _); [| reflexivity].
    destruct (head prev); [| reflexivity].
    destruct (now <? _); [| reflexivity]. cbn [nextRetryAt].
    destruct (Z.abs _ <=? MAX_TIME); reflexivity.
Qed.

Lemma checkRetryEligibility64_returns now ty (prev : list AssessmentAttempt) :
  dated_in_range prev -> is_Some (checkRetryEligibility64 now ty prev).
Proof.
  intros Hdated.
  rewrite checkRetryEligibility64_dated, checkRetryEligibility_normal_form.
  destruct (nextRetryAt (retry_as_specified now ty prev)) as [t |] eqn:Ht;
    [| eauto].
  assert (Hin : Z.abs t <= MAX_TIME);
    [| apply Z.leb_le in Hin; rewrite Hin; eauto].
  revert Ht. unfold retry_as_specified.
  set (p := retry_policy ty).
  set (stamps := map attempt_created_at prev).
  set (recent := filter (fun t => now - days (period p) <= t) stamps).
  assert (Hstamps : forall s, s ∈ stamps ->
            - MAX_TIME <= s /\ s <= MAX_TIME - days 14).
  { intros s Hs. apply list_elem_of_fmap in Hs as (a & -> & Ha).
    unfold dated_in_range in Hdated. rewrite Forall_forall in Hdated.
    exact (Hdated a Ha). }
  assert (Hp : 0 <= days (period p) <= days 14 /\
               0 <= hours (cooldown p) <= days 14).
  { subst p. destruct ty; cbn; unfold days, hours; lia. }
  destruct (decide (max_attempts p <= Z.of_nat (length recent)))
    as [Hmax | Hmax].
  - cbn [nextRetryAt]. intros Ht. injection Ht as <-.
    assert (Hne : recent <> []).
    { intros E. rewrite E in Hmax. cbn in Hmax. subst p.
      destruct ty; cbn in Hmax; lia. }
    destruct (earliest_spec recent Hne) as [Hin _].
    apply list_elem_of_filter in Hin as [_ Hin].
    destruct (Hstamps _ Hin). unfold MAX_TIME, days in *. lia.
  - destruct (decide _) as [(Hc & Hne & Hnow) | Hno];
      cbn [nextRetryAt]; [| discriminate].
    intros Ht. injection Ht as <-.
    assert (Hne' : stamps <> []).
    { subst stamps. destruct prev; [congruence | discriminate]. }
    destruct (latest_spec stamps Hne') as [Hin _].
    destruct (Hstamps _ Hin). unfold MAX_TIME, days in *. lia.
Qed.

(** X11: [checkRetryEligibility] throws only a [RangeError], and exactly
    when the time it has to name lies outside the range of [Date]; it
    returns when the prior attempts are dated in range.  When it returns, a
    refusal names a next time, an approval names none, and the time named
    is not before [now]. *)
Theorem retry_refusal_names_a_time now ty (prev : list AssessmentAttempt) :
  (checkRetryEligibility64 now ty prev = None <->
   exists t, nextRetryAt (retry_as_specified now ty prev) = Some t /\
             MAX_TIME < Z.abs t) /\
  (dated_in_range prev -> is_Some (checkRetryEligibility64 now ty prev)) /\
  (forall r, checkRetryEligibility64 now ty prev = Some r ->
     (canRetry r = true <-> nextRetryAt r = None) /\
     (forall t, nextRetryAt r = Some t -> now <= t /\ Z.abs t <= MAX_TIME)).
Proof.
  split; [| split; [apply checkRetryEligibility64_returns |]].
  - rewrite checkRetryEligibility64_dated, checkRetryEligibility_normal_form.
    destruct (nextRetryAt (retry_as_specified now ty prev)) as [t |].
    + destruct (Z.abs t <=? MAX_TIME) eqn:E.
      * apply Z.leb_le in E. split; [discriminate |].
        intros (t' & Ht' & Hout). injection Ht' as <-. lia.
      * apply Z.leb_gt in E. split; [eauto | reflexivity].
    + split; [discriminate | intros (t & Ht & _); discriminate].
  - intros r. rewrite checkRetryEligibility64_dated,
      checkRetryEligibility_normal_form.
    intros Hr.
    assert (Hr' : r = retry_as_specified now ty prev /\
                  forall t, nextRetryAt r = Some t -> Z.abs t <= MAX_TIME).
    { destruct (nextRetryAt (retry_as_specified now ty prev)) as [t |] eqn:Ht.
      - destruct (Z.abs t <=? MAX_TIME) eqn:E; [| discriminate].
        injection Hr as <-. split; [reflexivity |].
        intros t' Ht'. rewrite Ht in Ht'. injection Ht' as <-.
        apply Z.leb_le. exact E.
      - injection Hr as <-. split; [reflexivity |].
        intros t' Ht'. rewrite Ht in Ht'. discriminate. }
    destruct Hr' as [-> Hrange]. clear Hr.
    revert Hrange. unfold retry_as_specified.
    set (p := retry_policy ty).
    set (stamps := map attempt_created_at prev).
    set (recent := filter (fun t => now - days (period p) <= t) stamps).
    destruct (decide (max_attempts p <= Z.of_nat (length recent)))
      as [Hmax | Hmax].
    + cbn [canRetry nextRetryAt]. intros Hrange.
      split; [split; discriminate |].
      intros t Ht. split; [| exact (Hrange t Ht)]. injection Ht as <-.
      assert (Hne : recent <> []).
      { intros E. rewrite E in Hmax. cbn in Hmax. subst p.
        destruct ty; cbn in Hmax; lia. }
      destruct (earliest_spec recent Hne) as [Hin _].
      apply list_elem_of_filter in Hin as [Hin _]. lia.
    + destruct (decide _) as [(Hc & Hne & Hnow) | Hno];
        cbn [canRetry nextRetryAt]; intros Hrange.
      * split; [split; discriminate |]. intros t Ht.
        split; [| exact (Hrange t Ht)]. injection Ht as <-. lia.
      * split; [split; reflexivity |]. intros t Ht. discriminate.
Qed.

(** Two attempts at a term exam stamped in the last fortnight of the range
    of [Date]: the period would end beyond the range, and the call
    throws. *)
Example checkRetryEligibility_out_of_range :
  checkRetryEligibility64 (MAX_TIME - 1000) term_exam
    [mkAttempt "a1" "u" "e1" 50 false 1 (MAX_TIME - 3000);
     mkAttempt "a2" "u" "e1" 55 false 2 (MAX_TIME - 2000)] = None /\
  checkRetryEligibility64 (days 20) term_exam
    [mkAttempt "a1" "u" "e1" 50 false 1 (days 10);
     mkAttempt "a2" "u" "e1" 55 false 2 (days 12)]
  = Some (mkRetry false (Some (days 24))).
Proof. split; reflexivity. Qed.

(** ** Scores *)









(** ** Running sums *)












(** ** The grade point average *)

Lemma gpa_step64_counted (acc : Q * Q) (e : GradeEntry) :
  gpa_step64 acc e =
  if decide (ge_assessment_type e <> lesson_check)
  then weighted_step64 acc (ge_score e, gpa_weight (ge_assessment_type e))
  else acc.
Proof. destruct e as [[] sc]; reflexivity. Qed.

Lemma gpa_loop64 (entries : list GradeEntry) : forall acc : Q * Q,
  fold_left gpa_step64 entries acc =
  fold_left weighted_step64 (gpa_pairs entries) acc.
Proof.
  unfold gpa_pairs, counted.
  induction entries as [| e es IH]; intros acc; [reflexivity |].
  cbn [fold_left]. rewrite gpa_step64_counted, filter_cons.
  destruct (decide (ge_assessment_type e <> lesson_check)).
  - cbn [map fold_left]. apply IH.
  - apply IH.
Qed.

Lemma gpa_pairs_sums (entries : list GradeEntry) :
  exact_sum (gpa_pairs entries) = weighted_sum entries /\
  exact_weight (gpa_pairs entries) = total_weight entries.
Proof.
  unfold exact_sum, exact_weight, gpa_pairs, weighted_sum, total_weight, Qsum.
  rewrite !map_map. split; reflexivity.
Qed.

Lemma running_weight_positive (l : list (Q * Q)) :
  Forall (fun sw => (0 < snd sw)%Q) l ->
  forall S W : Q,
    (0 <= W)%Q ->
    (0 <= snd (fold_left weighted_step64 l (S, W)))%Q /\
    ((0 < W)%Q \/ l <> [] ->
     (0 < snd (fold_left weighted_step64 l (S, W)))%Q).
Proof.
  induction 1 as [| [s w] l Hw Hall IH]; intros S W HW.
  - cbn. split; [exact HW |]. intros [H | H]; [exact H | congruence].
  - cbn [fold_left]. unfold weighted_step64 at 2 4. cbn [fst snd] in *.
    assert (Hsum : (0 <= W + w)%Q) by lra.
    destruct (fl_bounds (W + w) Hsum) as [Hlo _].
    assert (Hpos : (0 < fl (W + w))%Q) by (unfold u in Hlo; lra).
    destruct (IH (fl (S + fl (fl s * w))) (fl (W + w))) as [I1 I2]; [lra |].
    split; [exact I1 |]. intros _. apply I2. left. exact Hpos.
Qed.

Lemma gpa_pairs_weights (entries : list GradeEntry) :
  Forall (fun sw => (0 < snd sw)%Q) (gpa_pairs entries).
Proof.
  unfold gpa_pairs, counted. apply Forall_forall. intros sw Hsw.
  apply list_elem_of_fmap in Hsw as (e & -> & He).
  apply list_elem_of_filter in He as [Hty _]. cbn [snd].
  destruct (ge_assessment_type e); cbn; try lra. congruence.
Qed.

Lemma exact_weight_positive (l : list (Q * Q)) :
  Forall (fun sw => (0 < snd sw)%Q) l ->
  (0 <= exact_weight l)%Q /\ (l <> [] -> (0 < exact_weight l)%Q).
Proof.
  unfold exact_weight.
  induction 1 as [| [s w] l Hw Hall [I1 I2]]; cbn [map fold_right snd] in *.
  - split; [lra | congruence].
  - split; [lra | intros _; lra].
Qed.

Lemma computeGPA64_null (entries : list GradeEntry) :
  (gpa_pairs entries = [] /\ computeGPA64 entries = None /\
   (total_weight entries == 0)%Q) \/
  (gpa_pairs entries <> [] /\
   (0 < snd (fold_left gpa_step64 entries (0%Q, 0%Q)))%Q /\
   (0 < total_weight entries)%Q).
Proof.
  pose proof (gpa_pairs_weights entries) as Hw.
  destruct (gpa_pairs_sums entries) as [_ Hweight].
  destruct (gpa_pairs entries) as [| p l] eqn:Hl.
  - left. split; [reflexivity |]. unfold computeGPA64.
    rewrite gpa_loop64, Hl. cbn [fold_left snd].
    split; [reflexivity |]. rewrite <- Hweight. reflexivity.
  - right. split; [discriminate |].
    rewrite gpa_loop64, Hl. split.
    + apply (running_weight_positive (p :: l) Hw 0 0); [lra |].
      right. discriminate.
    + rewrite <- Hweight. apply (exact_weight_positive (p :: l) Hw).
      discriminate.
Qed.




Lemma counted_nil_lesson_checks (es : list GradeEntry) :
  counted es = [] <-> Forall (fun e => ge_assessment_type e = lesson_check) es.
Proof.
  unfold counted. induction es as [| e es IH].
  - split; [constructor | reflexivity].
  - rewrite filter_cons.
    destruct (decide (ge_assessment_type e <> lesson_check)) as [Hc | Hc].
    + split; [discriminate |]. intros HF. inversion HF; subst. contradiction.
    + rewrite IH. split.
      * intros HF. constructor; [| exact HF].
        destruct (decide (ge_assessment_type e = lesson_check));
          [assumption | contradiction].
      * intros HF. inversion HF; subst. assumption.
Qed.

Lemma computeGPA64_of_counted (es1 es2 : list GradeEntry) :
  counted es1 = counted es2 -> computeGPA64 es1 = computeGPA64 es2.
Proof.
  intros H. unfold computeGPA64. rewrite !gpa_loop64.
  unfold gpa_pairs. rewrite H. reflexivity.
Qed.

(** X22: lesson checks do not change the GPA: [computeGPA] returns the same
    value for two lists whose entries other than lesson checks are the same
    in the same order, in particular for a list and the list with its
    lesson checks removed; it is null exactly when every entry is a lesson
    check. *)
Theorem computeGPA_ignores_lesson_checks :
  (forall es1 es2 : list GradeEntry,
     filter (fun e => ge_assessment_type e <> lesson_check) es1 =
     filter (fun e => ge_assessment_type e <> lesson_check) es2 ->
     computeGPA64 es1 = computeGPA64 es2) /\
  (forall es : list GradeEntry,
     computeGPA64
       (filter (fun e => ge_assessment_type e <> lesson_check) es)
     = computeGPA64 es) /\
  (forall es : list GradeEntry,
     computeGPA64 es = None <->
     Forall (fun e => ge_assessment_type e = lesson_check) es).
Proof.
  split; [| split].
  - intros es1 es2 H. apply computeGPA64_of_counted. exact H.
  - intros es. apply computeGPA64_of_counted. apply counted_idemp.
  - intros es. rewrite <- counted_nil_lesson_checks.
    destruct (computeGPA64_null es) as [(Hnil & -> & _) | (Hne & Hpos & _)].
    + split; [intros _ | reflexivity].
      unfold gpa_pairs in Hnil. destruct (counted es); [reflexivity |].
      discriminate.
    + unfold computeGPA64.
      destruct (Qeq_bool _ 0) eqn:E.
      * apply Qeq_bool_iff in E. rewrite E in Hpos. lra.
      * split; [discriminate |]. intros Hc. exfalso. apply Hne.
        unfold gpa_pairs. rewrite Hc. reflexivity.
Qed.

(** Lesson checks between the counted entries leave the value as it is;
    the order of the counted entries does not: on doubles the sum is
    rounded after every addition. *)
Example computeGPA_lesson_checks_between :
  computeGPA64 [mkGradeEntry lesson_check 10; mkGradeEntry module_exam 80;
                mkGradeEntry lesson_check 250; mkGradeEntry term_exam 90]
  = computeGPA64 [mkGradeEntry module_exam 80; mkGradeEntry term_exam 90].
Proof. vm_compute. reflexivity. Qed.

(** ** The year gate *)











(** All exams and the review passed, a year GPA of 68: refused, citing the
    GPA. *)
Example canAccessYear64_gpa_68 :
  canAccessYear64 (year_gate_db transcript_68) "u" "y2" =
  deny "Your GPA for the previous year (68) is below the required minimum of 70.".
Proof. vm_compute. reflexivity. Qed.

